(** * LicenseChain Solana SDK: a shallow embedding and its verified contract

    The development follows the layout of the TypeScript sources:
    - [errors.ts]   the error taxonomy ([SolanaError] and its subclasses);
    - [utils.ts]    validation, unit conversion, retry and webhook helpers;
    - [SolanaLicenseManager.ts], [SolanaNFTManager.ts], [SolanaDeFiManager.ts]
                    the REST managers;
    - [LicenseChainSolana.ts] the facade client.

    JavaScript strings are modelled by [string]: one character stands for one
    UTF-16 code unit in the range 0..255.  JavaScript numbers that the code
    only compares, counts or passes along are modelled by [Z] (integers);
    bigints are [Z].  The platform and the network behind [fetch] are an
    oracle ([world]) and every operation returns the list of requests it
    sent next to its result. *)

From Stdlib Require Import ZArith List String Ascii Bool Lia.
Import ListNotations.

Set Warnings "-register-all".

Local Open Scope string_scope.
Local Open Scope Z_scope.

(** ** Strings as sequences of code units *)

Definition chars (s : string) : list ascii := list_ascii_of_string s.
Definition str (l : list ascii) : string := string_of_list_ascii l.

Definition code (c : ascii) : Z := Z.of_nat (nat_of_ascii c).

Definition in_range (lo hi c : ascii) : bool :=
  (code lo <=? code c) && (code c <=? code hi).

(** [String.prototype.length] *)
Definition strlen (s : string) : Z := Z.of_nat (String.length s).

(** [String.prototype.padEnd(n, fill)] for a one-character filler.  A
    negative target length pads nothing. *)
Definition padEnd (s : string) (n : Z) (fill : ascii) : string :=
  str (chars s ++ repeat fill (Z.to_nat n - List.length (chars s))).

(** [String.prototype.padStart(n, fill)] for a one-character filler. *)
Definition padStart (s : string) (n : Z) (fill : ascii) : string :=
  str (repeat fill (Z.to_nat n - List.length (chars s)) ++ chars s).

(** [String.prototype.slice(0, e)]: a negative end counts from the end of the
    string. *)
Definition slice0 (s : string) (e : Z) : string :=
  let len := strlen s in
  let stop := if e <? 0 then Z.max (len + e) 0 else Z.min e len in
  str (firstn (Z.to_nat stop) (chars s)).

(** [String.prototype.split(sep)] for a one-character separator: the list is
    never empty. *)
Fixpoint split_chars (sep : ascii) (cur : list ascii) (l : list ascii)
  : list (list ascii) :=
  match l with
  | [] => [rev cur]
  | c :: r =>
      if Ascii.eqb c sep then rev cur :: split_chars sep [] r
      else split_chars sep (c :: cur) r
  end.

Definition split (s : string) (sep : ascii) : list string :=
  map str (split_chars sep [] (chars s)).

(** ** JavaScript values *)

Inductive value : Type :=
| VUndefined
| VNull
| VBool (b : bool)
| VNumber (n : Z)
| VString (s : string)
| VBytes (b : list Z)                       (* Uint8Array *)
| VArray (xs : list value)
| VObject (fields : list (string * value)).

(** [typeof v] *)
Definition typeof (v : value) : string :=
  match v with
  | VUndefined => "undefined"
  | VNull => "object"
  | VBool _ => "boolean"
  | VNumber _ => "number"
  | VString _ => "string"
  | VBytes _ | VArray _ | VObject _ => "object"
  end.

(** [ToBoolean v]: what [if (v)], [!v] and [||] look at. *)
Definition truthy (v : value) : bool :=
  match v with
  | VUndefined | VNull => false
  | VBool b => b
  | VNumber n => negb (n =? 0)
  | VString s => negb (s =? "")%string
  | VBytes _ | VArray _ | VObject _ => true
  end.

Definition falsy (v : value) : bool := negb (truthy v).

(** ** Decimal numerals: [BigInt(string)] and [bigint.toString()] *)

Definition digit_char (d : Z) : ascii :=
  ascii_of_nat (Z.to_nat (if d <? 10 then 48 + d else 87 + d)).

(** Value of one character as a digit of the given radix (letters count from
    ten, in either case). *)
Definition digit_value (radix : Z) (c : ascii) : option Z :=
  let v :=
    if in_range "0" "9" c then code c - 48
    else if in_range "a" "z" c then code c - 87
    else if in_range "A" "Z" c then code c - 55
    else radix in
  if v <? radix then Some v else None.

(** Most significant digit first; [None] when a character is not a digit. *)
Fixpoint digits_value (radix acc : Z) (l : list ascii) : option Z :=
  match l with
  | [] => Some acc
  | c :: r =>
      match digit_value radix c with
      | Some d => digits_value radix (acc * radix + d) r
      | None => None
      end
  end.

Definition parse_digits (radix : Z) (l : list ascii) : option Z :=
  match l with
  | [] => None
  | _ => digits_value radix 0 l
  end.

(** White space and line terminators of the language, among the code units
    0..255: TAB, LF, VT, FF, CR, SP and NBSP. *)
Definition is_whitespace (c : ascii) : bool :=
  let n := code c in
  ((9 <=? n) && (n <=? 13)) || (n =? 32) || (n =? 160).

Fixpoint drop_while (p : ascii -> bool) (l : list ascii) : list ascii :=
  match l with
  | [] => []
  | c :: r => if p c then drop_while p r else l
  end.

Definition trim_chars (l : list ascii) : list ascii :=
  rev (drop_while is_whitespace (rev (drop_while is_whitespace l))).

(** [StringToBigInt]: surrounding white space is ignored, the empty string
    is zero, a decimal numeral may carry a sign, and the prefixes 0x, 0o and
    0b introduce unsigned hexadecimal, octal and binary numerals.  [None] is
    the SyntaxError that [BigInt(string)] throws. *)
Definition StringToBigInt (s : string) : option Z :=
  match trim_chars (chars s) with
  | [] => Some 0
  | "+"%char :: r => parse_digits 10 r
  | "-"%char :: r => option_map Z.opp (parse_digits 10 r)
  | "0"%char :: x :: r =>
      if Ascii.eqb x "x" || Ascii.eqb x "X" then parse_digits 16 r
      else if Ascii.eqb x "o" || Ascii.eqb x "O" then parse_digits 8 r
      else if Ascii.eqb x "b" || Ascii.eqb x "B" then parse_digits 2 r
      else parse_digits 10 ("0"%char :: x :: r)
  | l => parse_digits 10 l
  end.

(** Decimal digits of a non-negative integer, least significant first into
    the accumulator.  Each step divides by ten, so one unit of fuel per bit
    is always enough. *)
Fixpoint digits_fuel (fuel : nat) (n : Z) (acc : list ascii) : list ascii :=
  match fuel with
  | O => acc
  | S f =>
      let acc' := digit_char (n mod 10) :: acc in
      if n <? 10 then acc' else digits_fuel f (n / 10) acc'
  end.

Definition digits_of (n : Z) : list ascii :=
  digits_fuel (S (Z.to_nat (Z.log2 n))) n [].

(** [bigint.prototype.toString()] *)
Definition bigint_toString (z : Z) : string :=
  if z <? 0 then str ("-"%char :: digits_of (- z)) else str (digits_of z).

(** ** Numbers that become bigints: [BigInt(10 ** d)]

    [10 ** d] is computed in binary64.  For [0 <= d <= 22] the power is a
    double and the result is exact; beyond that it is rounded to 53
    significant bits (to nearest; at the one tie, [d = 23], the model takes
    the even neighbour where an engine may take either); from 309 on it is
    [Infinity], and for a negative [d] it is a fraction: [BigInt] throws a
    RangeError for both. *)
Definition round_binary64 (n : Z) : Z :=
  let bits := Z.log2 n + 1 in
  if bits <=? 53 then n
  else
    let sh := bits - 53 in
    let q := Z.shiftr n sh in
    let r := Z.land n (Z.ones sh) in
    let half := Z.shiftl 1 (sh - 1) in
    let q' := if (half <? r) || ((r =? half) && Z.odd q) then q + 1 else q in
    Z.shiftl q' sh.

Definition BigInt_pow10 (d : Z) : option Z :=
  if (d <? 0) || (308 <? d) then None else Some (round_binary64 (10 ^ d)).

(** ** Numbers as strings: [Number.prototype.toString()]

    An integer below 10^21 prints as its digits.  From 10^21 on the number
    (an integer that is a double) prints in exponent notation, with the fewest digits [s] (there are [k]
    of them) for which [s * 10^(n - k)] reads back as the same double; of
    two such [s] the one nearer to the number is taken, and of two equally
    near ones the even one. *)
Definition reads_back (x v : Z) : bool :=
  round_binary64 v =? round_binary64 x.

Definition nearer (x p s0 s1 : Z) : Z :=
  let d0 := Z.abs (x - s0 * p) in
  let d1 := Z.abs (s1 * p - x) in
  if d0 <? d1 then s0
  else if d1 <? d0 then s1
  else if Z.even s0 then s0 else s1.

(** The significand of [k] digits for a number of [len] digits, if one of
    the two neighbours reads back. *)
Definition shortest_at (x len k : Z) : option Z :=
  let p := 10 ^ (len - k) in
  let s0 := x / p in
  let s1 := s0 + 1 in
  let ok0 := reads_back x (s0 * p) in
  let ok1 := (s1 <? 10 ^ k) && reads_back x (s1 * p) in
  if ok0 && ok1 then Some (nearer x p s0 s1)
  else if ok0 then Some s0
  else if ok1 then Some s1
  else None.

(** Seventeen digits always read back, so the fuel is never used up. *)
Fixpoint shortest_fuel (fuel : nat) (x len k : Z) : Z :=
  match fuel with
  | O => x
  | S f =>
      match shortest_at x len k with
      | Some s => s
      | None => shortest_fuel f x len (k + 1)
      end
  end.

Definition exponent_form (x : Z) : string :=
  let len := Z.of_nat (List.length (digits_of x)) in
  if reads_back x (10 ^ len) then "1e+" ++ str (digits_of len)
  else
    match digits_of (shortest_fuel 17 x len 1) with
    | [] => ""
    | d :: [] => str [d] ++ "e+" ++ str (digits_of (len - 1))
    | d :: rest =>
        str (d :: "."%char :: rest) ++ "e+" ++ str (digits_of (len - 1))
    end.

Definition Number_toString (n : Z) : string :=
  if Z.abs n <? 10 ^ 21 then bigint_toString n
  else if n <? 0 then "-" ++ exponent_form (- n)
  else exponent_form n.

(** ** errors.ts *)

Inductive error_kind : Type :=
| KSolana | KNetwork | KRPC | KTransaction | KAccount | KProgram
| KValidation | KAuthentication | KRateLimit | KInsufficientFunds | KTimeout.

(** What can be thrown and caught: an error of the SDK's taxonomy, carrying
    [name], [message], [code], the fields its subclass adds and [details];
    or an error of the platform (TypeError, SyntaxError, RangeError, ...),
    which is no instance of [SolanaError]. *)
Inductive exn : Type :=
| NativeError (name : string)
| SolanaErr (kind : error_kind) (name message code : string)
            (fields : list (string * value)) (details : detail)
with detail : Type :=
| NoDetails
| Cause (e : exn)
| Payload (v : value).

Definition SolanaError (message code : string) (details : detail) : exn :=
  SolanaErr KSolana "SolanaError" message code [] details.

Definition SolanaNetworkError (message : string) (details : detail) : exn :=
  SolanaErr KNetwork "SolanaNetworkError" message "NETWORK_ERROR" [] details.

Definition SolanaRPCError (message : string) (rpcCode : value)
    (details : detail) : exn :=
  SolanaErr KRPC "SolanaRPCError" message "RPC_ERROR"
            [("rpcCode", rpcCode)] details.

Definition SolanaTransactionError (message : string) (signature : value)
    (details : detail) : exn :=
  SolanaErr KTransaction "SolanaTransactionError" message "TRANSACTION_ERROR"
            [("signature", signature)] details.

Definition SolanaAccountError (message : string) (account : value)
    (details : detail) : exn :=
  SolanaErr KAccount "SolanaAccountError" message "ACCOUNT_ERROR"
            [("account", account)] details.

Definition SolanaProgramError (message : string) (programId : value)
    (details : detail) : exn :=
  SolanaErr KProgram "SolanaProgramError" message "PROGRAM_ERROR"
            [("programId", programId)] details.

Definition SolanaValidationError (message : string) (details : detail) : exn :=
  SolanaErr KValidation "SolanaValidationError" message "VALIDATION_ERROR"
            [] details.

Definition SolanaAuthenticationError (message : string) (details : detail)
  : exn :=
  SolanaErr KAuthentication "SolanaAuthenticationError" message
            "AUTHENTICATION_ERROR" [] details.

Definition SolanaRateLimitError (message : string) (retryAfter : value)
    (details : detail) : exn :=
  SolanaErr KRateLimit "SolanaRateLimitError" message "RATE_LIMIT_ERROR"
            [("retryAfter", retryAfter)] details.

Definition SolanaInsufficientFundsError (message : string)
    (required available : value) (details : detail) : exn :=
  SolanaErr KInsufficientFunds "SolanaInsufficientFundsError" message
            "INSUFFICIENT_FUNDS"
            [("required", required); ("available", available)] details.

Definition SolanaTimeoutError (message : string) (timeout : value)
    (details : detail) : exn :=
  SolanaErr KTimeout "SolanaTimeoutError" message "TIMEOUT_ERROR"
            [("timeout", timeout)] details.

(** [error instanceof SolanaError] *)
Definition instanceof_SolanaError (error : exn) : bool :=
  match error with
  | SolanaErr _ _ _ _ _ _ => true
  | NativeError _ => false
  end.

Definition kind_of (error : exn) : option error_kind :=
  match error with
  | SolanaErr k _ _ _ _ _ => Some k
  | NativeError _ => None
  end.

Definition code_of (error : exn) : option string :=
  match error with
  | SolanaErr _ _ _ c _ _ => Some c
  | NativeError _ => None
  end.

Definition details_of (error : exn) : detail :=
  match error with
  | SolanaErr _ _ _ _ _ d => d
  | NativeError _ => NoDetails
  end.

(** The outcome of a call that may throw. *)
Inductive result (A : Type) : Type :=
| Ok (a : A)
| Throw (e : exn).
Arguments Ok {A} a.
Arguments Throw {A} e.

(** ** utils.ts *)

(** The character class of [/^[1-9A-HJ-NP-Za-km-z]+$/]. *)
Definition base58_class (c : ascii) : bool :=
  in_range "1" "9" c || in_range "A" "H" c || in_range "J" "N" c
  || in_range "P" "Z" c || in_range "a" "k" c || in_range "m" "z" c.

(** [base58Regex.test(s)]: one or more characters of the class, and nothing
    else between the start and the end of the input. *)
Definition base58Regex_test (s : string) : bool :=
  match chars s with
  | [] => false
  | l => forallb base58_class l
  end.

Definition validatePublicKey (publicKey : value) : bool :=
  if falsy publicKey || negb (typeof publicKey =? "string")%string then false
  else
    match publicKey with
    | VString s =>
        if (strlen s <? 32) || (44 <? strlen s) then false
        else base58Regex_test s
    | _ => false
    end.

(** Line terminators are what [.] does not match.  Of the four that
    JavaScript has, LF and CR are code units of a [string]; U+2028 and
    U+2029 lie above 255 and so outside the strings modelled here. *)
Definition is_line_terminator (c : ascii) : bool :=
  (code c =? 10) || (code c =? 13).

(** All matches of [/.{1,2}/g], left to right: two characters when two are
    there, one before a line terminator or at the end. *)
Fixpoint match_dot_1_2 (l : list ascii) : list (list ascii) :=
  match l with
  | [] => []
  | c :: r =>
      if is_line_terminator c then match_dot_1_2 r
      else
        match r with
        | [] => [[c]]
        | d :: r' =>
            if is_line_terminator d then [c] :: match_dot_1_2 r
            else [c; d] :: match_dot_1_2 r'
        end
  end.

(** [s.match(/.{1,2}/g)]: [None] is the [null] of a string without match. *)
Definition String_match_dot_1_2 (s : string) : option (list string) :=
  match match_dot_1_2 (chars s) with
  | [] => None
  | ms => Some (map str ms)
  end.

Fixpoint hex_prefix_value (acc : option Z) (l : list ascii) : option Z :=
  match l with
  | [] => acc
  | c :: r =>
      match digit_value 16 c with
      | Some d =>
          hex_prefix_value
            (Some (match acc with Some a => a * 16 + d | None => d end)) r
      | None => acc
      end
  end.

(** [parseInt(s, 16)]: leading white space, a sign and a 0x prefix are
    skipped, then the longest run of hexadecimal digits is read; [None] is
    NaN. *)
Definition parseInt16 (s : string) : option Z :=
  let l := drop_while is_whitespace (chars s) in
  let '(sign, l) :=
    match l with
    | "-"%char :: r => (-1, r)
    | "+"%char :: r => (1, r)
    | _ => (1, l)
    end in
  let l :=
    match l with
    | "0"%char :: x :: r =>
        if Ascii.eqb x "x" || Ascii.eqb x "X" then r else l
    | _ => l
    end in
  option_map (Z.mul sign) (hex_prefix_value None l).

(** Storing a number into a [Uint8Array]: NaN is 0, everything else wraps. *)
Definition ToUint8 (n : option Z) : Z :=
  match n with
  | None => 0
  | Some z => z mod 256
  end.

Definition validatePrivateKey (privateKey : value) : bool :=
  match privateKey with
  | VString s =>
      let bytes :=
        match option_map (map (fun byte => ToUint8 (parseInt16 byte)))
                (String_match_dot_1_2 s) with
        | Some numbers => numbers
        | None => []
        end in
      Z.of_nat (List.length bytes) =? 64
  | VBytes b => Z.of_nat (List.length b) =? 64
  | _ => false
  end.

Definition formatPublicKey (publicKey : value) : result value :=
  if negb (validatePublicKey publicKey)
  then Throw (SolanaValidationError "Invalid public key format" NoDetails)
  else Ok publicKey.

(** [parseUnits(value, decimals = 9)] *)
Definition parseUnits (value : string) (decimals : Z) : result Z :=
  let parts := split value "." in
  let integer := nth 0 parts "" in
  let fraction := nth 1 parts "" in
  let paddedFraction := slice0 (padEnd fraction decimals "0") decimals in
  match StringToBigInt (integer ++ paddedFraction) with
  | Some n => Ok n
  | None => Throw (NativeError "SyntaxError")
  end.

Inductive bigint_or_string : Type :=
| OfBigInt (n : Z)
| OfString (s : string).

(** [s.replace(/0+$/, '')] *)
Definition trim_trailing_zeros (s : string) : string :=
  str (rev (drop_while (Ascii.eqb "0") (rev (chars s)))).

(** [formatUnits(value, decimals = 9)].  Bigint division truncates towards
    zero and the remainder takes the sign of the dividend. *)
Definition formatUnits (value : bigint_or_string) (decimals : Z)
  : result string :=
  let bigintValue :=
    match value with
    | OfString s =>
        match StringToBigInt s with
        | Some n => Ok n
        | None => Throw (NativeError "SyntaxError")
        end
    | OfBigInt n => Ok n
    end in
  match bigintValue with
  | Throw e => Throw e
  | Ok bigintValue =>
      match BigInt_pow10 decimals with
      | None => Throw (NativeError "RangeError")
      | Some divisor =>
          let quotient := Z.quot bigintValue divisor in
          let remainder := Z.rem bigintValue divisor in
          if remainder =? 0 then Ok (bigint_toString quotient)
          else
            let remainderStr :=
              padStart (bigint_toString remainder) decimals "0" in
            let trimmedRemainder := trim_trailing_zeros remainderStr in
            if negb (trimmedRemainder =? "")%string
            then Ok (bigint_toString quotient ++ "." ++ trimmedRemainder)
            else Ok (bigint_toString quotient)
      end
  end.

(** [retry(fn, maxRetries = 3, delay = 1000)].  [fn k] is what the [k]-th
    invocation of the operation settles to, counting from zero.  A run
    records how the returned promise settles, how often the operation was
    invoked and the delays handed to [setTimeout], in order. *)
Section Retry.
Context {T E : Type}.
Variable fn : nat -> T + E.
Variables maxRetries delay : Z.

Inductive settled : Type :=
| Resolved (v : T)
| Rejected (e : E)
| Pending.

Record run : Type := mkRun {
  outcome : settled;
  invocations : nat;
  timeouts : list Z
}.

(** The closure [attempt]; [calls] counts the invocations made so far and
    [fuel] bounds the number of timers still to be set. *)
Fixpoint attempt (fuel : nat) (attempts : Z) (calls : nat) (slept : list Z)
  : run :=
  match fn calls with
  | inl result => mkRun (Resolved result) (S calls) slept
  | inr error =>
      let attempts := attempts + 1 in
      if attempts >=? maxRetries then mkRun (Rejected error) (S calls) slept
      else
        match fuel with
        | O => mkRun Pending (S calls) slept
        | S fuel' =>
            attempt fuel' attempts (S calls) (slept ++ [delay * attempts])
        end
  end.

Definition retry : run := attempt (Z.to_nat maxRetries) 0 0%nat [].
End Retry.

Arguments Resolved {T E} v.
Arguments Rejected {T E} e.
Arguments Pending {T E}.

(** [new TextEncoder().encode(s)] on a [string]: UTF-8, one byte for a
    code unit below 128 and two bytes from 128 to 255.  (Surrogates, which
    the encoder reads in pairs, lie above 255.) *)
Definition utf8_unit (c : ascii) : list Z :=
  let n := code c in
  if n <? 128 then [n]
  else [Z.lor 192 (Z.shiftr n 6); Z.lor 128 (Z.land n 63)].

Definition TextEncoder_encode (s : string) : list Z :=
  flat_map utf8_unit (chars s).

Definition base64_alphabet : string :=
  "ABCDEFGHIJKLMNOPQRSTUVWXYZabcdefghijklmnopqrstuvwxyz0123456789+/".

Definition base64_char (n : Z) : ascii :=
  nth (Z.to_nat n) (chars base64_alphabet) "="%char.

Fixpoint base64_encode (l : list Z) : list ascii :=
  match l with
  | [] => []
  | [a] =>
      [base64_char (Z.shiftr a 2);
       base64_char (Z.shiftl (Z.land a 3) 4);
       "="%char; "="%char]
  | [a; b] =>
      [base64_char (Z.shiftr a 2);
       base64_char (Z.lor (Z.shiftl (Z.land a 3) 4) (Z.shiftr b 4));
       base64_char (Z.shiftl (Z.land b 15) 2);
       "="%char]
  | a :: b :: c :: r =>
      [base64_char (Z.shiftr a 2);
       base64_char (Z.lor (Z.shiftl (Z.land a 3) 4) (Z.shiftr b 4));
       base64_char (Z.lor (Z.shiftl (Z.land b 15) 2) (Z.shiftr c 6));
       base64_char (Z.land c 63)] ++ base64_encode r
  end.

(** [btoa(s)] on a string of code units 0..255. *)
Definition btoa (s : string) : string :=
  str (base64_encode (map code (chars s))).

(** [String.fromCharCode(n)] for [0 <= n < 256]. *)
Definition fromCharCode (n : Z) : ascii := ascii_of_nat (Z.to_nat n).

(** [Array.prototype.map] with the index passed to the callback. *)
Fixpoint mapi_from {A B : Type} (i : nat) (f : A -> nat -> B) (l : list A)
  : list B :=
  match l with
  | [] => []
  | x :: r => f x i :: mapi_from (S i) f r
  end.

(** [key[i % key.length]] as an operand of [^]: for an empty key the index
    is NaN, the element is [undefined] and the operand is 0. *)
Definition key_operand (key : list Z) (i : nat) : Z :=
  match key with
  | [] => 0
  | _ => nth (i mod List.length key) key 0
  end.

Definition createWebhookSignature (payload secret : string) : string :=
  let key := TextEncoder_encode secret in
  let data := TextEncoder_encode payload in
  btoa (str (mapi_from 0
               (fun byte i => fromCharCode (Z.lxor byte (key_operand key i)))
               data)).

Definition verifyWebhookSignature (payload signature secret : string) : bool :=
  let expectedSignature := createWebhookSignature payload secret in
  (signature =? expectedSignature)%string.

(** ** The platform: property access, conversions, [fetch] *)

Fixpoint lookup (k : string) (fields : list (string * value)) : option value :=
  match fields with
  | [] => None
  | (k', v) :: r => if (k =? k')%string then Some v else lookup k r
  end.

(** [v.k] for the property names the SDK reads from remote data (none of
    them is inherited from a prototype): a TypeError on [undefined] and
    [null], the own property of an object, [undefined] elsewhere. *)
Definition get (v : value) (k : string) : result value :=
  match v with
  | VUndefined | VNull => Throw (NativeError "TypeError")
  | VObject fields =>
      Ok (match lookup k fields with Some x => x | None => VUndefined end)
  | _ => Ok VUndefined
  end.

(** Setting a property in an object literal: an existing key keeps its
    place and takes the new value. *)
Fixpoint set_prop (fields : list (string * value)) (k : string) (v : value)
  : list (string * value) :=
  match fields with
  | [] => [(k, v)]
  | (k', v') :: r =>
      if (k =? k')%string then (k, v) :: r else (k', v') :: set_prop r k v
  end.

Definition object_literal (entries : list (string * value)) : value :=
  VObject (fold_left (fun o kv => set_prop o (fst kv) (snd kv)) entries []).

Definition indexed {A : Type} (f : A -> value) (l : list A)
  : list (string * value) :=
  mapi_from 0 (fun x i => (bigint_toString (Z.of_nat i), f x)) l.

(** The own enumerable properties that [{...v}] copies. *)
Definition spread (v : value) : list (string * value) :=
  match v with
  | VObject fields => fields
  | VArray xs => indexed (fun x => x) xs
  | VBytes b => indexed VNumber b
  | VString s => indexed (fun c => VString (String c "")) (chars s)
  | _ => []
  end.

Definition join_with (sep : string) (l : list string) : string :=
  match l with
  | [] => ""
  | x :: r => fold_left (fun acc y => acc ++ sep ++ y) r x
  end.

(** [ToString v], as a template literal applies it.  An object that has a
    property [toString] of its own has one that cannot be called (values
    are data), and [valueOf] gives no primitive either: a TypeError.  The
    elements of an array are converted in order, [undefined] and [null] to
    the empty string. *)
Fixpoint to_string (v : value) : result string :=
  match v with
  | VUndefined => Ok "undefined"
  | VNull => Ok "null"
  | VBool true => Ok "true"
  | VBool false => Ok "false"
  | VNumber n => Ok (Number_toString n)
  | VString s => Ok s
  | VBytes b => Ok (join_with "," (map Number_toString b))
  | VArray xs =>
      match
        (fix elements (l : list value) : result (list string) :=
           match l with
           | [] => Ok []
           | x :: r =>
               match
                 match x with
                 | VUndefined | VNull => Ok ""
                 | _ => to_string x
                 end
               with
               | Throw e => Throw e
               | Ok first =>
                   match elements r with
                   | Throw e => Throw e
                   | Ok rest => Ok (first :: rest)
                   end
               end
           end) xs
      with
      | Throw e => Throw e
      | Ok parts => Ok (join_with "," parts)
      end
  | VObject fields =>
      match lookup "toString" fields with
      | Some _ => Throw (NativeError "TypeError")
      | None => Ok "[object Object]"
      end
  end.

(** The message an [Error] is constructed with: [ToString] of the argument
    unless it is [undefined]. *)
Definition error_message (v : value) : result string :=
  match v with
  | VUndefined => Ok ""
  | _ => to_string v
  end.

(** *** types.ts: the configuration *)

(** An optional property: absent, present and [undefined], or defined. *)
Inductive optional (A : Type) : Type :=
| Absent
| Undefined
| Defined (a : A).
Arguments Absent {A}.
Arguments Undefined {A}.
Arguments Defined {A} a.

Record SolanaConfig : Type := mkConfig {
  apiKey : string;
  baseUrl : optional string;
  rpcUrl : optional string;
  timeout : optional Z;
  retries : optional Z
}.

(** [{ k: d, ...config }]: a property that [config] has, even an undefined
    one, replaces the default. *)
Definition or_default {A : Type} (d : A) (p : optional A) : optional A :=
  match p with
  | Absent => Defined d
  | _ => p
  end.

Definition template {A : Type} (show : A -> string) (p : optional A) : string :=
  match p with
  | Defined a => show a
  | _ => "undefined"
  end.

(** *** Requests and responses *)

Record request : Type := mkRequest {
  req_url : string;
  req_method : string;
  req_headers : list (string * string);
  req_body : option value;          (* the argument of JSON.stringify *)
  req_timeout : Z                   (* AbortSignal.timeout *)
}.

Record response : Type := mkResponse {
  ok : bool;
  status : Z;
  statusText : string;
  json : result value               (* what response.json() settles to *)
}.

(** The platform and the network behind [fetch].  [settles] is what the
    call settles to for a request, given the requests sent before it
    ([Throw] is a rejected promise).  [unsent] says, of a call that is
    rejected, whether the platform turned the request down before sending
    it, as it does for a URL that does not parse and for a header value
    that is not legal.  A call that is answered has been sent. *)
Record world : Type := mkWorld {
  settles :> list request -> request -> result response;
  unsent : list request -> request -> bool
}.

(** [AbortSignal.timeout(ms)] throws unless [ms] is a number in the range of
    an unsigned long long (a TypeError in browsers; the error is never an
    instance of [SolanaError]). *)
Definition AbortSignal_timeout (ms : optional Z) : result Z :=
  match ms with
  | Defined t =>
      if (0 <=? t) && (t <=? 2 ^ 53 - 1) then Ok t
      else Throw (NativeError "TypeError")
  | _ => Throw (NativeError "TypeError")
  end.

(** *** Asynchronous operations

    An operation runs against the network and a log of the requests issued
    so far; it returns the extended log and how its promise settles. *)
Definition M (A : Type) : Type :=
  world -> list request -> list request * result A.

Definition ret {A : Type} (a : A) : M A := fun _ log => (log, Ok a).

Definition throw {A : Type} (e : exn) : M A := fun _ log => (log, Throw e).

Definition lift {A : Type} (r : result A) : M A := fun _ log => (log, r).

Definition bind {A B : Type} (m : M A) (k : A -> M B) : M B :=
  fun w log =>
    match m w log with
    | (log', Ok a) => k a w log'
    | (log', Throw e) => (log', Throw e)
    end.

Definition try_catch {A : Type} (m : M A) (handler : exn -> M A) : M A :=
  fun w log =>
    match m w log with
    | (log', Throw e) => handler e w log'
    | settled_ok => settled_ok
    end.

(** What becomes of a request that [fetch] has taken: it is logged as sent
    unless the platform turned it down first. *)
Definition transmit (r : request) : M response :=
  fun w log =>
    match w log r with
    | Ok response => ((log ++ [r])%list, Ok response)
    | Throw e =>
        if unsent w log r then (log, Throw e)
        else ((log ++ [r])%list, Throw e)
    end.

(** [fetch(url, options)].  A GET or HEAD request with a body is refused
    with a TypeError before anything is sent. *)
Definition fetch (r : request) : M response :=
  fun w log =>
    match req_body r with
    | Some _ =>
        if (req_method r =? "GET")%string || (req_method r =? "HEAD")%string
        then (log, Throw (NativeError "TypeError"))
        else transmit r w log
    | None => transmit r w log
    end.

Declare Scope js_scope.
Delimit Scope js_scope with js.
Notation "x <- m ;; k" := (bind m (fun x => k))
  (at level 61, m at next level, right associativity) : js_scope.
Notation "'try' m 'catch' h" := (try_catch m h)
  (at level 62, m at level 61, h at level 9) : js_scope.
Local Open Scope js_scope.

(** Running an operation on a fresh log. *)
Definition run_op {A : Type} (m : M A) (w : world) : list request * result A :=
  m w [].

Definition requests_of {A : Type} (m : M A) (w : world) : list request :=
  fst (run_op m w).

Definition result_of {A : Type} (m : M A) (w : world) : result A :=
  snd (run_op m w).

(** ** SolanaLicenseManager.ts *)

Module SolanaLicenseManager.

Record t : Type := new { config : SolanaConfig }.

Definition makeRequest (this : t) (method endpoint : string) (data : value)
  : M value :=
  let url := template (fun s => s) (baseUrl (config this)) ++ endpoint in
  signal <- lift (AbortSignal_timeout (timeout (config this))) ;;
  let options :=
    mkRequest url method
      [("Content-Type", "application/json");
       ("Authorization", "Bearer " ++ apiKey (config this));
       ("X-API-Version", "1.0");
       ("X-Platform", "solana")]
      (if truthy data then Some data else None)
      signal in
  try
    (response <- fetch options ;;
     if negb (ok response)
     then throw (SolanaNetworkError
                   ("HTTP " ++ bigint_toString (status response) ++ ": "
                    ++ statusText response) NoDetails)
     else lift (json response))
  catch (fun error =>
    if instanceof_SolanaError error then throw error
    else throw (SolanaNetworkError "API request failed" (Cause error))).

Definition createLicense (this : t) (userId productId metadata : value)
  : M value :=
  try
    (if falsy userId || falsy productId
     then throw (SolanaValidationError
                   "User ID and Product ID are required" NoDetails)
     else
       response <- makeRequest this "POST" "/licenses"
         (object_literal
            [("userId", userId);
             ("productId", productId);
             ("metadata",
               object_literal
                 (spread metadata ++
                  [("platform", VString "solana");
                   ("createdVia", VString "sdk")]))]) ;;
       lift (get response "data"))
  catch (fun error =>
    if instanceof_SolanaError error then throw error
    else throw (SolanaError "Failed to create license"
                            "LICENSE_CREATE_ERROR" (Cause error))).

Definition validateLicense (this : t) (licenseKey : value) : M value :=
  try
    (if falsy licenseKey
     then throw (SolanaValidationError "License key is required" NoDetails)
     else
       response <- makeRequest this "POST" "/licenses/validate"
         (object_literal
            [("licenseKey", licenseKey);
             ("platform", VString "solana")]) ;;
       data <- lift (get response "data") ;;
       lift (get data "valid"))
  catch (fun error =>
    if instanceof_SolanaError error then throw error
    else throw (SolanaError "Failed to validate license"
                            "LICENSE_VALIDATE_ERROR" (Cause error))).

Definition getLicense (this : t) (licenseId : value) : M value :=
  try
    (if falsy licenseId
     then throw (SolanaValidationError "License ID is required" NoDetails)
     else
       segment <- lift (to_string licenseId) ;;
       response <- makeRequest this "GET"
         ("/licenses/" ++ segment) VUndefined ;;
       lift (get response "data"))
  catch (fun error =>
    if instanceof_SolanaError error then throw error
    else throw (SolanaError "Failed to get license"
                            "LICENSE_GET_ERROR" (Cause error))).

Definition updateLicense (this : t) (licenseId updates : value) : M value :=
  try
    (if falsy licenseId
     then throw (SolanaValidationError "License ID is required" NoDetails)
     else
       segment <- lift (to_string licenseId) ;;
       response <- makeRequest this "PUT" ("/licenses/" ++ segment)
         (object_literal
            (spread updates ++
             [("platform", VString "solana")])) ;;
       lift (get response "data"))
  catch (fun error =>
    if instanceof_SolanaError error then throw error
    else throw (SolanaError "Failed to update license"
                            "LICENSE_UPDATE_ERROR" (Cause error))).

Definition revokeLicense (this : t) (licenseId : value) : M value :=
  try
    (if falsy licenseId
     then throw (SolanaValidationError "License ID is required" NoDetails)
     else
       segment <- lift (to_string licenseId) ;;
       response <- makeRequest this "DELETE"
         ("/licenses/" ++ segment) VUndefined ;;
       data <- lift (get response "data") ;;
       lift (get data "success"))
  catch (fun error =>
    if instanceof_SolanaError error then throw error
    else throw (SolanaError "Failed to revoke license"
                            "LICENSE_REVOKE_ERROR" (Cause error))).

Definition getUserLicenses (this : t) (userId : value) : M value :=
  try
    (if falsy userId
     then throw (SolanaValidationError "User ID is required" NoDetails)
     else
       segment <- lift (to_string userId) ;;
       response <- makeRequest this "GET"
         ("/users/" ++ segment ++ "/licenses") VUndefined ;;
       lift (get response "data"))
  catch (fun error =>
    if instanceof_SolanaError error then throw error
    else throw (SolanaError "Failed to get user licenses"
                            "LICENSE_LIST_ERROR" (Cause error))).

Definition getProductLicenses (this : t) (productId : value) : M value :=
  try
    (if falsy productId
     then throw (SolanaValidationError "Product ID is required" NoDetails)
     else
       segment <- lift (to_string productId) ;;
       response <- makeRequest this "GET"
         ("/products/" ++ segment ++ "/licenses") VUndefined ;;
       lift (get response "data"))
  catch (fun error =>
    if instanceof_SolanaError error then throw error
    else throw (SolanaError "Failed to get product licenses"
                            "LICENSE_LIST_ERROR" (Cause error))).

Definition extendLicense (this : t) (licenseId : value) (days : Z) : M value :=
  try
    (if falsy licenseId
     then throw (SolanaValidationError "License ID is required" NoDetails)
     else if days <=? 0
     then throw (SolanaValidationError "Days must be greater than 0" NoDetails)
     else
       segment <- lift (to_string licenseId) ;;
       response <- makeRequest this "POST"
         ("/licenses/" ++ segment ++ "/extend")
         (object_literal
            [("days", VNumber days);
             ("platform", VString "solana")]) ;;
       lift (get response "data"))
  catch (fun error =>
    if instanceof_SolanaError error then throw error
    else throw (SolanaError "Failed to extend license"
                            "LICENSE_EXTEND_ERROR" (Cause error))).

Definition suspendLicense (this : t) (licenseId reason : value) : M value :=
  try
    (if falsy licenseId
     then throw (SolanaValidationError "License ID is required" NoDetails)
     else
       segment <- lift (to_string licenseId) ;;
       response <- makeRequest this "POST"
         ("/licenses/" ++ segment ++ "/suspend")
         (object_literal
            [("reason", reason);
             ("platform", VString "solana")]) ;;
       data <- lift (get response "data") ;;
       lift (get data "success"))
  catch (fun error =>
    if instanceof_SolanaError error then throw error
    else throw (SolanaError "Failed to suspend license"
                            "LICENSE_SUSPEND_ERROR" (Cause error))).

Definition unsuspendLicense (this : t) (licenseId : value) : M value :=
  try
    (if falsy licenseId
     then throw (SolanaValidationError "License ID is required" NoDetails)
     else
       segment <- lift (to_string licenseId) ;;
       response <- makeRequest this "POST"
         ("/licenses/" ++ segment ++ "/unsuspend")
         (object_literal
            [("platform", VString "solana")]) ;;
       data <- lift (get response "data") ;;
       lift (get data "success"))
  catch (fun error =>
    if instanceof_SolanaError error then throw error
    else throw (SolanaError "Failed to unsuspend license"
                            "LICENSE_UNSUSPEND_ERROR" (Cause error))).

Definition getLicenseStats (this : t) : M value :=
  try
    (response <- makeRequest this "GET" "/licenses/stats" VUndefined ;;
     lift (get response "data"))
  catch (fun error =>
    if instanceof_SolanaError error then throw error
    else throw (SolanaError "Failed to get license stats"
                            "LICENSE_STATS_ERROR" (Cause error))).

End SolanaLicenseManager.

(** ** SolanaNFTManager.ts *)

Module SolanaNFTManager.

Record t : Type := new { config : SolanaConfig }.

Definition makeRequest (this : t) (method endpoint : string) (data : value)
  : M value :=
  let url := template (fun s => s) (baseUrl (config this)) ++ endpoint in
  signal <- lift (AbortSignal_timeout (timeout (config this))) ;;
  let options :=
    mkRequest url method
      [("Content-Type", "application/json");
       ("Authorization", "Bearer " ++ apiKey (config this));
       ("X-API-Version", "1.0");
       ("X-Platform", "solana")]
      (if truthy data then Some data else None)
      signal in
  try
    (response <- fetch options ;;
     if negb (ok response)
     then throw (SolanaNetworkError
                   ("HTTP " ++ bigint_toString (status response) ++ ": "
                    ++ statusText response) NoDetails)
     else lift (json response))
  catch (fun error =>
    if instanceof_SolanaError error then throw error
    else throw (SolanaNetworkError "API request failed" (Cause error))).

Definition createNFT (this : t) (metadata owner : value) : M value :=
  try
    (if falsy metadata || falsy owner
     then throw (SolanaValidationError
                   "Metadata and owner are required" NoDetails)
     else if negb (validatePublicKey owner)
     then throw (SolanaValidationError "Invalid owner public key" NoDetails)
     else
       response <- makeRequest this "POST" "/nfts"
         (object_literal
            [("metadata", metadata);
             ("owner", owner);
             ("platform", VString "solana")]) ;;
       lift (get response "data"))
  catch (fun error =>
    if instanceof_SolanaError error then throw error
    else throw (SolanaError "Failed to create NFT"
                            "NFT_CREATE_ERROR" (Cause error))).

Definition getNFT (this : t) (mint : value) : M value :=
  try
    (if falsy mint
     then throw (SolanaValidationError "Mint address is required" NoDetails)
     else if negb (validatePublicKey mint)
     then throw (SolanaValidationError "Invalid mint address" NoDetails)
     else
       segment <- lift (to_string mint) ;;
       response <- makeRequest this "GET"
         ("/nfts/" ++ segment) VUndefined ;;
       lift (get response "data"))
  catch (fun error =>
    if instanceof_SolanaError error then throw error
    else throw (SolanaError "Failed to get NFT"
                            "NFT_GET_ERROR" (Cause error))).

Definition transferNFT (this : t) (mint from to : value) : M value :=
  try
    (if falsy mint || falsy from || falsy to
     then throw (SolanaValidationError
                   "Mint, from, and to addresses are required" NoDetails)
     else if negb (validatePublicKey mint) ||
             negb (validatePublicKey from) ||
             negb (validatePublicKey to)
     then throw (SolanaValidationError "Invalid address format" NoDetails)
     else
       segment <- lift (to_string mint) ;;
       response <- makeRequest this "POST"
         ("/nfts/" ++ segment ++ "/transfer")
         (object_literal
            [("from", from);
             ("to", to);
             ("platform", VString "solana")]) ;;
       data <- lift (get response "data") ;;
       lift (get data "transactionSignature"))
  catch (fun error =>
    if instanceof_SolanaError error then throw error
    else throw (SolanaError "Failed to transfer NFT"
                            "NFT_TRANSFER_ERROR" (Cause error))).

Definition getOwnerNFTs (this : t) (owner : value) : M value :=
  try
    (if falsy owner
     then throw (SolanaValidationError "Owner address is required" NoDetails)
     else if negb (validatePublicKey owner)
     then throw (SolanaValidationError "Invalid owner address" NoDetails)
     else
       segment <- lift (to_string owner) ;;
       response <- makeRequest this "GET"
         ("/nfts/owner/" ++ segment) VUndefined ;;
       lift (get response "data"))
  catch (fun error =>
    if instanceof_SolanaError error then throw error
    else throw (SolanaError "Failed to get owner NFTs"
                            "NFT_LIST_ERROR" (Cause error))).

Definition getCollectionNFTs (this : t) (collection : value) : M value :=
  try
    (if falsy collection
     then throw (SolanaValidationError
                   "Collection address is required" NoDetails)
     else if negb (validatePublicKey collection)
     then throw (SolanaValidationError "Invalid collection address" NoDetails)
     else
       segment <- lift (to_string collection) ;;
       response <- makeRequest this "GET"
         ("/nfts/collection/" ++ segment) VUndefined ;;
       lift (get response "data"))
  catch (fun error =>
    if instanceof_SolanaError error then throw error
    else throw (SolanaError "Failed to get collection NFTs"
                            "NFT_LIST_ERROR" (Cause error))).

Definition updateNFTMetadata (this : t) (mint metadata : value) : M value :=
  try
    (if falsy mint
     then throw (SolanaValidationError "Mint address is required" NoDetails)
     else if negb (validatePublicKey mint)
     then throw (SolanaValidationError "Invalid mint address" NoDetails)
     else
       segment <- lift (to_string mint) ;;
       response <- makeRequest this "PUT"
         ("/nfts/" ++ segment ++ "/metadata")
         (object_literal
            [("metadata", metadata);
             ("platform", VString "solana")]) ;;
       lift (get response "data"))
  catch (fun error =>
    if instanceof_SolanaError error then throw error
    else throw (SolanaError "Failed to update NFT metadata"
                            "NFT_UPDATE_ERROR" (Cause error))).

Definition burnNFT (this : t) (mint owner : value) : M value :=
  try
    (if falsy mint || falsy owner
     then throw (SolanaValidationError
                   "Mint and owner addresses are required" NoDetails)
     else if negb (validatePublicKey mint) || negb (validatePublicKey owner)
     then throw (SolanaValidationError "Invalid address format" NoDetails)
     else
       segment <- lift (to_string mint) ;;
       response <- makeRequest this "POST"
         ("/nfts/" ++ segment ++ "/burn")
         (object_literal
            [("owner", owner);
             ("platform", VString "solana")]) ;;
       data <- lift (get response "data") ;;
       lift (get data "transactionSignature"))
  catch (fun error =>
    if instanceof_SolanaError error then throw error
    else throw (SolanaError "Failed to burn NFT"
                            "NFT_BURN_ERROR" (Cause error))).

Definition createCollection (this : t) (collection creator : value)
  : M value :=
  try
    (if falsy collection || falsy creator
     then throw (SolanaValidationError
                   "Collection data and creator are required" NoDetails)
     else if negb (validatePublicKey creator)
     then throw (SolanaValidationError "Invalid creator address" NoDetails)
     else
       response <- makeRequest this "POST" "/nfts/collections"
         (object_literal
            (spread collection ++
             [("creator", creator);
              ("platform", VString "solana")])) ;;
       lift (get response "data"))
  catch (fun error =>
    if instanceof_SolanaError error then throw error
    else throw (SolanaError "Failed to create collection"
                            "COLLECTION_CREATE_ERROR" (Cause error))).

Definition getCollection (this : t) (collectionId : value) : M value :=
  try
    (if falsy collectionId
     then throw (SolanaValidationError "Collection ID is required" NoDetails)
     else
       segment <- lift (to_string collectionId) ;;
       response <- makeRequest this "GET"
         ("/nfts/collections/" ++ segment) VUndefined ;;
       lift (get response "data"))
  catch (fun error =>
    if instanceof_SolanaError error then throw error
    else throw (SolanaError "Failed to get collection"
                            "COLLECTION_GET_ERROR" (Cause error))).

Definition listNFT (this : t) (mint price seller marketplace : value)
  : M value :=
  let marketplace :=
    match marketplace with
    | VUndefined => VString "default"
    | _ => marketplace
    end in
  try
    (if falsy mint || falsy price || falsy seller
     then throw (SolanaValidationError
                   "Mint, price, and seller are required" NoDetails)
     else if negb (validatePublicKey mint) || negb (validatePublicKey seller)
     then throw (SolanaValidationError "Invalid address format" NoDetails)
     else
       segment <- lift (to_string mint) ;;
       response <- makeRequest this "POST"
         ("/nfts/" ++ segment ++ "/list")
         (object_literal
            [("price", price);
             ("seller", seller);
             ("marketplace", marketplace);
             ("platform", VString "solana")]) ;;
       lift (get response "data"))
  catch (fun error =>
    if instanceof_SolanaError error then throw error
    else throw (SolanaError "Failed to list NFT"
                            "NFT_LIST_ERROR" (Cause error))).

Definition unlistNFT (this : t) (mint seller : value) : M value :=
  try
    (if falsy mint || falsy seller
     then throw (SolanaValidationError
                   "Mint and seller are required" NoDetails)
     else if negb (validatePublicKey mint) || negb (validatePublicKey seller)
     then throw (SolanaValidationError "Invalid address format" NoDetails)
     else
       segment <- lift (to_string mint) ;;
       response <- makeRequest this "POST"
         ("/nfts/" ++ segment ++ "/unlist")
         (object_literal
            [("seller", seller);
             ("platform", VString "solana")]) ;;
       data <- lift (get response "data") ;;
       lift (get data "success"))
  catch (fun error =>
    if instanceof_SolanaError error then throw error
    else throw (SolanaError "Failed to unlist NFT"
                            "NFT_UNLIST_ERROR" (Cause error))).

Definition buyNFT (this : t) (mint buyer price : value) : M value :=
  try
    (if falsy mint || falsy buyer || falsy price
     then throw (SolanaValidationError
                   "Mint, buyer, and price are required" NoDetails)
     else if negb (validatePublicKey mint) || negb (validatePublicKey buyer)
     then throw (SolanaValidationError "Invalid address format" NoDetails)
     else
       segment <- lift (to_string mint) ;;
       response <- makeRequest this "POST"
         ("/nfts/" ++ segment ++ "/buy")
         (object_literal
            [("buyer", buyer);
             ("price", price);
             ("platform", VString "solana")]) ;;
       data <- lift (get response "data") ;;
       lift (get data "transactionSignature"))
  catch (fun error =>
    if instanceof_SolanaError error then throw error
    else throw (SolanaError "Failed to buy NFT"
                            "NFT_BUY_ERROR" (Cause error))).

Definition getMarketplaceListings (this : t) (filters : value) : M value :=
  try
    (response <- makeRequest this "GET" "/nfts/marketplace/listings"
       (object_literal
          [("params", filters)]) ;;
     lift (get response "data"))
  catch (fun error =>
    if instanceof_SolanaError error then throw error
    else throw (SolanaError "Failed to get marketplace listings"
                            "MARKETPLACE_LIST_ERROR" (Cause error))).

Definition getNFTStats (this : t) : M value :=
  try
    (response <- makeRequest this "GET" "/nfts/stats" VUndefined ;;
     lift (get response "data"))
  catch (fun error =>
    if instanceof_SolanaError error then throw error
    else throw (SolanaError "Failed to get NFT stats"
                            "NFT_STATS_ERROR" (Cause error))).

End SolanaNFTManager.

(** ** SolanaDeFiManager.ts *)

Module SolanaDeFiManager.

Record t : Type := new { config : SolanaConfig }.

Definition makeRequest (this : t) (method endpoint : string) (data : value)
  : M value :=
  let url := template (fun s => s) (baseUrl (config this)) ++ endpoint in
  signal <- lift (AbortSignal_timeout (timeout (config this))) ;;
  let options :=
    mkRequest url method
      [("Content-Type", "application/json");
       ("Authorization", "Bearer " ++ apiKey (config this));
       ("X-API-Version", "1.0");
       ("X-Platform", "solana")]
      (if truthy data then Some data else None)
      signal in
  try
    (response <- fetch options ;;
     if negb (ok response)
     then throw (SolanaNetworkError
                   ("HTTP " ++ bigint_toString (status response) ++ ": "
                    ++ statusText response) NoDetails)
     else lift (json response))
  catch (fun error =>
    if instanceof_SolanaError error then throw error
    else throw (SolanaNetworkError "API request failed" (Cause error))).

Definition getPositions (this : t) (owner : value) : M value :=
  try
    (if falsy owner
     then throw (SolanaValidationError "Owner address is required" NoDetails)
     else if negb (validatePublicKey owner)
     then throw (SolanaValidationError "Invalid owner address" NoDetails)
     else
       segment <- lift (to_string owner) ;;
       response <- makeRequest this "GET"
         ("/defi/positions/" ++ segment) VUndefined ;;
       lift (get response "data"))
  catch (fun error =>
    if instanceof_SolanaError error then throw error
    else throw (SolanaError "Failed to get DeFi positions"
                            "DEFI_POSITIONS_ERROR" (Cause error))).

Definition getLiquidityPools (this : t) : M value :=
  try
    (response <- makeRequest this "GET" "/defi/liquidity-pools" VUndefined ;;
     lift (get response "data"))
  catch (fun error =>
    if instanceof_SolanaError error then throw error
    else throw (SolanaError "Failed to get liquidity pools"
                            "LIQUIDITY_POOLS_ERROR" (Cause error))).

Definition addLiquidity (this : t) (poolAddress amountA amountB owner : value)
  : M value :=
  try
    (if falsy poolAddress || falsy amountA || falsy amountB || falsy owner
     then throw (SolanaValidationError
                   "Pool address, amounts, and owner are required" NoDetails)
     else if negb (validatePublicKey poolAddress) ||
             negb (validatePublicKey owner)
     then throw (SolanaValidationError "Invalid address format" NoDetails)
     else
       segment <- lift (to_string poolAddress) ;;
       response <- makeRequest this "POST"
         ("/defi/liquidity-pools/" ++ segment ++ "/add")
         (object_literal
            [("amountA", amountA);
             ("amountB", amountB);
             ("owner", owner);
             ("platform", VString "solana")]) ;;
       data <- lift (get response "data") ;;
       lift (get data "transactionSignature"))
  catch (fun error =>
    if instanceof_SolanaError error then throw error
    else throw (SolanaError "Failed to add liquidity"
                            "ADD_LIQUIDITY_ERROR" (Cause error))).

Definition removeLiquidity (this : t) (poolAddress lpTokens owner : value)
  : M value :=
  try
    (if falsy poolAddress || falsy lpTokens || falsy owner
     then throw (SolanaValidationError
                   "Pool address, LP tokens, and owner are required" NoDetails)
     else if negb (validatePublicKey poolAddress) ||
             negb (validatePublicKey owner)
     then throw (SolanaValidationError "Invalid address format" NoDetails)
     else
       segment <- lift (to_string poolAddress) ;;
       response <- makeRequest this "POST"
         ("/defi/liquidity-pools/" ++ segment ++ "/remove")
         (object_literal
            [("lpTokens", lpTokens);
             ("owner", owner);
             ("platform", VString "solana")]) ;;
       data <- lift (get response "data") ;;
       lift (get data "transactionSignature"))
  catch (fun error =>
    if instanceof_SolanaError error then throw error
    else throw (SolanaError "Failed to remove liquidity"
                            "REMOVE_LIQUIDITY_ERROR" (Cause error))).

Definition swapTokens (this : t)
    (inputMint outputMint amountIn minAmountOut owner : value) : M value :=
  try
    (if falsy inputMint ||
        falsy outputMint ||
        falsy amountIn ||
        falsy minAmountOut ||
        falsy owner
     then throw (SolanaValidationError
                   "All swap parameters are required" NoDetails)
     else if negb (validatePublicKey inputMint) ||
             negb (validatePublicKey outputMint) ||
             negb (validatePublicKey owner)
     then throw (SolanaValidationError "Invalid address format" NoDetails)
     else
       response <- makeRequest this "POST" "/defi/swap"
         (object_literal
            [("inputMint", inputMint);
             ("outputMint", outputMint);
             ("amountIn", amountIn);
             ("minAmountOut", minAmountOut);
             ("owner", owner);
             ("platform", VString "solana")]) ;;
       data <- lift (get response "data") ;;
       lift (get data "transactionSignature"))
  catch (fun error =>
    if instanceof_SolanaError error then throw error
    else throw (SolanaError "Failed to swap tokens"
                            "SWAP_ERROR" (Cause error))).

Definition getLendingPools (this : t) : M value :=
  try
    (response <- makeRequest this "GET" "/defi/lending-pools" VUndefined ;;
     lift (get response "data"))
  catch (fun error =>
    if instanceof_SolanaError error then throw error
    else throw (SolanaError "Failed to get lending pools"
                            "LENDING_POOLS_ERROR" (Cause error))).

Definition supplyLiquidity (this : t) (poolAddress amount owner : value)
  : M value :=
  try
    (if falsy poolAddress || falsy amount || falsy owner
     then throw (SolanaValidationError
                   "Pool address, amount, and owner are required" NoDetails)
     else if negb (validatePublicKey poolAddress) ||
             negb (validatePublicKey owner)
     then throw (SolanaValidationError "Invalid address format" NoDetails)
     else
       segment <- lift (to_string poolAddress) ;;
       response <- makeRequest this "POST"
         ("/defi/lending-pools/" ++ segment ++ "/supply")
         (object_literal
            [("amount", amount);
             ("owner", owner);
             ("platform", VString "solana")]) ;;
       data <- lift (get response "data") ;;
       lift (get data "transactionSignature"))
  catch (fun error =>
    if instanceof_SolanaError error then throw error
    else throw (SolanaError "Failed to supply liquidity"
                            "SUPPLY_LIQUIDITY_ERROR" (Cause error))).

Definition borrowLiquidity (this : t) (poolAddress amount owner : value)
  : M value :=
  try
    (if falsy poolAddress || falsy amount || falsy owner
     then throw (SolanaValidationError
                   "Pool address, amount, and owner are required" NoDetails)
     else if negb (validatePublicKey poolAddress) ||
             negb (validatePublicKey owner)
     then throw (SolanaValidationError "Invalid address format" NoDetails)
     else
       segment <- lift (to_string poolAddress) ;;
       response <- makeRequest this "POST"
         ("/defi/lending-pools/" ++ segment ++ "/borrow")
         (object_literal
            [("amount", amount);
             ("owner", owner);
             ("platform", VString "solana")]) ;;
       data <- lift (get response "data") ;;
       lift (get data "transactionSignature"))
  catch (fun error =>
    if instanceof_SolanaError error then throw error
    else throw (SolanaError "Failed to borrow liquidity"
                            "BORROW_LIQUIDITY_ERROR" (Cause error))).

Definition repayLiquidity (this : t) (poolAddress amount owner : value)
  : M value :=
  try
    (if falsy poolAddress || falsy amount || falsy owner
     then throw (SolanaValidationError
                   "Pool address, amount, and owner are required" NoDetails)
     else if negb (validatePublicKey poolAddress) ||
             negb (validatePublicKey owner)
     then throw (SolanaValidationError "Invalid address format" NoDetails)
     else
       segment <- lift (to_string poolAddress) ;;
       response <- makeRequest this "POST"
         ("/defi/lending-pools/" ++ segment ++ "/repay")
         (object_literal
            [("amount", amount);
             ("owner", owner);
             ("platform", VString "solana")]) ;;
       data <- lift (get response "data") ;;
       lift (get data "transactionSignature"))
  catch (fun error =>
    if instanceof_SolanaError error then throw error
    else throw (SolanaError "Failed to repay liquidity"
                            "REPAY_LIQUIDITY_ERROR" (Cause error))).

Definition getStakingPools (this : t) : M value :=
  try
    (response <- makeRequest this "GET" "/defi/staking-pools" VUndefined ;;
     lift (get response "data"))
  catch (fun error =>
    if instanceof_SolanaError error then throw error
    else throw (SolanaError "Failed to get staking pools"
                            "STAKING_POOLS_ERROR" (Cause error))).

Definition stakeTokens (this : t) (poolAddress amount owner : value)
  : M value :=
  try
    (if falsy poolAddress || falsy amount || falsy owner
     then throw (SolanaValidationError
                   "Pool address, amount, and owner are required" NoDetails)
     else if negb (validatePublicKey poolAddress) ||
             negb (validatePublicKey owner)
     then throw (SolanaValidationError "Invalid address format" NoDetails)
     else
       segment <- lift (to_string poolAddress) ;;
       response <- makeRequest this "POST"
         ("/defi/staking-pools/" ++ segment ++ "/stake")
         (object_literal
            [("amount", amount);
             ("owner", owner);
             ("platform", VString "solana")]) ;;
       data <- lift (get response "data") ;;
       lift (get data "transactionSignature"))
  catch (fun error =>
    if instanceof_SolanaError error then throw error
    else throw (SolanaError "Failed to stake tokens"
                            "STAKE_ERROR" (Cause error))).

Definition unstakeTokens (this : t) (poolAddress amount owner : value)
  : M value :=
  try
    (if falsy poolAddress || falsy amount || falsy owner
     then throw (SolanaValidationError
                   "Pool address, amount, and owner are required" NoDetails)
     else if negb (validatePublicKey poolAddress) ||
             negb (validatePublicKey owner)
     then throw (SolanaValidationError "Invalid address format" NoDetails)
     else
       segment <- lift (to_string poolAddress) ;;
       response <- makeRequest this "POST"
         ("/defi/staking-pools/" ++ segment ++ "/unstake")
         (object_literal
            [("amount", amount);
             ("owner", owner);
             ("platform", VString "solana")]) ;;
       data <- lift (get response "data") ;;
       lift (get data "transactionSignature"))
  catch (fun error =>
    if instanceof_SolanaError error then throw error
    else throw (SolanaError "Failed to unstake tokens"
                            "UNSTAKE_ERROR" (Cause error))).

Definition claimRewards (this : t) (poolAddress owner : value) : M value :=
  try
    (if falsy poolAddress || falsy owner
     then throw (SolanaValidationError
                   "Pool address and owner are required" NoDetails)
     else if negb (validatePublicKey poolAddress) ||
             negb (validatePublicKey owner)
     then throw (SolanaValidationError "Invalid address format" NoDetails)
     else
       segment <- lift (to_string poolAddress) ;;
       response <- makeRequest this "POST"
         ("/defi/staking-pools/" ++ segment ++ "/claim")
         (object_literal
            [("owner", owner);
             ("platform", VString "solana")]) ;;
       data <- lift (get response "data") ;;
       lift (get data "transactionSignature"))
  catch (fun error =>
    if instanceof_SolanaError error then throw error
    else throw (SolanaError "Failed to claim rewards"
                            "CLAIM_REWARDS_ERROR" (Cause error))).

Definition getYieldFarms (this : t) : M value :=
  try
    (response <- makeRequest this "GET" "/defi/yield-farms" VUndefined ;;
     lift (get response "data"))
  catch (fun error =>
    if instanceof_SolanaError error then throw error
    else throw (SolanaError "Failed to get yield farms"
                            "YIELD_FARMS_ERROR" (Cause error))).

Definition farmYield (this : t) (farmAddress amount owner : value) : M value :=
  try
    (if falsy farmAddress || falsy amount || falsy owner
     then throw (SolanaValidationError
                   "Farm address, amount, and owner are required" NoDetails)
     else if negb (validatePublicKey farmAddress) ||
             negb (validatePublicKey owner)
     then throw (SolanaValidationError "Invalid address format" NoDetails)
     else
       segment <- lift (to_string farmAddress) ;;
       response <- makeRequest this "POST"
         ("/defi/yield-farms/" ++ segment ++ "/farm")
         (object_literal
            [("amount", amount);
             ("owner", owner);
             ("platform", VString "solana")]) ;;
       data <- lift (get response "data") ;;
       lift (get data "transactionSignature"))
  catch (fun error =>
    if instanceof_SolanaError error then throw error
    else throw (SolanaError "Failed to farm yield"
                            "FARM_YIELD_ERROR" (Cause error))).

Definition harvestYield (this : t) (farmAddress owner : value) : M value :=
  try
    (if falsy farmAddress || falsy owner
     then throw (SolanaValidationError
                   "Farm address and owner are required" NoDetails)
     else if negb (validatePublicKey farmAddress) ||
             negb (validatePublicKey owner)
     then throw (SolanaValidationError "Invalid address format" NoDetails)
     else
       segment <- lift (to_string farmAddress) ;;
       response <- makeRequest this "POST"
         ("/defi/yield-farms/" ++ segment ++ "/harvest")
         (object_literal
            [("owner", owner);
             ("platform", VString "solana")]) ;;
       data <- lift (get response "data") ;;
       lift (get data "transactionSignature"))
  catch (fun error =>
    if instanceof_SolanaError error then throw error
    else throw (SolanaError "Failed to harvest yield"
                            "HARVEST_YIELD_ERROR" (Cause error))).

Definition getDeFiStats (this : t) : M value :=
  try
    (response <- makeRequest this "GET" "/defi/stats" VUndefined ;;
     lift (get response "data"))
  catch (fun error =>
    if instanceof_SolanaError error then throw error
    else throw (SolanaError "Failed to get DeFi stats"
                            "DEFI_STATS_ERROR" (Cause error))).

End SolanaDeFiManager.

(** ** LicenseChainSolana.ts *)

(** [v.map(f)]: a TypeError unless [v] is an array (typed arrays do not occur
    in JSON); the first callback that throws ends the loop. *)
Fixpoint map_result {A B : Type} (f : A -> result B) (l : list A)
  : result (list B) :=
  match l with
  | [] => Ok []
  | x :: r =>
      match f x with
      | Throw e => Throw e
      | Ok y =>
          match map_result f r with
          | Throw e => Throw e
          | Ok ys => Ok (y :: ys)
          end
      end
  end.

Definition Array_map (v : value) (f : value -> result value) : result value :=
  match v with
  | VArray xs =>
      match map_result f xs with
      | Ok ys => Ok (VArray ys)
      | Throw e => Throw e
      end
  | _ => Throw (NativeError "TypeError")
  end.

(** [v.k1.k2...kn] *)
Fixpoint get_path (v : value) (path : list string) : result value :=
  match path with
  | [] => Ok v
  | k :: rest =>
      match get v k with
      | Ok x => get_path x rest
      | Throw e => Throw e
      end
  end.

(** An object literal whose property values may throw while they are
    evaluated, in order. *)
Fixpoint build_object (entries : list (string * result value))
  (acc : list (string * value)) : result value :=
  match entries with
  | [] => Ok (object_literal acc)
  | (k, Ok v) :: rest => build_object rest (acc ++ [(k, v)])
  | (_, Throw e) :: _ => Throw e
  end.

(** [v[0]] *)
Definition get_first (v : value) : result value :=
  match v with
  | VUndefined | VNull => Throw (NativeError "TypeError")
  | VArray (x :: _) => Ok x
  | VString (String c _) => Ok (VString (String c ""))
  | VBytes (b :: _) => Ok (VNumber b)
  | VObject fields =>
      Ok (match lookup "0" fields with Some x => x | None => VUndefined end)
  | _ => Ok VUndefined
  end.

(** [a || b] on values *)
Definition or_else (a b : value) : value := if truthy a then a else b.

Fixpoint starts_with (prefix l : list ascii) : bool :=
  match prefix, l with
  | [], _ => true
  | p :: ps, c :: cs => Ascii.eqb p c && starts_with ps cs
  | _ :: _, [] => false
  end.

(** [s.replace(pattern, replacement)] for a string pattern: the first
    occurrence only.  The replacements used contain no [$]. *)
Fixpoint replace_first (pattern replacement l : list ascii) : list ascii :=
  if starts_with pattern l
  then replacement ++ skipn (List.length pattern) l
  else
    match l with
    | [] => []
    | c :: r => c :: replace_first pattern replacement r
    end.

Definition String_replace (s pattern replacement : string) : string :=
  str (replace_first (chars pattern) (chars replacement) (chars s)).

Module LicenseChainSolana.

Record t : Type := mk {
  config : SolanaConfig;
  licenseManager : SolanaLicenseManager.t;
  nftManager : SolanaNFTManager.t;
  defiManager : SolanaDeFiManager.t
}.

(** The defaults, overridden by the properties of [config]. *)
Definition merged (config : SolanaConfig) : SolanaConfig :=
  mkConfig (apiKey config)
    (or_default "https://api.licensechain.com" (baseUrl config))
    (or_default "https://api.mainnet-beta.solana.com" (rpcUrl config))
    (or_default 30000 (timeout config))
    (or_default 3 (retries config)).

Definition new (config : SolanaConfig) : t :=
  let config := merged config in
  mk config
     (SolanaLicenseManager.new config)
     (SolanaNFTManager.new config)
     (SolanaDeFiManager.new config).

Definition makeRPCRequest (this : t) (method : string) (params : list value)
  : M value :=
  let url := template (fun s => s) (rpcUrl (config this)) in
  signal <- lift (AbortSignal_timeout (timeout (config this))) ;;
  let options :=
    mkRequest url "POST"
      [("Content-Type", "application/json");
       ("Authorization", "Bearer " ++ apiKey (config this));
       ("X-API-Version", "1.0")]
      (Some (object_literal
               [("jsonrpc", VString "2.0"); ("id", VNumber 1);
                ("method", VString method); ("params", VArray params)]))
      signal in
  try
    (response <- fetch options ;;
     if negb (ok response)
     then throw (SolanaNetworkError
                   ("HTTP " ++ bigint_toString (status response) ++ ": "
                    ++ statusText response) NoDetails)
     else
       data <- lift (json response) ;;
       error <- lift (get data "error") ;;
       if truthy error
       then
         message <- lift (get error "message") ;;
         rpcCode <- lift (get error "code") ;;
         text <- lift (error_message message) ;;
         throw (SolanaRPCError text rpcCode (Payload error))
       else ret data)
  catch (fun error =>
    if instanceof_SolanaError error then throw error
    else throw (SolanaNetworkError "RPC request failed" (Cause error))).

(** *** Account management *)

Definition getAccount (this : t) (publicKey : value) : M value :=
  try
    (validatedKey <- lift (formatPublicKey publicKey) ;;
     response <- makeRPCRequest this "getAccountInfo" [validatedKey] ;;
     value <- lift (get response "value") ;;
     if falsy value
     then throw (SolanaAccountError "Account not found" validatedKey
                                    NoDetails)
     else
       lift (build_object
               [("publicKey", Ok validatedKey);
                ("balance", get value "lamports");
                ("isExecutable", get value "executable");
                ("owner", get value "owner");
                ("lamports", get value "lamports")] []))
  catch (fun error =>
    if instanceof_SolanaError error then throw error
    else throw (SolanaAccountError "Failed to get account" publicKey
                                   (Cause error))).

Definition getBalance (this : t) (publicKey : value) : M value :=
  try
    (validatedKey <- lift (formatPublicKey publicKey) ;;
     response <- makeRPCRequest this "getBalance" [validatedKey] ;;
     lift (get response "value"))
  catch (fun error =>
    throw (SolanaAccountError "Failed to get balance" publicKey
                              (Cause error))).

Definition getTokenAccounts (this : t) (owner mint : value) : M value :=
  try
    (validatedOwner <- lift (formatPublicKey owner) ;;
     filters <-
       (if truthy mint
        then
          validatedMint <- lift (formatPublicKey mint) ;;
          ret (VArray [object_literal [("mint", validatedMint)]])
        else ret VUndefined) ;;
     response <- makeRPCRequest this "getTokenAccountsByOwner"
       [validatedOwner;
        object_literal
          [("programId",
            VString "TokenkegQfeZyiNwAJbNbGKPFXCWuBvf9Ss623VQ5DA")];
        filters] ;;
     value <- lift (get response "value") ;;
     lift (Array_map value (fun account =>
       build_object
         [("address", get account "pubkey");
          ("mint",
           get_path account ["account"; "data"; "parsed"; "info"; "mint"]);
          ("owner",
           get_path account ["account"; "data"; "parsed"; "info"; "owner"]);
          ("amount",
           get_path account
             ["account"; "data"; "parsed"; "info"; "tokenAmount"; "amount"]);
          ("decimals",
           get_path account
             ["account"; "data"; "parsed"; "info"; "tokenAmount";
              "decimals"]);
          ("state",
           get_path account ["account"; "data"; "parsed"; "info"; "state"])]
         [])))
  catch (fun error =>
    throw (SolanaAccountError "Failed to get token accounts" owner
                              (Cause error))).

(** *** Transaction management *)

Definition sendTransaction (this : t) (transaction : value) : M value :=
  try
    (response <- makeRPCRequest this "sendTransaction" [transaction] ;;
     lift (build_object
             [("signature", get response "value");
              ("slot", Ok (VNumber 0));
              ("blockTime", Ok (VNumber 0));
              ("confirmationStatus", Ok (VString "processed"))] []))
  catch (fun error =>
    throw (SolanaTransactionError "Failed to send transaction" VUndefined
                                  (Cause error))).

(** [commitment] defaults to ['confirmed']. *)
Definition confirmTransaction (this : t) (signature commitment : value)
  : M value :=
  let commitment :=
    match commitment with
    | VUndefined => VString "confirmed"
    | _ => commitment
    end in
  try
    (response <- makeRPCRequest this "getSignatureStatuses"
       [VArray [signature];
        object_literal [("searchTransactionHistory", VBool true)]] ;;
     value <- lift (get response "value") ;;
     status <- lift (get_first value) ;;
     if falsy status
     then throw (SolanaTransactionError "Transaction not found" signature
                                        NoDetails)
     else
       slot <- lift (get status "slot") ;;
       blockTime <- lift (get status "blockTime") ;;
       err <- lift (get status "err") ;;
       ret (object_literal
              [("signature", signature);
               ("slot", or_else slot (VNumber 0));
               ("blockTime", or_else blockTime (VNumber 0));
               ("confirmationStatus", commitment);
               ("err", err)]))
  catch (fun error =>
    throw (SolanaTransactionError "Failed to confirm transaction" signature
                                  (Cause error))).

(** [v?.find(msg => msg.startsWith(prefix))?.replace(prefix, '')] *)
Definition find_log_message (logMessages : value) (prefix : string)
  : result value :=
  match logMessages with
  | VUndefined | VNull => Ok VUndefined
  | VArray msgs =>
      (fix find (l : list value) : result value :=
         match l with
         | [] => Ok VUndefined
         | VString msg :: r =>
             if starts_with (chars prefix) (chars msg)
             then Ok (VString (String_replace msg prefix ""))
             else find r
         | _ :: _ => Throw (NativeError "TypeError")
         end) msgs
  | _ => Throw (NativeError "TypeError")
  end.

Definition getTransaction (this : t) (signature : value) : M value :=
  try
    (response <- makeRPCRequest this "getTransaction" [signature] ;;
     value <- lift (get response "value") ;;
     if falsy value
     then throw (SolanaTransactionError "Transaction not found" signature
                                        NoDetails)
     else
       meta <- lift (get value "meta") ;;
       lift (build_object
               [("signature", Ok signature);
                ("slot", get value "slot");
                ("blockTime", get value "blockTime");
                ("confirmationStatus", Ok (VString "confirmed"));
                ("err",
                 match meta with
                 | VUndefined | VNull => Ok VUndefined
                 | _ => get meta "err"
                 end);
                ("memo",
                 match meta with
                 | VUndefined | VNull => Ok VUndefined
                 | _ =>
                     match get meta "logMessages" with
                     | Ok logMessages =>
                         find_log_message logMessages "Program log: "
                     | Throw e => Throw e
                     end
                 end)] []))
  catch (fun error =>
    throw (SolanaTransactionError "Failed to get transaction" signature
                                  (Cause error))).

(** *** Program management *)

Definition getProgram (this : t) (programId : value) : M value :=
  try
    (validatedId <- lift (formatPublicKey programId) ;;
     response <- makeRPCRequest this "getAccountInfo" [validatedId] ;;
     value <- lift (get response "value") ;;
     if falsy value
     then throw (SolanaAccountError "Program not found" validatedId
                                    NoDetails)
     else
       lift (build_object
               [("programId", Ok validatedId);
                ("data", get value "data");
                ("owner", get value "owner");
                ("executable", get value "executable");
                ("rentEpoch", get value "rentEpoch")] []))
  catch (fun error =>
    throw (SolanaAccountError "Failed to get program" programId
                              (Cause error))).

(** *** Block management *)

Definition getBlock (this : t) (slot : value) : M value :=
  try
    (response <- makeRPCRequest this "getBlock" [slot] ;;
     value <- lift (get response "value") ;;
     if falsy value
     then throw (SolanaError "Block not found" "BLOCK_NOT_FOUND" NoDetails)
     else
       transactions <- lift (get value "transactions") ;;
       rewards <- lift (get value "rewards") ;;
       lift (build_object
               [("blockhash", get value "blockhash");
                ("previousBlockhash", get value "previousBlockhash");
                ("parentSlot", get value "parentSlot");
                ("transactions", Ok (or_else transactions (VArray [])));
                ("rewards", Ok (or_else rewards (VArray [])));
                ("blockTime", get value "blockTime");
                ("blockHeight", get value "blockHeight")] []))
  catch (fun error =>
    throw (SolanaError "Failed to get block" "BLOCK_ERROR" (Cause error))).

Definition getLatestBlockhash (this : t) : M value :=
  try
    (response <- makeRPCRequest this "getLatestBlockhash" [] ;;
     lift (get_path response ["value"; "blockhash"]))
  catch (fun error =>
    throw (SolanaError "Failed to get latest blockhash" "BLOCKHASH_ERROR"
                       (Cause error))).

(** *** Cluster information *)

Definition getClusterInfo (this : t) : M value :=
  try
    (response <- makeRPCRequest this "getClusterNodes" [] ;;
     match rpcUrl (config this) with
     | Defined url =>
         ret (object_literal
                [("name", VString "Mainnet Beta");
                 ("rpcUrl", VString url);
                 ("wsUrl", VString (String_replace url "https://" "wss://"));
                 ("explorerUrl", VString "https://explorer.solana.com");
                 ("commitment", VString "confirmed")])
     | _ => throw (NativeError "TypeError")
     end)
  catch (fun error =>
    throw (SolanaError "Failed to get cluster info" "CLUSTER_ERROR"
                       (Cause error))).

(** [a.concat(b)] followed by [.map]: only an array [a] survives both. *)
Definition Array_concat (a b : value) : result value :=
  match a with
  | VArray xs =>
      Ok (VArray (xs ++ match b with VArray ys => ys | _ => [b] end))
  | _ => Throw (NativeError "TypeError")
  end.

Definition getValidators (this : t) : M value :=
  try
    (response <- makeRPCRequest this "getVoteAccounts" [] ;;
     current <- lift (get_path response ["value"; "current"]) ;;
     delinquent <- lift (get_path response ["value"; "delinquent"]) ;;
     all <- lift (Array_concat current delinquent) ;;
     lift (Array_map all (fun validator =>
       build_object
         [("identity", get validator "nodePubkey");
          ("voteAccount", get validator "votePubkey");
          ("commission", get validator "commission");
          ("lastVote", get validator "lastVote");
          ("rootSlot", get validator "rootSlot");
          ("credits", get validator "credits");
          ("epochCredits", get validator "epochCredits");
          ("activatedStake", get validator "activatedStake");
          ("version", get validator "version");
          ("delinquent", get validator "delinquent")] [])))
  catch (fun error =>
    throw (SolanaError "Failed to get validators" "VALIDATORS_ERROR"
                       (Cause error))).

(** *** Stake management *)

Definition getStakeAccounts (this : t) (owner : value) : M value :=
  try
    (validatedOwner <- lift (formatPublicKey owner) ;;
     response <- makeRPCRequest this "getProgramAccounts"
       [VString "Stake11111111111111111111111111111111111112";
        object_literal
          [("filters",
            VArray
              [object_literal
                 [("memcmp",
                   object_literal
                     [("offset", VNumber 124);
                      ("bytes", validatedOwner)])]])]] ;;
     value <- lift (get response "value") ;;
     lift (Array_map value (fun account =>
       build_object
         [("address", get account "pubkey");
          ("stake", get_path account ["account"; "lamports"]);
          ("activationEpoch",
           get_path account
             ["account"; "data"; "parsed"; "info"; "stake"; "delegation";
              "activationEpoch"]);
          ("deactivationEpoch",
           get_path account
             ["account"; "data"; "parsed"; "info"; "stake"; "delegation";
              "deactivationEpoch"]);
          ("voter",
           get_path account
             ["account"; "data"; "parsed"; "info"; "stake"; "delegation";
              "voter"]);
          ("withdrawer",
           get_path account
             ["account"; "data"; "parsed"; "info"; "withdrawer"]);
          ("staker",
           get_path account
             ["account"; "data"; "parsed"; "info"; "stake"; "delegation";
              "stake"]);
          ("rentExemptReserve",
           get_path account
             ["account"; "data"; "parsed"; "info"; "rentExemptReserve"])]
         [])))
  catch (fun error =>
    throw (SolanaError "Failed to get stake accounts" "STAKE_ERROR"
                       (Cause error))).

(** *** License management (delegated to the license manager) *)

Definition createLicense (this : t) (userId productId metadata : value)
  : M value :=
  SolanaLicenseManager.createLicense (licenseManager this)
    userId productId metadata.

Definition validateLicense (this : t) (licenseKey : value) : M value :=
  SolanaLicenseManager.validateLicense (licenseManager this) licenseKey.

Definition getLicense (this : t) (licenseId : value) : M value :=
  SolanaLicenseManager.getLicense (licenseManager this) licenseId.

Definition updateLicense (this : t) (licenseId updates : value) : M value :=
  SolanaLicenseManager.updateLicense (licenseManager this) licenseId updates.

Definition revokeLicense (this : t) (licenseId : value) : M value :=
  SolanaLicenseManager.revokeLicense (licenseManager this) licenseId.

(** *** NFT management (delegated to the NFT manager) *)

Definition createNFT (this : t) (metadata owner : value) : M value :=
  SolanaNFTManager.createNFT (nftManager this) metadata owner.

Definition getNFT (this : t) (mint : value) : M value :=
  SolanaNFTManager.getNFT (nftManager this) mint.

Definition transferNFT (this : t) (mint from to : value) : M value :=
  SolanaNFTManager.transferNFT (nftManager this) mint from to.

(** *** DeFi management (delegated to the DeFi manager) *)

Definition getDeFiPositions (this : t) (owner : value) : M value :=
  SolanaDeFiManager.getPositions (defiManager this) owner.

(** Three arguments are passed on to a method of four parameters: the
    fourth, [owner], is [undefined] there. *)
Definition addLiquidity (this : t) (poolAddress amount owner : value)
  : M value :=
  SolanaDeFiManager.addLiquidity (defiManager this)
    poolAddress amount owner VUndefined.

Definition removeLiquidity (this : t) (poolAddress amount owner : value)
  : M value :=
  SolanaDeFiManager.removeLiquidity (defiManager this)
    poolAddress amount owner.

Definition disconnect (this : t) : M value := ret VUndefined.

End LicenseChainSolana.

(** ** utils.ts: the remaining helpers *)

(** Digits of a non-negative integer in a radix up to 36, as
    [Number.prototype.toString(radix)] writes them. *)
Fixpoint radix_digits_fuel (radix : Z) (fuel : nat) (n : Z) (acc : list ascii)
  : list ascii :=
  match fuel with
  | O => acc
  | S f =>
      let acc' := digit_char (n mod radix) :: acc in
      if n <? radix then acc' else radix_digits_fuel radix f (n / radix) acc'
  end.

Definition radix_digits (radix n : Z) : list ascii :=
  radix_digits_fuel radix (S (Z.to_nat (Z.log2 n))) n [].

(** [n.toString(16)] for an integer [n]. *)
Definition Number_toString16 (n : Z) : string :=
  if n <? 0 then str ("-"%char :: radix_digits 16 (- n))
  else str (radix_digits 16 n).

(** [ToInt32]: the value modulo 2^32, as a signed 32-bit integer. *)
Definition ToInt32 (z : Z) : Z := (z + 2 ^ 31) mod 2 ^ 32 - 2 ^ 31.

(** One round of the loop of [hashMessage]: [hash << 5] is a 32-bit shift,
    the subtraction and the addition are exact, and [hash & hash] brings
    the sum back to 32 bits. *)
Definition hash_round (hash : Z) (c : ascii) : Z :=
  let char := code c in
  let hash := (ToInt32 (Z.shiftl (ToInt32 hash) 5) - hash) + char in
  Z.land (ToInt32 hash) (ToInt32 hash).

Definition hashMessage (message : string) : string :=
  let hash := fold_left hash_round (chars message) 0 in
  Number_toString16 (Z.abs hash).

(** The double quote, code unit 34. *)
Definition double_quote : ascii := ascii_of_nat 34.

(** The callback of the [replace] in [sanitizeInput]: the five characters
    of the class (less-than, greater-than, double quote, apostrophe and
    ampersand) become their entities. *)
Definition escape_char (c : ascii) : list ascii :=
  if Ascii.eqb c "<" then chars "&lt;"
  else if Ascii.eqb c ">" then chars "&gt;"
  else if Ascii.eqb c double_quote then chars "&quot;"
  else if Ascii.eqb c "'" then chars "&#x27;"
  else if Ascii.eqb c "&" then chars "&amp;"
  else [c].

Definition escape (s : string) : string :=
  str (flat_map escape_char (chars s)).

(** [sanitized[key] = v]: the key [__proto__] reaches the setter of
    [Object.prototype] and makes no property of the object. *)
Definition assign (sanitized : list (string * value)) (key : string)
    (v : value) : list (string * value) :=
  if (key =? "__proto__")%string then sanitized else set_prop sanitized key v.

(** [sanitizeInput(input)].  The fields of an object are listed in the
    order of [Object.entries]; a typed array is an object that is no array,
    so it comes back as a plain object of its elements. *)
Fixpoint sanitizeInput (input : value) : value :=
  match input with
  | VString s => VString (escape s)
  | VArray xs => VArray (map sanitizeInput xs)
  | VObject fields =>
      VObject
        (fold_left (fun sanitized kv => assign sanitized (fst kv) (snd kv))
                   (map (fun kv => (fst kv, sanitizeInput (snd kv))) fields)
                   [])
  | VBytes b =>
      VObject
        (fold_left (fun sanitized kv => assign sanitized (fst kv) (snd kv))
                   (indexed VNumber b) [])
  | _ => input
  end.

(** [String.prototype.slice(b)]: a negative start counts from the end. *)
Definition slice_from (s : string) (b : Z) : string :=
  let len := strlen s in
  let start := if b <? 0 then Z.max (len + b) 0 else Z.min b len in
  str (skipn (Z.to_nat start) (chars s)).

(** [shortenAddress(address, chars = 4)] *)
Definition shortenAddress (address : string) (chars : Z) : string :=
  if (address =? "")%string || (strlen address <=? chars * 2) then address
  else slice0 address chars ++ "..." ++ slice_from address (- chars).

(** A number that a bigint converts to: finite, or an infinity. *)
Inductive number : Type :=
| Finite (n : Z)
| Infinity (negative : bool).

(** [Number(bigint)]: the nearest double, ties to even; beyond the largest
    double, an infinity. *)
Definition Number_of_BigInt (n : Z) : number :=
  let magnitude := round_binary64 (Z.abs n) in
  if magnitude <? 2 ^ 1024
  then Finite (if n <? 0 then - magnitude else magnitude)
  else Infinity (n <? 0).

(** [formatLamports(lamports)], for an integer number of lamports. *)
Definition formatLamports (lamports : Z) : result string :=
  formatUnits (OfBigInt lamports) 9.

Definition parseLamports (sol : string) : result number :=
  match parseUnits sol 9 with
  | Ok n => Ok (Number_of_BigInt n)
  | Throw e => Throw e
  end.

Definition isValidSolanaAddress (address : value) : bool :=
  validatePublicKey address.

(** * Vocabulary of the specification

    What the statements below compare the code with: the alphabet as the
    specification spells it, hexadecimal decoding, numerals and their
    values, the repeating key, and the data of the scenarios. *)

(** The alphabet: the digits without 0, the capitals without I and O, the
    small letters without l. *)
Definition base58_alphabet : string :=
  "123456789ABCDEFGHJKLMNPQRSTUVWXYZabcdefghijkmnopqrstuvwxyz".

(** Hexadecimal decoding as the specification means it: two digits per
    byte, nothing but digits. *)
Fixpoint hex_decode_chars (l : list ascii) : option (list Z) :=
  match l with
  | [] => Some []
  | [_] => None
  | a :: b :: r =>
      match digit_value 16 a, digit_value 16 b, hex_decode_chars r with
      | Some x, Some y, Some bytes => Some (x * 16 + y :: bytes)
      | _, _, _ => None
      end
  end.

Definition hex_decode (s : string) : option (list Z) :=
  hex_decode_chars (chars s).

(** Linear backoff: the delays [delay * first], [delay * (first + 1)], ... *)
Definition backoff (delay : Z) (first count : nat) : list Z :=
  map (fun n => delay * Z.of_nat n) (seq first count).

(** XOR against the repeating key: [rest] is what is left of the key in the
    current pass, and the key starts over when it is used up.  Without key
    bytes the data stays as it is. *)
Fixpoint xor_repeating (data key rest : list Z) : list Z :=
  match data with
  | [] => []
  | b :: data' =>
      match rest with
      | k :: rest' => Z.lxor b k :: xor_repeating data' key rest'
      | [] =>
          match key with
          | k :: rest' => Z.lxor b k :: xor_repeating data' key rest'
          | [] => b :: xor_repeating data' key []
          end
      end
  end.

Definition is_byte (b : Z) : Prop := 0 <= b < 256.

Definition is_digit (c : ascii) : bool := in_range "0" "9" c.

Definition all_digits (l : list ascii) : Prop :=
  Forall (fun c => is_digit c = true) l.

(** The number a string of digits denotes. *)
Definition dec_from (acc : Z) (l : list ascii) : Z :=
  fold_left (fun a c => a * 10 + (code c - 48)) l acc.

Definition dec_value (l : list ascii) : Z := dec_from 0 l.

(** Canonical numerals: digits, at least one, and no leading zero except
    for zero itself. *)
Definition canonical (l : list ascii) : Prop :=
  all_digits l /\
  (l = ["0"%char] \/ exists c r, l = c :: r /\ c <> "0"%char).

Definition zero_char : ascii -> bool := Ascii.eqb "0".

(** The string a round trip is compared with: the trailing zeros of the
    fraction are trimmed, and the decimal point goes when nothing is left
    of the fraction. *)
Definition normalize_decimal (s : string) : string :=
  match split s "." with
  | integer :: fraction :: _ =>
      let kept := trim_trailing_zeros fraction in
      if (kept =? "")%string then integer else integer ++ "." ++ kept
  | _ => s
  end.

(** The error of the local address check. *)
Definition invalid_key_error : exn :=
  SolanaValidationError "Invalid public key format" NoDetails.

(** The error of the request helpers for a response that is not ok. *)
Definition http_error (answer : response) : exn :=
  SolanaNetworkError
    ("HTTP " ++ bigint_toString (status answer) ++ ": " ++ statusText answer)
    NoDetails.

(** [v.k] where [v] is known to be there. *)
Definition field (v : value) (k : string) : value :=
  match get v k with
  | Ok x => x
  | Throw _ => VUndefined
  end.

Definition account_not_found (key : value) : exn :=
  SolanaAccountError "Account not found" key NoDetails.

(** The account [getAccount] builds from the [value] of a response. *)
Definition account_of (key v : value) : value :=
  object_literal
    [("publicKey", key);
     ("balance", field v "lamports");
     ("isExecutable", field v "executable");
     ("owner", field v "owner");
     ("lamports", field v "lamports")].

(** Data of the scenarios: a valid address, an endpoint that answers every
    request with the same body, and a client with the default settings. *)
Definition token_program : value :=
  VString "TokenkegQfeZyiNwAJbNbGKPFXCWuBvf9Ss623VQ5DA".

Definition mock_rpc (data : value) : world :=
  mkWorld (fun _ _ => Ok (mkResponse true 200 "OK" (Ok data)))
          (fun _ _ => false).

Definition default_sdk : LicenseChainSolana.t :=
  LicenseChainSolana.new (mkConfig "api-key" Absent Absent Absent Absent).

(** The positional notation of a number: one digit below the radix, and
    otherwise the notation of the quotient followed by the last digit. *)
Inductive radix_repr (radix : Z) : Z -> list ascii -> Prop :=
| repr_digit (n : Z) :
    0 <= n < radix -> radix_repr radix n [digit_char n]
| repr_more (n : Z) (ds : list ascii) :
    radix <= n -> radix_repr radix (n / radix) ds ->
    radix_repr radix n (ds ++ [digit_char (n mod radix)]).

(** The polynomial hash with multiplier 31 over the code units. *)
Definition poly31 (l : list ascii) : Z :=
  fold_left (fun a c => a * 31 + code c) l 0.

(** The characters that open or close markup or an attribute value, and
    the characters [sanitizeInput] replaces: those and the ampersand. *)
Definition active (c : ascii) : bool :=
  Ascii.eqb c "<" || Ascii.eqb c ">" || Ascii.eqb c double_quote
  || Ascii.eqb c "'".

Definition special (c : ascii) : bool := active c || Ascii.eqb c "&".

(** Reading the five entities back. *)
Fixpoint unescape (l : list ascii) : list ascii :=
  match l with
  | [] => []
  | c :: r =>
      if Ascii.eqb c "&" then
        match r with
        | "l"%char :: "t"%char :: ";"%char :: r' => "<"%char :: unescape r'
        | "g"%char :: "t"%char :: ";"%char :: r' => ">"%char :: unescape r'
        | "q"%char :: "u"%char :: "o"%char :: "t"%char :: ";"%char :: r' =>
            double_quote :: unescape r'
        | "#"%char :: "x"%char :: "2"%char :: "7"%char :: ";"%char :: r' =>
            "'"%char :: unescape r'
        | "a"%char :: "m"%char :: "p"%char :: ";"%char :: r' =>
            "&"%char :: unescape r'
        | _ => c :: unescape r
        end
      else c :: unescape r
  end.

(** A value in which no string, at any depth of arrays and objects, holds
    an active character. *)
Fixpoint inert (v : value) : bool :=
  match v with
  | VString s => forallb (fun c => negb (active c)) (chars s)
  | VArray xs => forallb inert xs
  | VObject fields => forallb (fun kv => inert (snd kv)) fields
  | _ => true
  end.

(** ** The operations of the managers as data

    One type of calls for each manager, so that a property can be stated
    of all its operations; [required] lists the arguments an operation
    refuses when they count as false, [addresses] those it checks with
    [validatePublicKey], and [accepts] says that every check passes. *)

Inductive license_call : Type :=
| L_createLicense (userId productId metadata : value)
| L_validateLicense (licenseKey : value)
| L_getLicense (licenseId : value)
| L_updateLicense (licenseId updates : value)
| L_revokeLicense (licenseId : value)
| L_getUserLicenses (userId : value)
| L_getProductLicenses (productId : value)
| L_extendLicense (licenseId : value) (days : Z)
| L_suspendLicense (licenseId reason : value)
| L_unsuspendLicense (licenseId : value)
| L_getLicenseStats.

Definition license_op (this : SolanaLicenseManager.t) (c : license_call)
  : M value :=
  match c with
  | L_createLicense userId productId metadata =>
      SolanaLicenseManager.createLicense this userId productId metadata
  | L_validateLicense licenseKey =>
      SolanaLicenseManager.validateLicense this licenseKey
  | L_getLicense licenseId => SolanaLicenseManager.getLicense this licenseId
  | L_updateLicense licenseId updates =>
      SolanaLicenseManager.updateLicense this licenseId updates
  | L_revokeLicense licenseId =>
      SolanaLicenseManager.revokeLicense this licenseId
  | L_getUserLicenses userId =>
      SolanaLicenseManager.getUserLicenses this userId
  | L_getProductLicenses productId =>
      SolanaLicenseManager.getProductLicenses this productId
  | L_extendLicense licenseId days =>
      SolanaLicenseManager.extendLicense this licenseId days
  | L_suspendLicense licenseId reason =>
      SolanaLicenseManager.suspendLicense this licenseId reason
  | L_unsuspendLicense licenseId =>
      SolanaLicenseManager.unsuspendLicense this licenseId
  | L_getLicenseStats => SolanaLicenseManager.getLicenseStats this
  end.

Definition license_required (c : license_call) : list value :=
  match c with
  | L_createLicense userId productId _ => [userId; productId]
  | L_validateLicense licenseKey => [licenseKey]
  | L_getLicense licenseId => [licenseId]
  | L_updateLicense licenseId _ => [licenseId]
  | L_revokeLicense licenseId => [licenseId]
  | L_getUserLicenses userId => [userId]
  | L_getProductLicenses productId => [productId]
  | L_extendLicense licenseId _ => [licenseId]
  | L_suspendLicense licenseId _ => [licenseId]
  | L_unsuspendLicense licenseId => [licenseId]
  | L_getLicenseStats => []
  end.

Definition license_accepts (c : license_call) : bool :=
  forallb truthy (license_required c)
  && match c with
     | L_extendLicense _ days => negb (days <=? 0)
     | _ => true
     end.

Inductive nft_call : Type :=
| N_createNFT (metadata owner : value)
| N_getNFT (mint : value)
| N_transferNFT (mint from to : value)
| N_getOwnerNFTs (owner : value)
| N_getCollectionNFTs (collection : value)
| N_updateNFTMetadata (mint metadata : value)
| N_burnNFT (mint owner : value)
| N_createCollection (collection creator : value)
| N_getCollection (collectionId : value)
| N_listNFT (mint price seller marketplace : value)
| N_unlistNFT (mint seller : value)
| N_buyNFT (mint buyer price : value)
| N_getMarketplaceListings (filters : value)
| N_getNFTStats.

Definition nft_op (this : SolanaNFTManager.t) (c : nft_call)
  : M value :=
  match c with
  | N_createNFT metadata owner =>
      SolanaNFTManager.createNFT this metadata owner
  | N_getNFT mint => SolanaNFTManager.getNFT this mint
  | N_transferNFT mint from to =>
      SolanaNFTManager.transferNFT this mint from to
  | N_getOwnerNFTs owner => SolanaNFTManager.getOwnerNFTs this owner
  | N_getCollectionNFTs collection =>
      SolanaNFTManager.getCollectionNFTs this collection
  | N_updateNFTMetadata mint metadata =>
      SolanaNFTManager.updateNFTMetadata this mint metadata
  | N_burnNFT mint owner => SolanaNFTManager.burnNFT this mint owner
  | N_createCollection collection creator =>
      SolanaNFTManager.createCollection this collection creator
  | N_getCollection collectionId =>
      SolanaNFTManager.getCollection this collectionId
  | N_listNFT mint price seller marketplace =>
      SolanaNFTManager.listNFT this mint price seller marketplace
  | N_unlistNFT mint seller => SolanaNFTManager.unlistNFT this mint seller
  | N_buyNFT mint buyer price => SolanaNFTManager.buyNFT this mint buyer price
  | N_getMarketplaceListings filters =>
      SolanaNFTManager.getMarketplaceListings this filters
  | N_getNFTStats => SolanaNFTManager.getNFTStats this
  end.

Definition nft_required (c : nft_call) : list value :=
  match c with
  | N_createNFT metadata owner => [metadata; owner]
  | N_getNFT mint => [mint]
  | N_transferNFT mint from to => [mint; from; to]
  | N_getOwnerNFTs owner => [owner]
  | N_getCollectionNFTs collection => [collection]
  | N_updateNFTMetadata mint _ => [mint]
  | N_burnNFT mint owner => [mint; owner]
  | N_createCollection collection creator => [collection; creator]
  | N_getCollection collectionId => [collectionId]
  | N_listNFT mint price seller _ => [mint; price; seller]
  | N_unlistNFT mint seller => [mint; seller]
  | N_buyNFT mint buyer price => [mint; buyer; price]
  | N_getMarketplaceListings _ => []
  | N_getNFTStats => []
  end.

Definition nft_addresses (c : nft_call) : list value :=
  match c with
  | N_createNFT _ owner => [owner]
  | N_getNFT mint => [mint]
  | N_transferNFT mint from to => [mint; from; to]
  | N_getOwnerNFTs owner => [owner]
  | N_getCollectionNFTs collection => [collection]
  | N_updateNFTMetadata mint _ => [mint]
  | N_burnNFT mint owner => [mint; owner]
  | N_createCollection _ creator => [creator]
  | N_getCollection _ => []
  | N_listNFT mint _ seller _ => [mint; seller]
  | N_unlistNFT mint seller => [mint; seller]
  | N_buyNFT mint buyer _ => [mint; buyer]
  | N_getMarketplaceListings _ => []
  | N_getNFTStats => []
  end.

Definition nft_accepts (c : nft_call) : bool :=
  forallb truthy (nft_required c)
  && forallb validatePublicKey (nft_addresses c).

Inductive defi_call : Type :=
| D_getPositions (owner : value)
| D_getLiquidityPools
| D_addLiquidity (poolAddress amountA amountB owner : value)
| D_removeLiquidity (poolAddress lpTokens owner : value)
| D_swapTokens (inputMint outputMint amountIn minAmountOut owner : value)
| D_getLendingPools
| D_supplyLiquidity (poolAddress amount owner : value)
| D_borrowLiquidity (poolAddress amount owner : value)
| D_repayLiquidity (poolAddress amount owner : value)
| D_getStakingPools
| D_stakeTokens (poolAddress amount owner : value)
| D_unstakeTokens (poolAddress amount owner : value)
| D_claimRewards (poolAddress owner : value)
| D_getYieldFarms
| D_farmYield (farmAddress amount owner : value)
| D_harvestYield (farmAddress owner : value)
| D_getDeFiStats.

Definition defi_op (this : SolanaDeFiManager.t) (c : defi_call)
  : M value :=
  match c with
  | D_getPositions owner => SolanaDeFiManager.getPositions this owner
  | D_getLiquidityPools => SolanaDeFiManager.getLiquidityPools this
  | D_addLiquidity poolAddress amountA amountB owner =>
      SolanaDeFiManager.addLiquidity this poolAddress amountA amountB owner
  | D_removeLiquidity poolAddress lpTokens owner =>
      SolanaDeFiManager.removeLiquidity this poolAddress lpTokens owner
  | D_swapTokens inputMint outputMint amountIn minAmountOut owner =>
      SolanaDeFiManager.swapTokens this inputMint outputMint amountIn
        minAmountOut owner
  | D_getLendingPools => SolanaDeFiManager.getLendingPools this
  | D_supplyLiquidity poolAddress amount owner =>
      SolanaDeFiManager.supplyLiquidity this poolAddress amount owner
  | D_borrowLiquidity poolAddress amount owner =>
      SolanaDeFiManager.borrowLiquidity this poolAddress amount owner
  | D_repayLiquidity poolAddress amount owner =>
      SolanaDeFiManager.repayLiquidity this poolAddress amount owner
  | D_getStakingPools => SolanaDeFiManager.getStakingPools this
  | D_stakeTokens poolAddress amount owner =>
      SolanaDeFiManager.stakeTokens this poolAddress amount owner
  | D_unstakeTokens poolAddress amount owner =>
      SolanaDeFiManager.unstakeTokens this poolAddress amount owner
  | D_claimRewards poolAddress owner =>
      SolanaDeFiManager.claimRewards this poolAddress owner
  | D_getYieldFarms => SolanaDeFiManager.getYieldFarms this
  | D_farmYield farmAddress amount owner =>
      SolanaDeFiManager.farmYield this farmAddress amount owner
  | D_harvestYield farmAddress owner =>
      SolanaDeFiManager.harvestYield this farmAddress owner
  | D_getDeFiStats => SolanaDeFiManager.getDeFiStats this
  end.

Definition defi_required (c : defi_call) : list value :=
  match c with
  | D_getPositions owner => [owner]
  | D_getLiquidityPools => []
  | D_addLiquidity poolAddress amountA amountB owner =>
      [poolAddress; amountA; amountB; owner]
  | D_removeLiquidity poolAddress lpTokens owner =>
      [poolAddress; lpTokens; owner]
  | D_swapTokens inputMint outputMint amountIn minAmountOut owner =>
      [inputMint; outputMint; amountIn; minAmountOut; owner]
  | D_getLendingPools => []
  | D_supplyLiquidity poolAddress amount owner => [poolAddress; amount; owner]
  | D_borrowLiquidity poolAddress amount owner => [poolAddress; amount; owner]
  | D_repayLiquidity poolAddress amount owner => [poolAddress; amount; owner]
  | D_getStakingPools => []
  | D_stakeTokens poolAddress amount owner => [poolAddress; amount; owner]
  | D_unstakeTokens poolAddress amount owner => [poolAddress; amount; owner]
  | D_claimRewards poolAddress owner => [poolAddress; owner]
  | D_getYieldFarms => []
  | D_farmYield farmAddress amount owner => [farmAddress; amount; owner]
  | D_harvestYield farmAddress owner => [farmAddress; owner]
  | D_getDeFiStats => []
  end.

Definition defi_addresses (c : defi_call) : list value :=
  match c with
  | D_getPositions owner => [owner]
  | D_getLiquidityPools => []
  | D_addLiquidity poolAddress _ _ owner => [poolAddress; owner]
  | D_removeLiquidity poolAddress _ owner => [poolAddress; owner]
  | D_swapTokens inputMint outputMint _ _ owner =>
      [inputMint; outputMint; owner]
  | D_getLendingPools => []
  | D_supplyLiquidity poolAddress _ owner => [poolAddress; owner]
  | D_borrowLiquidity poolAddress _ owner => [poolAddress; owner]
  | D_repayLiquidity poolAddress _ owner => [poolAddress; owner]
  | D_getStakingPools => []
  | D_stakeTokens poolAddress _ owner => [poolAddress; owner]
  | D_unstakeTokens poolAddress _ owner => [poolAddress; owner]
  | D_claimRewards poolAddress owner => [poolAddress; owner]
  | D_getYieldFarms => []
  | D_farmYield farmAddress _ owner => [farmAddress; owner]
  | D_harvestYield farmAddress owner => [farmAddress; owner]
  | D_getDeFiStats => []
  end.

Definition defi_accepts (c : defi_call) : bool :=
  forallb truthy (defi_required c)
  && forallb validatePublicKey (defi_addresses c).

(** An operation that sends nothing. *)
Definition silent {A : Type} (m : M A) : Prop :=
  forall w log, fst (m w log) = log.

(** An operation that only rejects with errors of the SDK's taxonomy. *)
Definition typed {A : Type} (m : M A) : Prop :=
  forall w log e, snd (m w log) = Throw e -> instanceof_SolanaError e = true.

(** An operation that is refused before anything is sent. *)
Definition refused {A : Type} (m : M A) : Prop :=
  forall w log, exists e, m w log = (log, Throw e).

(** The headers and the timeout of a request of a manager: JSON, the key of
    the configuration as bearer token, the version of the API, the mark of
    the platform, and the configured timeout. *)
Definition authorized (config : SolanaConfig) (r : request) : Prop :=
  req_headers r =
    [("Content-Type", "application/json");
     ("Authorization", "Bearer " ++ apiKey config);
     ("X-API-Version", "1.0");
     ("X-Platform", "solana")]%string /\
  timeout config = Defined (req_timeout r).

(** What a request helper settles to once [fetch] has settled. *)
Definition settle (failure : string) (answer : result response)
  : result value :=
  match answer with
  | Throw e =>
      Throw (if instanceof_SolanaError e then e
             else SolanaNetworkError failure (Cause e))
  | Ok response =>
      if negb (ok response) then Throw (http_error response)
      else
        match json response with
        | Ok data => Ok data
        | Throw e =>
            Throw (if instanceof_SolanaError e then e
                   else SolanaNetworkError failure (Cause e))
        end
  end.

(** What decides whether [fetch] takes a request: no body on a GET or
    HEAD. *)
Definition sendable (method : string) (data : value) : bool :=
  negb (truthy data
        && ((method =? "GET")%string || (method =? "HEAD")%string)).

(** Whether a request that [fetch] has taken left the machine: it did when
    it was answered, and when the call was rejected unless the platform
    turned the request down first. *)
Definition goes_out (w : world) (log : list request) (r : request) : bool :=
  match w log r with
  | Ok _ => true
  | Throw _ => negb (unsent w log r)
  end.

(** The method and the path of the request an operation makes.  The path
    is a template literal: it is there only if the value printed into it
    can be turned into a string. *)
Definition interpolate (v : value) (path : string -> string)
  : result string :=
  match to_string v with
  | Ok segment => Ok (path segment)
  | Throw e => Throw e
  end.

Definition license_method (c : license_call) : string :=
  match c with
  | L_createLicense _ _ _ => "POST"
  | L_validateLicense _ => "POST"
  | L_getLicense _ => "GET"
  | L_updateLicense _ _ => "PUT"
  | L_revokeLicense _ => "DELETE"
  | L_getUserLicenses _ => "GET"
  | L_getProductLicenses _ => "GET"
  | L_extendLicense _ _ => "POST"
  | L_suspendLicense _ _ => "POST"
  | L_unsuspendLicense _ => "POST"
  | L_getLicenseStats => "GET"
  end.

Definition license_path (c : license_call) : result string :=
  match c with
  | L_createLicense _ _ _ => Ok "/licenses"
  | L_validateLicense _ => Ok "/licenses/validate"
  | L_getLicense licenseId =>
      interpolate licenseId (fun segment => "/licenses/" ++ segment)
  | L_updateLicense licenseId _ =>
      interpolate licenseId (fun segment => "/licenses/" ++ segment)
  | L_revokeLicense licenseId =>
      interpolate licenseId (fun segment => "/licenses/" ++ segment)
  | L_getUserLicenses userId =>
      interpolate userId (fun segment => "/users/" ++ segment ++ "/licenses")
  | L_getProductLicenses productId =>
      interpolate productId
        (fun segment => "/products/" ++ segment ++ "/licenses")
  | L_extendLicense licenseId _ =>
      interpolate licenseId
        (fun segment => "/licenses/" ++ segment ++ "/extend")
  | L_suspendLicense licenseId _ =>
      interpolate licenseId
        (fun segment => "/licenses/" ++ segment ++ "/suspend")
  | L_unsuspendLicense licenseId =>
      interpolate licenseId
        (fun segment => "/licenses/" ++ segment ++ "/unsuspend")
  | L_getLicenseStats => Ok "/licenses/stats"
  end.

Definition nft_method (c : nft_call) : string :=
  match c with
  | N_createNFT _ _ => "POST"
  | N_getNFT _ => "GET"
  | N_transferNFT _ _ _ => "POST"
  | N_getOwnerNFTs _ => "GET"
  | N_getCollectionNFTs _ => "GET"
  | N_updateNFTMetadata _ _ => "PUT"
  | N_burnNFT _ _ => "POST"
  | N_createCollection _ _ => "POST"
  | N_getCollection _ => "GET"
  | N_listNFT _ _ _ _ => "POST"
  | N_unlistNFT _ _ => "POST"
  | N_buyNFT _ _ _ => "POST"
  | N_getMarketplaceListings _ => "GET"
  | N_getNFTStats => "GET"
  end.

Definition nft_path (c : nft_call) : result string :=
  match c with
  | N_createNFT _ _ => Ok "/nfts"
  | N_getNFT mint =>
      interpolate mint (fun segment => "/nfts/" ++ segment)
  | N_transferNFT mint _ _ =>
      interpolate mint (fun segment => "/nfts/" ++ segment ++ "/transfer")
  | N_getOwnerNFTs owner =>
      interpolate owner (fun segment => "/nfts/owner/" ++ segment)
  | N_getCollectionNFTs collection =>
      interpolate collection (fun segment => "/nfts/collection/" ++ segment)
  | N_updateNFTMetadata mint _ =>
      interpolate mint (fun segment => "/nfts/" ++ segment ++ "/metadata")
  | N_burnNFT mint _ =>
      interpolate mint (fun segment => "/nfts/" ++ segment ++ "/burn")
  | N_createCollection _ _ => Ok "/nfts/collections"
  | N_getCollection collectionId =>
      interpolate collectionId
        (fun segment => "/nfts/collections/" ++ segment)
  | N_listNFT mint _ _ _ =>
      interpolate mint (fun segment => "/nfts/" ++ segment ++ "/list")
  | N_unlistNFT mint _ =>
      interpolate mint (fun segment => "/nfts/" ++ segment ++ "/unlist")
  | N_buyNFT mint _ _ =>
      interpolate mint (fun segment => "/nfts/" ++ segment ++ "/buy")
  | N_getMarketplaceListings _ => Ok "/nfts/marketplace/listings"
  | N_getNFTStats => Ok "/nfts/stats"
  end.

Definition defi_method (c : defi_call) : string :=
  match c with
  | D_getPositions _ => "GET"
  | D_getLiquidityPools => "GET"
  | D_addLiquidity _ _ _ _ => "POST"
  | D_removeLiquidity _ _ _ => "POST"
  | D_swapTokens _ _ _ _ _ => "POST"
  | D_getLendingPools => "GET"
  | D_supplyLiquidity _ _ _ => "POST"
  | D_borrowLiquidity _ _ _ => "POST"
  | D_repayLiquidity _ _ _ => "POST"
  | D_getStakingPools => "GET"
  | D_stakeTokens _ _ _ => "POST"
  | D_unstakeTokens _ _ _ => "POST"
  | D_claimRewards _ _ => "POST"
  | D_getYieldFarms => "GET"
  | D_farmYield _ _ _ => "POST"
  | D_harvestYield _ _ => "POST"
  | D_getDeFiStats => "GET"
  end.

Definition defi_path (c : defi_call) : result string :=
  match c with
  | D_getPositions owner =>
      interpolate owner (fun segment => "/defi/positions/" ++ segment)
  | D_getLiquidityPools => Ok "/defi/liquidity-pools"
  | D_addLiquidity poolAddress _ _ _ =>
      interpolate poolAddress
        (fun segment => "/defi/liquidity-pools/" ++ segment ++ "/add")
  | D_removeLiquidity poolAddress _ _ =>
      interpolate poolAddress
        (fun segment => "/defi/liquidity-pools/" ++ segment ++ "/remove")
  | D_swapTokens _ _ _ _ _ => Ok "/defi/swap"
  | D_getLendingPools => Ok "/defi/lending-pools"
  | D_supplyLiquidity poolAddress _ _ =>
      interpolate poolAddress
        (fun segment => "/defi/lending-pools/" ++ segment ++ "/supply")
  | D_borrowLiquidity poolAddress _ _ =>
      interpolate poolAddress
        (fun segment => "/defi/lending-pools/" ++ segment ++ "/borrow")
  | D_repayLiquidity poolAddress _ _ =>
      interpolate poolAddress
        (fun segment => "/defi/lending-pools/" ++ segment ++ "/repay")
  | D_getStakingPools => Ok "/defi/staking-pools"
  | D_stakeTokens poolAddress _ _ =>
      interpolate poolAddress
        (fun segment => "/defi/staking-pools/" ++ segment ++ "/stake")
  | D_unstakeTokens poolAddress _ _ =>
      interpolate poolAddress
        (fun segment => "/defi/staking-pools/" ++ segment ++ "/unstake")
  | D_claimRewards poolAddress _ =>
      interpolate poolAddress
        (fun segment => "/defi/staking-pools/" ++ segment ++ "/claim")
  | D_getYieldFarms => Ok "/defi/yield-farms"
  | D_farmYield farmAddress _ _ =>
      interpolate farmAddress
        (fun segment => "/defi/yield-farms/" ++ segment ++ "/farm")
  | D_harvestYield farmAddress _ =>
      interpolate farmAddress
        (fun segment => "/defi/yield-farms/" ++ segment ++ "/harvest")
  | D_getDeFiStats => Ok "/defi/stats"
  end.

(** ** The JSON-RPC operations of the facade as data *)

Inductive rpc_call : Type :=
| R_getAccount (publicKey : value)
| R_getBalance (publicKey : value)
| R_getTokenAccounts (owner mint : value)
| R_sendTransaction (transaction : value)
| R_confirmTransaction (signature commitment : value)
| R_getTransaction (signature : value)
| R_getProgram (programId : value)
| R_getBlock (slot : value)
| R_getLatestBlockhash
| R_getClusterInfo
| R_getValidators
| R_getStakeAccounts (owner : value).

Definition rpc_op (this : LicenseChainSolana.t) (c : rpc_call) : M value :=
  match c with
  | R_getAccount publicKey => LicenseChainSolana.getAccount this publicKey
  | R_getBalance publicKey => LicenseChainSolana.getBalance this publicKey
  | R_getTokenAccounts owner mint =>
      LicenseChainSolana.getTokenAccounts this owner mint
  | R_sendTransaction transaction =>
      LicenseChainSolana.sendTransaction this transaction
  | R_confirmTransaction signature commitment =>
      LicenseChainSolana.confirmTransaction this signature commitment
  | R_getTransaction signature =>
      LicenseChainSolana.getTransaction this signature
  | R_getProgram programId => LicenseChainSolana.getProgram this programId
  | R_getBlock slot => LicenseChainSolana.getBlock this slot
  | R_getLatestBlockhash => LicenseChainSolana.getLatestBlockhash this
  | R_getClusterInfo => LicenseChainSolana.getClusterInfo this
  | R_getValidators => LicenseChainSolana.getValidators this
  | R_getStakeAccounts owner => LicenseChainSolana.getStakeAccounts this owner
  end.

(** The code a caller finds on the error of an operation that catches
    everything: that of the error class or the one given in the catch. *)
Definition rpc_failure_code (c : rpc_call) : string :=
  match c with
  | R_getAccount _ | R_getBalance _ | R_getTokenAccounts _ _
  | R_getProgram _ => "ACCOUNT_ERROR"
  | R_sendTransaction _ | R_confirmTransaction _ _
  | R_getTransaction _ => "TRANSACTION_ERROR"
  | R_getBlock _ => "BLOCK_ERROR"
  | R_getLatestBlockhash => "BLOCKHASH_ERROR"
  | R_getClusterInfo => "CLUSTER_ERROR"
  | R_getValidators => "VALIDATORS_ERROR"
  | R_getStakeAccounts _ => "STAKE_ERROR"
  end.

(** An operation that adds at most one request to the log, and only one
    that satisfies [P]. *)
Definition at_most_once {A : Type} (P : request -> Prop) (m : M A) : Prop :=
  forall w log,
    fst (m w log) = log \/
    exists r, fst (m w log) = (log ++ [r])%list /\ P r.

(** A JSON-RPC request of the facade: a POST to the RPC endpoint, version
    2.0 with the fixed id 1, which carries the API key as bearer token. *)
Definition rpc_request (config : SolanaConfig) (r : request) : Prop :=
  req_url r = template (fun s => s) (rpcUrl config) /\
  req_method r = "POST" /\
  In ("Authorization"%string, "Bearer " ++ apiKey config) (req_headers r) /\
  exists method params,
    req_body r =
      Some (object_literal
              [("jsonrpc", VString "2.0"); ("id", VNumber 1);
               ("method", VString method); ("params", VArray params)]).

(** * Properties *)

(** Induction on values, with the hypothesis for every element of an array
    and every field of an object. *)
Lemma value_nested_ind (P : value -> Prop) :
  P VUndefined -> P VNull -> (forall b, P (VBool b)) ->
  (forall n, P (VNumber n)) -> (forall s, P (VString s)) ->
  (forall b, P (VBytes b)) ->
  (forall xs, Forall P xs -> P (VArray xs)) ->
  (forall fields, Forall (fun kv => P (snd kv)) fields -> P (VObject fields)) ->
  forall v, P v.
Proof.
  intros Hu Hn Hb Hnum Hs Hbytes Harr Hobj.
  refine (fix IH (v : value) : P v :=
            match v with
            | VUndefined => Hu
            | VNull => Hn
            | VBool b => Hb b
            | VNumber n => Hnum n
            | VString s => Hs s
            | VBytes b => Hbytes b
            | VArray xs =>
                Harr xs
                  ((fix elements (l : list value) : Forall P l :=
                      match l with
                      | [] => Forall_nil P
                      | x :: r => Forall_cons x (IH x) (elements r)
                      end) xs)
            | VObject fields =>
                Hobj fields
                  ((fix entries (l : list (string * value))
                      : Forall (fun kv => P (snd kv)) l :=
                      match l with
                      | [] => Forall_nil _
                      | kv :: r => Forall_cons kv (IH (snd kv)) (entries r)
                      end) fields)
            end).
Qed.

(** ** Strings and lists of code units *)

Lemma chars_str (l : list ascii) : chars (str l) = l.
Proof. apply list_ascii_of_string_of_list_ascii. Qed.

Lemma str_chars (s : string) : str (chars s) = s.
Proof. apply string_of_list_ascii_of_string. Qed.

Lemma chars_app (a b : string) : chars (a ++ b) = (chars a ++ chars b)%list.
Proof.
  induction a as [|c a IH]; simpl; [reflexivity|].
  unfold chars in *. simpl. now rewrite IH.
Qed.

Lemma str_app (a b : list ascii) : str (a ++ b) = (str a ++ str b)%string.
Proof.
  rewrite <- (str_chars (str a ++ str b)), chars_app, !chars_str.
  reflexivity.
Qed.

Lemma chars_inj (a b : string) : chars a = chars b -> a = b.
Proof. intro H. rewrite <- (str_chars a), <- (str_chars b). now f_equal. Qed.

Lemma length_chars (s : string) : List.length (chars s) = String.length s.
Proof. induction s as [|c s IH]; simpl; [reflexivity|]. now f_equal. Qed.

Lemma chars_nil_iff (s : string) : chars s = [] <-> s = "".
Proof. destruct s; simpl; split; intro H; try reflexivity; discriminate. Qed.

(** ** validatePublicKey *)

Lemma base58_class_alphabet (c : ascii) :
  base58_class c = existsb (Ascii.eqb c) (chars base58_alphabet).
Proof.
  destruct c as [[] [] [] [] [] [] [] []]; vm_compute; reflexivity.
Qed.

Lemma base58_class_In (c : ascii) :
  base58_class c = true <-> In c (chars base58_alphabet).
Proof.
  rewrite base58_class_alphabet, existsb_exists. split.
  - intros [x [Hin Heq]]. apply Ascii.eqb_eq in Heq. now subst.
  - intro Hin. exists c. split; [assumption | apply Ascii.eqb_refl].
Qed.

Lemma base58Regex_test_spec (s : string) :
  base58Regex_test s = true <->
  s <> "" /\ Forall (fun c => In c (chars base58_alphabet)) (chars s).
Proof.
  unfold base58Regex_test. destruct (chars s) as [|c l] eqn:E.
  - split; [discriminate|]. intros [Hne _]. apply chars_nil_iff in E.
    contradiction.
  - rewrite forallb_forall, Forall_forall. split.
    + intro H. split.
      * intro Hs. subst s. discriminate.
      * intros x Hx. apply base58_class_In, H, Hx.
    + intros [_ H] x Hx. apply base58_class_In, H, Hx.
Qed.

(** C3.  [validatePublicKey] answers [true] exactly on the non-empty strings
    of 32 to 44 characters drawn from the base58 alphabet; it is a total
    function of every value, so it never raises; a string holding one of
    0, O, I, l, or one shorter than 32 or longer than 44, is refused. *)
Theorem validatePublicKey_spec :
  (forall key : value,
     validatePublicKey key = true <->
     exists s : string,
       key = VString s /\ s <> "" /\
       (32 <= String.length s <= 44)%nat /\
       Forall (fun c => In c (chars base58_alphabet)) (chars s)) /\
  (forall (s : string) (c : ascii),
     In c (chars s) -> In c (chars "0OIl") ->
     validatePublicKey (VString s) = false) /\
  (forall s : string,
     (String.length s < 32 \/ 44 < String.length s)%nat ->
     validatePublicKey (VString s) = false).
Proof.
  assert (main : forall key : value,
     validatePublicKey key = true <->
     exists s : string,
       key = VString s /\ s <> "" /\
       (32 <= String.length s <= 44)%nat /\
       Forall (fun c => In c (chars base58_alphabet)) (chars s)).
  { intro key. split.
    - destruct key as [| |b|n|s| | |]; try (intro H0; discriminate H0).
      + destruct b; intro H0; discriminate H0.
      + unfold validatePublicKey, falsy. simpl.
        destruct (n =? 0); intro H0; discriminate H0.
      + unfold validatePublicKey, falsy, strlen. simpl.
        destruct (s =? "")%string eqn:E0; simpl; [discriminate|].
        destruct (Z.of_nat (String.length s) <? 32) eqn:E1; simpl;
          [discriminate|].
        destruct (44 <? Z.of_nat (String.length s)) eqn:E2; simpl;
          [discriminate|].
        intro H. apply base58Regex_test_spec in H. destruct H as [Hne Hall].
        apply Z.ltb_ge in E1, E2.
        exists s. repeat split; try assumption; lia.
    - intros [s [-> [Hne [[Hlo Hhi] Hall]]]].
      unfold validatePublicKey, falsy, strlen. simpl.
      destruct (s =? "")%string eqn:E0.
      { apply String.eqb_eq in E0. contradiction. }
      simpl.
      replace (Z.of_nat (String.length s) <? 32) with false
        by (symmetry; apply Z.ltb_ge; lia).
      replace (44 <? Z.of_nat (String.length s)) with false
        by (symmetry; apply Z.ltb_ge; lia).
      simpl. apply base58Regex_test_spec. now split. }
  split; [exact main|]. split.
  - intros s c Hin Hbad.
    destruct (validatePublicKey (VString s)) eqn:E; [|reflexivity].
    apply main in E. destruct E as [s' [Heq [_ [_ Hall]]]].
    injection Heq as <-. rewrite Forall_forall in Hall.
    specialize (Hall c Hin). apply base58_class_In in Hall.
    simpl in Hbad.
    destruct Hbad as [<-|[<-|[<-|[<-|[]]]]]; discriminate.
  - intros s Hlen.
    destruct (validatePublicKey (VString s)) eqn:E; [|reflexivity].
    apply main in E. destruct E as [s' [Heq [_ [Hrange _]]]].
    injection Heq as <-. lia.
Qed.

(** ** validatePrivateKey *)

Lemma validatePrivateKey_string (s : string) :
  validatePrivateKey (VString s) =
  (Z.of_nat (List.length (match_dot_1_2 (chars s))) =? 64).
Proof.
  unfold validatePrivateKey, String_match_dot_1_2.
  destruct (match_dot_1_2 (chars s)) as [|m ms]; [reflexivity|].
  cbn [option_map]. now rewrite !length_map.
Qed.

Lemma validatePrivateKey_buffer (b : list Z) :
  validatePrivateKey (VBytes b) = true <-> List.length b = 64%nat.
Proof. unfold validatePrivateKey. rewrite Z.eqb_eq. lia. Qed.

Lemma hex_digit_not_terminator (c : ascii) (d : Z) :
  digit_value 16 c = Some d -> is_line_terminator c = false.
Proof.
  destruct c as [[] [] [] [] [] [] [] []]; vm_compute;
    intro H; (reflexivity || discriminate H).
Qed.

Lemma match_dot_1_2_hex (bytes : list Z) :
  forall l : list ascii,
    hex_decode_chars l = Some bytes ->
    List.length (match_dot_1_2 l) = List.length bytes.
Proof.
  induction bytes as [|x bytes IH]; intros l H.
  - destruct l as [|a [|b r]]; simpl in H; try discriminate; [reflexivity|].
    destruct (digit_value 16 a), (digit_value 16 b), (hex_decode_chars r);
      discriminate.
  - destruct l as [|a [|b r]]; simpl in H; try discriminate.
    destruct (digit_value 16 a) as [xa|] eqn:Ea; [|discriminate].
    destruct (digit_value 16 b) as [xb|] eqn:Eb; [|discriminate].
    destruct (hex_decode_chars r) as [bs|] eqn:Er; [|discriminate].
    injection H as _ ->.
    cbn [match_dot_1_2].
    rewrite (hex_digit_not_terminator _ _ Ea),
            (hex_digit_not_terminator _ _ Eb).
    simpl. f_equal. now apply IH.
Qed.

(** What the claim gets right: buffers of 64 bytes, and the hexadecimal
    encodings of 64 bytes, are accepted. *)
Lemma validatePrivateKey_accepts_hex (s : string) (bytes : list Z) :
  hex_decode s = Some bytes -> List.length bytes = 64%nat ->
  validatePrivateKey (VString s) = true.
Proof.
  intros Hdec Hlen. rewrite validatePrivateKey_string.
  rewrite (match_dot_1_2_hex bytes (chars s) Hdec), Hlen. reflexivity.
Qed.

(** C8.  A string of 128 letters z, and a string of 127 digits, are both
    accepted, although neither decodes as hexadecimal: the check counts the
    chunks of [/.{1,2}/g] and never looks at what [parseInt] made of them. *)
Theorem validatePrivateKey_accepts_non_hex :
  let zs := str (repeat "z"%char 128) in
  let odd := str (repeat "0"%char 127) in
  validatePrivateKey (VString zs) = true /\ hex_decode zs = None /\
  (forall chunk, String_match_dot_1_2 zs = Some chunk ->
                 Forall (fun byte => parseInt16 byte = None) chunk) /\
  validatePrivateKey (VString odd) = true /\ hex_decode odd = None.
Proof.
  cbv zeta. split; [vm_compute; reflexivity|].
  split; [vm_compute; reflexivity|].
  split.
  - intros chunk H. vm_compute in H. injection H as <-.
    repeat (constructor; [vm_compute; reflexivity|]). constructor.
  - split; vm_compute; reflexivity.
Qed.

(** ** retry *)

Section RetryFacts.
Context {T E : Type}.
Variable fn : nat -> T + E.
Variables maxRetries delay : Z.

(** The loop from invocation [c] on: it stops at some invocation [n],
    every earlier one failed with attempts to spare, one timer was set
    after each of them, and the promise settles with what [fn n] gave. *)
Lemma attempt_run (fuel : nat) :
  forall (c : nat) (slept : list Z),
    maxRetries - Z.of_nat c - 1 <= Z.of_nat fuel ->
    let r := attempt fn maxRetries delay fuel (Z.of_nat c) c slept in
    exists n : nat,
      (c <= n)%nat /\ invocations r = S n /\
      (forall k, (c <= k < n)%nat ->
                 (exists e, fn k = inr e) /\ Z.of_nat k + 1 < maxRetries) /\
      timeouts r = (slept ++ backoff delay (S c) (n - c))%list /\
      ((exists v, fn n = inl v /\ outcome r = Resolved v) \/
       (exists e, fn n = inr e /\ outcome r = Rejected e /\
                  maxRetries <= Z.of_nat n + 1)).
Proof.
  assert (Hstop : forall c slept, (slept ++ backoff delay (S c) (c - c))%list = slept).
  { intros c slept. unfold backoff. rewrite Nat.sub_diag. cbn.
    apply app_nil_r. }
  induction fuel as [|fuel IH]; intros c slept Hfuel r; subst r;
    cbn [attempt]; destruct (fn c) as [v|e] eqn:Efn.
  - exists c. cbn. rewrite Hstop.
    split; [lia|]. split; [reflexivity|]. split; [intros k Hk; lia|].
    split; [reflexivity|]. left. now exists v.
  - destruct (Z.of_nat c + 1 >=? maxRetries) eqn:Ege.
    + exists c. cbn. rewrite Hstop. apply Z.geb_le in Ege.
      split; [lia|]. split; [reflexivity|]. split; [intros k Hk; lia|].
      split; [reflexivity|]. right. exists e. now repeat split.
    + rewrite Z.geb_leb in Ege. apply Z.leb_gt in Ege. cbn in Hfuel. lia.
  - exists c. cbn. rewrite Hstop.
    split; [lia|]. split; [reflexivity|]. split; [intros k Hk; lia|].
    split; [reflexivity|]. left. now exists v.
  - destruct (Z.of_nat c + 1 >=? maxRetries) eqn:Ege.
    + exists c. cbn. rewrite Hstop. apply Z.geb_le in Ege.
      split; [lia|]. split; [reflexivity|]. split; [intros k Hk; lia|].
      split; [reflexivity|]. right. exists e. now repeat split.
    + rewrite Z.geb_leb in Ege. apply Z.leb_gt in Ege.
      replace (Z.of_nat c + 1) with (Z.of_nat (S c)) by lia.
      destruct (IH (S c) (slept ++ [delay * Z.of_nat (S c)])%list)
        as [n [Hle [Hinv [Hfail [Hslept Hout]]]]]; [lia|].
      exists n. split; [lia|]. split; [exact Hinv|]. split.
      * intros k Hk. destruct (Nat.eq_dec k c) as [->|Hne].
        -- split; [now exists e | lia].
        -- apply Hfail. lia.
      * split; [|exact Hout].
        rewrite Hslept, <- app_assoc. f_equal.
        unfold backoff.
        replace (n - c)%nat with (S (n - S c)) by lia.
        reflexivity.
Qed.

Lemma retry_run :
  let r := retry fn maxRetries delay in
  exists n : nat,
    invocations r = S n /\
    (forall k, (k < n)%nat ->
               (exists e, fn k = inr e) /\ Z.of_nat k + 1 < maxRetries) /\
    timeouts r = backoff delay 1 n /\
    ((exists v, fn n = inl v /\ outcome r = Resolved v) \/
     (exists e, fn n = inr e /\ outcome r = Rejected e /\
                maxRetries <= Z.of_nat n + 1)).
Proof.
  destruct (attempt_run (Z.to_nat maxRetries) 0 []) as
    [n [_ [Hinv [Hfail [Hslept Hout]]]]]; [cbn; lia|].
  exists n. split; [exact Hinv|]. split.
  - intros k Hk. apply Hfail. lia.
  - split; [|exact Hout]. unfold retry. cbn in Hslept.
    rewrite Hslept. now rewrite Nat.sub_0_r.
Qed.
End RetryFacts.

(** C5.  [retry] settles (it never stays pending), invokes the operation at
    least once whatever [maxRetries] is, exactly once when [maxRetries] is
    zero or less, and sets the timers [delay * 1], [delay * 2], ... one
    after each failed invocation but the last.  With [maxRetries = 3], two
    failures and a success give the success after three invocations; an
    operation that always fails is invoked [maxRetries] times (for
    [maxRetries >= 1]) and the error of the last invocation is rejected. *)
Theorem retry_contract {T E : Type} (fn : nat -> T + E)
    (maxRetries delay : Z) :
  let r := retry fn maxRetries delay in
  (1 <= invocations r)%nat /\
  outcome r <> Pending /\
  timeouts r = backoff delay 1 (invocations r - 1) /\
  (forall k, (k < invocations r - 1)%nat -> exists e, fn k = inr e) /\
  (maxRetries <= 0 -> invocations r = 1%nat) /\
  (maxRetries = 3 ->
   forall e1 e2 v, fn 0%nat = inr e1 -> fn 1%nat = inr e2 -> fn 2%nat = inl v ->
                   outcome r = Resolved v /\ invocations r = 3%nat) /\
  (1 <= maxRetries -> (forall k, exists e, fn k = inr e) ->
   invocations r = Z.to_nat maxRetries /\
   exists e, fn (Z.to_nat maxRetries - 1)%nat = inr e /\
             outcome r = Rejected e).
Proof.
  intro r. destruct (retry_run fn maxRetries delay) as
    [n [Hinv [Hfail [Hslept Hout]]]]. fold r in Hinv, Hslept, Hout.
  split; [lia|]. split.
  { destruct Hout as [[v [_ ->]]|[e [_ [-> _]]]]; discriminate. }
  split. { rewrite Hslept, Hinv. now rewrite Nat.sub_succ, Nat.sub_0_r. }
  split. { intros k Hk. apply Hfail. lia. }
  split.
  { intro Hmax. destruct n as [|n]; [exact Hinv|].
    destruct (Hfail 0%nat) as [_ H]; lia. }
  split.
  { intros -> e1 e2 v H0 H1 H2. subst r. unfold retry.
    change (Z.to_nat 3) with 3%nat. cbn [attempt].
    rewrite H0, H1, H2. cbn. now split. }
  intros Hmax Hall.
  destruct Hout as [[v [Hv _]]|[e [He [Hrej Hge]]]].
  { destruct (Hall n) as [e He]. congruence. }
  assert (Hn : Z.of_nat n + 1 = maxRetries).
  { destruct n as [|n]; [lia|].
    destruct (Hfail n) as [_ H]; lia. }
  split; [lia|]. exists e.
  replace (Z.to_nat maxRetries - 1)%nat with n by lia. now split.
Qed.

Lemma retry_contract_witness :
  let twice := fun k : nat =>
    if (k <? 2)%nat then @inr Z string "down" else inl 7 in
  let never := fun k : nat => @inr Z nat k in
  (outcome (retry twice 3 1000) = Resolved 7 /\
   invocations (retry twice 3 1000) = 3%nat) /\
  (invocations (retry never 3 1000) = 3%nat /\
   exists e, never 2%nat = inr e /\ outcome (retry never 3 1000) = Rejected e).
Proof.
  intros twice never. split.
  - exact (proj1 (proj2 (proj2 (proj2 (proj2 (proj2
             (retry_contract twice 3 1000))))))
             eq_refl "down" "down" 7 eq_refl eq_refl eq_refl).
  - apply (proj2 (proj2 (proj2 (proj2 (proj2 (proj2
             (retry_contract never 3 1000))))))).
    + lia.
    + intro k. exists k. reflexivity.
Defined.

(** ** createWebhookSignature and verifyWebhookSignature *)

Lemma utf8_unit_bytes (c : ascii) : Forall is_byte (utf8_unit c).
Proof.
  destruct c as [[] [] [] [] [] [] [] []]; vm_compute;
    repeat constructor; discriminate.
Qed.

Lemma TextEncoder_encode_bytes (s : string) :
  Forall is_byte (TextEncoder_encode s).
Proof.
  unfold TextEncoder_encode. induction (chars s) as [|c l IH]; cbn.
  - constructor.
  - apply Forall_app. split; [apply utf8_unit_bytes | exact IH].
Qed.

Lemma lxor_byte (a b : Z) : is_byte a -> is_byte b -> is_byte (Z.lxor a b).
Proof.
  unfold is_byte. intros Ha Hb.
  assert (Hnn : 0 <= Z.lxor a b) by (apply Z.lxor_nonneg; lia).
  split; [exact Hnn|].
  destruct (Z.eq_dec (Z.lxor a b) 0) as [->|Hnz]; [lia|].
  apply (Z.log2_lt_pow2 _ 8); [lia|].
  eapply Z.le_lt_trans; [apply Z.log2_lxor; lia|].
  apply Z.max_lub_lt.
  - destruct (Z.eq_dec a 0) as [->|]; [cbn; lia|].
    apply Z.log2_lt_pow2; lia.
  - destruct (Z.eq_dec b 0) as [->|]; [cbn; lia|].
    apply Z.log2_lt_pow2; lia.
Qed.

Lemma code_fromCharCode (b : Z) : is_byte b -> code (fromCharCode b) = b.
Proof.
  unfold is_byte, code, fromCharCode. intro Hb.
  rewrite nat_ascii_embedding by lia. lia.
Qed.

Lemma xor_repeating_bytes (key : list Z) :
  Forall is_byte key ->
  forall data rest, Forall is_byte data -> Forall is_byte rest ->
                    Forall is_byte (xor_repeating data key rest).
Proof.
  intros Hkey data. induction data as [|b data IH]; intros rest Hd Hr; cbn.
  - constructor.
  - inversion Hd as [|? ? Hb Hd']; subst.
    destruct rest as [|k rest'].
    + destruct key as [|k rest'].
      * constructor; [exact Hb | now apply IH].
      * inversion Hkey as [|? ? Hk Hrest]; subst.
        constructor; [now apply lxor_byte | now apply IH].
    + inversion Hr as [|? ? Hk Hrest]; subst.
      constructor; [now apply lxor_byte | now apply IH].
Qed.

Lemma xor_repeating_no_key (data : list Z) : xor_repeating data [] [] = data.
Proof. induction data as [|b data IH]; cbn; [reflexivity | now rewrite IH]. Qed.

Lemma skipn_nth_cons (key : list Z) (m : nat) :
  (m < List.length key)%nat ->
  skipn m key = nth m key 0 :: skipn (S m) key.
Proof.
  revert m. induction key as [|k key IH]; intros m Hm; cbn in Hm; [lia|].
  destruct m as [|m]; [reflexivity|].
  cbn [skipn nth]. apply IH. lia.
Qed.

(** The index arithmetic of the source against the cyclic reading. *)
Lemma mapi_xor_repeating {B : Type} (g : Z -> B) (key : list Z) :
  key <> [] ->
  forall (data : list Z) (i : nat) (rest : list Z),
    rest = skipn (i mod List.length key) key \/
    (rest = [] /\ (i mod List.length key = 0)%nat) ->
    mapi_from i (fun byte j => g (Z.lxor byte (key_operand key j))) data =
    map g (xor_repeating data key rest).
Proof.
  intros Hkey.
  assert (Hlen : (0 < List.length key)%nat).
  { destruct key; [contradiction | cbn; lia]. }
  assert (Hop : forall j, key_operand key j = nth (j mod List.length key) key 0).
  { intro j. unfold key_operand. destruct key; [contradiction | reflexivity]. }
  assert (Hnext : forall i,
    (S (i mod List.length key) < List.length key /\
     S i mod List.length key = S (i mod List.length key))%nat \/
    (S (i mod List.length key) = List.length key /\
     S i mod List.length key = 0)%nat).
  { intro i.
    pose proof (Nat.mod_upper_bound i (List.length key) ltac:(lia)) as Hub.
    pose proof (Nat.div_mod_eq i (List.length key)) as Hdm.
    destruct (Nat.eq_dec (S (i mod List.length key)) (List.length key))
      as [Heq|Hne].
    - right. split; [exact Heq|]. symmetry.
      apply (Nat.mod_unique _ _ (S (i / List.length key))); [lia|].
      rewrite Nat.mul_succ_r. lia.
    - left. split; [lia|]. symmetry.
      apply (Nat.mod_unique _ _ (i / List.length key)); lia. }
  induction data as [|b data IH]; intros i rest Hrest; [reflexivity|].
  cbn [mapi_from map]. rewrite Hop.
  pose proof (Nat.mod_upper_bound i (List.length key) ltac:(lia)) as Hub.
  assert (Hstep : forall rest',
    rest' = skipn (S (i mod List.length key)) key ->
    rest' = skipn (S i mod List.length key) key \/
    (rest' = [] /\ (S i mod List.length key = 0)%nat)).
  { intros rest' ->. destruct (Hnext i) as [[_ ->]|[Heq ->]].
    - now left.
    - right. split; [|reflexivity]. rewrite Heq. apply skipn_all. }
  destruct Hrest as [->|[-> Hzero]].
  - rewrite (skipn_nth_cons key _ Hub). cbn [xor_repeating map].
    f_equal. apply IH, Hstep. reflexivity.
  - cbn [xor_repeating]. rewrite Hzero.
    destruct key as [|k key']; [contradiction|].
    cbn [nth map]. f_equal. apply IH.
    apply Hstep. rewrite Hzero. reflexivity.
Qed.

Lemma createWebhookSignature_bytes (payload secret : string) :
  createWebhookSignature payload secret =
  str (base64_encode
         (xor_repeating (TextEncoder_encode payload)
                        (TextEncoder_encode secret)
                        (TextEncoder_encode secret))).
Proof.
  unfold createWebhookSignature, btoa. rewrite chars_str. f_equal. f_equal.
  set (key := TextEncoder_encode secret).
  set (data := TextEncoder_encode payload).
  assert (Hxor : mapi_from 0
            (fun byte i => fromCharCode (Z.lxor byte (key_operand key i))) data
          = map fromCharCode (xor_repeating data key key)).
  { destruct key as [|k key'] eqn:Ekey.
    - rewrite xor_repeating_no_key. clear. generalize 0%nat.
      induction data as [|b data IH]; intro i; cbn; [reflexivity|].
      rewrite Z.lxor_0_r. f_equal. apply IH.
    - apply (mapi_xor_repeating fromCharCode); [discriminate|].
      left. rewrite Nat.Div0.mod_0_l. reflexivity. }
  rewrite Hxor, map_map.
  assert (Hb : Forall is_byte (xor_repeating data key key)).
  { apply xor_repeating_bytes; apply TextEncoder_encode_bytes. }
  clear Hxor. induction Hb as [|b l Hbyte _ IH]; cbn; [reflexivity|].
  now rewrite code_fromCharCode, IH.
Qed.

(** C9.  The signature is the base64 encoding of the payload bytes XORed
    against the repeating key bytes; verification is equality with that
    signature, so the signature made for a payload and a secret is always
    accepted for them. *)
Theorem webhook_signature_spec (payload secret : string) :
  createWebhookSignature payload secret =
    str (base64_encode
           (xor_repeating (TextEncoder_encode payload)
                          (TextEncoder_encode secret)
                          (TextEncoder_encode secret))) /\
  (forall signature : string,
     verifyWebhookSignature payload signature secret = true <->
     signature = createWebhookSignature payload secret) /\
  verifyWebhookSignature payload (createWebhookSignature payload secret) secret
    = true.
Proof.
  split; [apply createWebhookSignature_bytes|]. split.
  - intro signature. unfold verifyWebhookSignature. apply String.eqb_eq.
  - unfold verifyWebhookSignature. apply String.eqb_refl.
Qed.

(** ** Decimal numerals *)

Lemma is_digit_facts (c : ascii) :
  is_digit c = true ->
  digit_value 10 c = Some (code c - 48) /\ 0 <= code c - 48 < 10 /\
  digit_char (code c - 48) = c /\ is_whitespace c = false /\
  c <> "."%char /\ c <> "+"%char /\ c <> "-"%char /\
  Ascii.eqb c "x" || Ascii.eqb c "X" = false /\
  Ascii.eqb c "o" || Ascii.eqb c "O" = false /\
  Ascii.eqb c "b" || Ascii.eqb c "B" = false /\
  (code c - 48 = 0 <-> c = "0"%char).
Proof.
  destruct c as [[] [] [] [] [] [] [] []]; vm_compute; intro H;
    try discriminate H;
    repeat split; intros; try discriminate; try reflexivity; try lia;
    try (exfalso; congruence).
Qed.

Lemma digits_value_dec (l : list ascii) :
  all_digits l -> forall acc, digits_value 10 acc l = Some (dec_from acc l).
Proof.
  induction 1 as [|c l Hc _ IH]; intro acc; cbn; [reflexivity|].
  destruct (is_digit_facts c Hc) as [-> _]. apply IH.
Qed.

Lemma dec_from_shift (l : list ascii) :
  forall acc, dec_from acc l = acc * 10 ^ Z.of_nat (List.length l) + dec_value l.
Proof.
  unfold dec_value.
  induction l as [|c l IH]; intro acc; cbn [dec_from fold_left List.length].
  - cbn. lia.
  - fold (dec_from (acc * 10 + (code c - 48)) l).
    fold (dec_from (0 * 10 + (code c - 48)) l).
    rewrite (IH (acc * 10 + _)), (IH (0 * 10 + _)).
    rewrite Nat2Z.inj_succ, Z.pow_succ_r by lia. lia.
Qed.

Lemma dec_value_app (a b : list ascii) :
  dec_value (a ++ b) = dec_value a * 10 ^ Z.of_nat (List.length b) + dec_value b.
Proof.
  unfold dec_value at 1. unfold dec_from. rewrite fold_left_app.
  fold (dec_from 0 a). fold (dec_value a).
  fold (dec_from (dec_value a) b). apply dec_from_shift.
Qed.

Lemma dec_value_bounds (l : list ascii) :
  all_digits l -> 0 <= dec_value l < 10 ^ Z.of_nat (List.length l).
Proof.
  induction l as [|c l IH] using rev_ind; intro H.
  - cbn. lia.
  - apply Forall_app in H. destruct H as [Hl Hc].
    inversion Hc as [|? ? Hd _]; subst.
    destruct (is_digit_facts c Hd) as [_ [Hr _]].
    specialize (IH Hl).
    rewrite dec_value_app, length_app. cbn [List.length].
    replace (dec_value [c]) with (code c - 48) by (cbn; lia).
    rewrite Nat2Z.inj_add, Z.pow_add_r by lia. cbn [Z.of_nat]. 
    change (10 ^ Z.pos 1) with 10. lia.
Qed.

Lemma dec_value_zeros (k : nat) : dec_value (repeat "0"%char k) = 0.
Proof.
  induction k as [|k IH]; [reflexivity|].
  change (repeat "0"%char (S k)) with (["0"%char] ++ repeat "0"%char k)%list.
  rewrite dec_value_app, IH.
  change (dec_value ["0"%char]) with 0. lia.
Qed.

Lemma all_digits_zeros (k : nat) : all_digits (repeat "0"%char k).
Proof. apply Forall_forall. intros c Hc. apply repeat_spec in Hc. now subst. Qed.

(** A numeral that starts with a digit other than zero is positive. *)
Lemma dec_value_positive (c : ascii) (l : list ascii) :
  all_digits (c :: l) -> c <> "0"%char -> 0 < dec_value (c :: l).
Proof.
  intros H Hc. inversion H as [|? ? Hd Hl]; subst.
  change (c :: l) with ([c] ++ l)%list. rewrite dec_value_app.
  destruct (is_digit_facts c Hd) as [_ [Hr [_ [_ [_ [_ [_ [_ [_ [_ Hz]]]]]]]]]].
  replace (dec_value [c]) with (code c - 48) by (cbn; lia).
  pose proof (dec_value_bounds l Hl).
  assert (0 < code c - 48) by (destruct (Z.eq_dec (code c - 48) 0) as [E|E];
                               [apply Hz in E; contradiction | lia]).
  assert (0 < 10 ^ Z.of_nat (List.length l)) by (apply Z.pow_pos_nonneg; lia).
  nia.
Qed.

Lemma digits_fuel_step (fuel : nat) (n : Z) (acc : list ascii) :
  digits_fuel (S fuel) n acc =
  if n <? 10 then digit_char (n mod 10) :: acc
  else digits_fuel fuel (n / 10) (digit_char (n mod 10) :: acc).
Proof. reflexivity. Qed.

Lemma digits_fuel_canonical (fuel : nat) :
  forall (l acc : list ascii),
    canonical l -> dec_value l < 2 ^ Z.of_nat (S fuel) ->
    digits_fuel (S fuel) (dec_value l) acc = (l ++ acc)%list.
Proof.
  induction fuel as [|fuel IH]; intros l acc [Hd Hshape] Hlt;
    (destruct (exists_last (l := l)) as [y [c ->]];
     [destruct Hshape as [->|[c [r [-> _]]]]; discriminate|]);
    apply Forall_app in Hd; destruct Hd as [Hy Hc];
    inversion Hc as [|? ? Hcd _]; subst;
    destruct (is_digit_facts c Hcd) as [_ [Hr [Hchar _]]];
    rewrite dec_value_app in *;
    change (10 ^ Z.of_nat (List.length [c])) with 10 in *;
    replace (dec_value [c]) with (code c - 48) in * by (cbn; lia);
    pose proof (dec_value_bounds y Hy) as Hyb;
    rewrite digits_fuel_step;
    (replace ((dec_value y * 10 + (code c - 48)) mod 10) with (code c - 48)
      by (rewrite Z.add_comm, Z.mod_add by lia; symmetry;
          apply Z.mod_small; lia));
    rewrite Hchar;
    (assert (Hsmall : dec_value y * 10 + (code c - 48) < 10 -> y = []);
     [ intro Esmall; destruct y as [|c0 y']; [reflexivity|];
       exfalso; destruct Hshape as [Heq|[c1 [r [Heq Hc1]]]];
       [ destruct y'; discriminate
       | injection Heq as <- _;
         pose proof (dec_value_positive c0 y' Hy Hc1); lia ] | ]);
    destruct (dec_value y * 10 + (code c - 48) <? 10) eqn:Esmall.
  - apply Z.ltb_lt in Esmall. now rewrite (Hsmall Esmall).
  - apply Z.ltb_ge in Esmall. exfalso. change (2 ^ Z.of_nat 1) with 2 in Hlt.
    lia.
  - apply Z.ltb_lt in Esmall. now rewrite (Hsmall Esmall).
  - apply Z.ltb_ge in Esmall.
    replace ((dec_value y * 10 + (code c - 48)) / 10) with (dec_value y)
      by (rewrite Z.add_comm, Z.div_add by lia;
          rewrite Z.div_small by lia; lia).
    rewrite IH.
    + now rewrite <- app_assoc.
    + split; [exact Hy|]. right.
      destruct y as [|c0 y']; [cbn in Esmall; lia|].
      destruct Hshape as [Heq|[c1 [r [Heq Hc1]]]].
      * destruct y'; discriminate.
      * injection Heq as <- _. now exists c0, y'.
    + rewrite (Nat2Z.inj_succ (S fuel)), Z.pow_succ_r in Hlt by lia. lia.
Qed.

Lemma digits_of_canonical (l : list ascii) :
  canonical l -> digits_of (dec_value l) = l.
Proof.
  intro H. unfold digits_of.
  rewrite digits_fuel_canonical with (l := l); [apply app_nil_r | exact H |].
  destruct H as [Hd _]. pose proof (dec_value_bounds l Hd) as [Hnn _].
  rewrite Nat2Z.inj_succ, Z2Nat.id by apply Z.log2_nonneg.
  destruct (Z.eq_dec (dec_value l) 0) as [->|Hnz]; [cbn; lia|].
  apply Z.log2_spec. lia.
Qed.

Lemma bigint_toString_canonical (l : list ascii) :
  canonical l -> bigint_toString (dec_value l) = str l.
Proof.
  intro H. unfold bigint_toString.
  destruct H as [Hd Hs]. pose proof (dec_value_bounds l Hd) as [Hnn _].
  replace (dec_value l <? 0) with false by (symmetry; apply Z.ltb_ge; lia).
  now rewrite digits_of_canonical.
Qed.

(** ** parseUnits and formatUnits *)

Lemma all_digits_cut (n : nat) (l : list ascii) :
  all_digits l -> all_digits (firstn n l) /\ all_digits (skipn n l).
Proof.
  intro H. rewrite <- (firstn_skipn n l) in H. now apply Forall_app in H.
Qed.

Lemma split_chars_no_sep (sep : ascii) (l : list ascii) :
  ~ In sep l -> forall cur, split_chars sep cur l = [(rev cur ++ l)%list].
Proof.
  induction l as [|c l IH]; intros Hsep cur; cbn.
  - now rewrite app_nil_r.
  - destruct (Ascii.eqb c sep) eqn:E.
    + apply Ascii.eqb_eq in E. subst. exfalso. apply Hsep. now left.
    + rewrite IH by (intro H; apply Hsep; now right).
      cbn. now rewrite <- app_assoc.
Qed.

Lemma split_chars_at_sep (sep : ascii) (a b : list ascii) :
  ~ In sep a ->
  forall cur, split_chars sep cur (a ++ sep :: b) =
              (rev cur ++ a)%list :: split_chars sep [] b.
Proof.
  induction a as [|c a IH]; intros Hsep cur; cbn.
  - rewrite Ascii.eqb_refl. now rewrite app_nil_r.
  - destruct (Ascii.eqb c sep) eqn:E.
    + apply Ascii.eqb_eq in E. subst. exfalso. apply Hsep. now left.
    + rewrite IH by (intro H; apply Hsep; now right).
      cbn. now rewrite <- app_assoc.
Qed.

Lemma digits_no_dot (l : list ascii) : all_digits l -> ~ In "."%char l.
Proof.
  intros H Hin. unfold all_digits in H. rewrite Forall_forall in H.
  specialize (H _ Hin). discriminate H.
Qed.

Lemma split_integer_only (i : string) :
  all_digits (chars i) -> split i "." = [i].
Proof.
  intro Hi. unfold split.
  rewrite split_chars_no_sep by now apply digits_no_dot.
  cbn. now rewrite str_chars.
Qed.

Lemma split_integer_fraction (i f : string) :
  all_digits (chars i) -> all_digits (chars f) ->
  split (i ++ "." ++ f) "." = [i; f].
Proof.
  intros Hi Hf. unfold split. rewrite !chars_app.
  change (chars ".") with ["."%char]. cbn [app].
  rewrite split_chars_at_sep by now apply digits_no_dot.
  rewrite split_chars_no_sep by now apply digits_no_dot.
  cbn. now rewrite !str_chars.
Qed.

Lemma drop_while_head (p : ascii -> bool) (c : ascii) (l : list ascii) :
  p c = false -> drop_while p (c :: l) = c :: l.
Proof. intro H. cbn. now rewrite H. Qed.

Lemma trim_chars_digits (l : list ascii) : all_digits l -> trim_chars l = l.
Proof.
  intro H. unfold trim_chars.
  assert (Hw : forall l', all_digits l' -> drop_while is_whitespace l' = l').
  { intros [|c l'] H'; [reflexivity|]. apply drop_while_head.
    inversion H' as [|? ? Hc _]; subst.
    now destruct (is_digit_facts c Hc) as [_ [_ [_ [Hws _]]]]. }
  rewrite (Hw l H), Hw, rev_involutive; [reflexivity|].
  now apply Forall_rev.
Qed.

Lemma StringToBigInt_digits (l : list ascii) :
  all_digits l -> l <> [] -> StringToBigInt (str l) = Some (dec_value l).
Proof.
  intros H Hne. unfold StringToBigInt. rewrite chars_str, trim_chars_digits by exact H.
  assert (Hparse : parse_digits 10 l = Some (dec_value l)).
  { destruct l; [contradiction|]. unfold parse_digits.
    now apply digits_value_dec. }
  destruct l as [|c [|x r]]; [contradiction| |].
  - inversion H as [|? ? Hc _]; subst.
    destruct c as [[] [] [] [] [] [] [] []]; try discriminate Hc; exact Hparse.
  - inversion H as [|? ? Hc Hr]; subst.
    inversion Hr as [|? ? Hx _]; subst.
    destruct (is_digit_facts x Hx) as [_ [_ [_ [_ [_ [_ [_ [E1 [E2 [E3 _]]]]]]]]]].
    destruct c as [[] [] [] [] [] [] [] []]; try discriminate Hc;
      try exact Hparse.
    rewrite E1, E2, E3. exact Hparse.
Qed.

(** The fraction as [parseUnits] uses it: padded with zeros, then cut. *)
Lemma padded_fraction (f : string) (d : Z) :
  0 <= d ->
  chars (slice0 (padEnd f d "0") d) =
  firstn (Z.to_nat d)
         (chars f ++ repeat "0"%char (Z.to_nat d - List.length (chars f))).
Proof.
  intro Hd. unfold slice0, padEnd, strlen.
  rewrite !chars_str, <- length_chars, chars_str.
  set (l := (chars f ++ _)%list).
  replace (d <? 0) with false by (symmetry; apply Z.ltb_ge; lia).
  destruct (Z.le_gt_cases d (Z.of_nat (List.length l))) as [Hle|Hgt].
  - now rewrite Z.min_l by lia.
  - rewrite Z.min_r by lia. rewrite Nat2Z.id.
    rewrite firstn_all.
    symmetry. apply firstn_all2. lia.
Qed.

Lemma parseUnits_parts (i f : string) (d : Z) :
  all_digits (chars i) -> i <> "" -> all_digits (chars f) -> 0 <= d ->
  let fraction :=
    firstn (Z.to_nat d)
           (chars f ++ repeat "0"%char (Z.to_nat d - List.length (chars f))) in
  parseUnits (i ++ "." ++ f) d = Ok (dec_value (chars i ++ fraction)) /\
  (f = "" -> parseUnits i d = Ok (dec_value (chars i ++ fraction))).
Proof.
  intros Hi Hne Hf Hd fraction.
  assert (Hdigits : all_digits (chars i ++ fraction)).
  { apply Forall_app. split; [exact Hi|]. apply all_digits_cut.
    apply Forall_app. split; [exact Hf | apply all_digits_zeros]. }
  assert (Hnonempty : (chars i ++ fraction)%list <> []).
  { intro E. apply app_eq_nil in E. destruct E as [E _].
    apply chars_nil_iff in E. contradiction. }
  assert (Hparse : forall frac : string,
            chars (slice0 (padEnd frac d "0") d) = fraction ->
            StringToBigInt (i ++ slice0 (padEnd frac d "0") d) =
            Some (dec_value (chars i ++ fraction))).
  { intros frac E.
    rewrite <- (StringToBigInt_digits _ Hdigits Hnonempty).
    f_equal. apply chars_inj. now rewrite chars_app, E, chars_str. }
  split.
  - unfold parseUnits. rewrite split_integer_fraction by assumption.
    cbn [nth]. rewrite Hparse; [reflexivity|]. now apply padded_fraction.
  - intros ->. unfold parseUnits. rewrite split_integer_only by assumption.
    cbn [nth]. rewrite Hparse; [reflexivity|]. now apply padded_fraction.
Qed.

Lemma StringToBigInt_negative (l : list ascii) :
  all_digits l -> l <> [] ->
  StringToBigInt (str ("-"%char :: l)) = Some (- dec_value l).
Proof.
  intros H Hne. unfold StringToBigInt. rewrite chars_str.
  assert (Htrim : trim_chars ("-"%char :: l) = "-"%char :: l).
  { unfold trim_chars. rewrite drop_while_head by reflexivity.
    cbn [rev]. destruct (rev l) as [|c m] eqn:Erev.
    - apply (f_equal (@rev ascii)) in Erev. rewrite rev_involutive in Erev.
      contradiction.
    - assert (Hc : is_digit c = true).
      { pose proof (Forall_rev H) as Hr. rewrite Erev in Hr.
        now inversion Hr. }
      destruct (is_digit_facts c Hc) as [_ [_ [_ [Hws _]]]].
      cbn [app]. rewrite drop_while_head by exact Hws.
      change (c :: (m ++ ["-"%char]))%list with ((c :: m) ++ ["-"%char])%list.
      rewrite <- Erev, rev_app_distr, rev_involutive. reflexivity. }
  rewrite Htrim. destruct l as [|c r]; [contradiction|].
  unfold parse_digits. rewrite (digits_value_dec _ H). reflexivity.
Qed.

Lemma parseUnits_negative_parts (i f : string) (d : Z) :
  all_digits (chars i) -> i <> "" -> all_digits (chars f) -> 0 <= d ->
  let fraction :=
    firstn (Z.to_nat d)
           (chars f ++ repeat "0"%char (Z.to_nat d - List.length (chars f))) in
  parseUnits ("-" ++ i ++ "." ++ f) d = Ok (- dec_value (chars i ++ fraction)).
Proof.
  intros Hi Hne Hf Hd fraction.
  assert (Hdigits : all_digits (chars i ++ fraction)).
  { apply Forall_app. split; [exact Hi|]. apply all_digits_cut.
    apply Forall_app. split; [exact Hf | apply all_digits_zeros]. }
  assert (Hnonempty : (chars i ++ fraction)%list <> []).
  { intro E. apply app_eq_nil in E. destruct E as [E _].
    apply chars_nil_iff in E. contradiction. }
  assert (Hsplit : split ("-" ++ i ++ "." ++ f) "." = ["-" ++ i; f]).
  { unfold split.
    change (chars ("-" ++ i ++ "." ++ f))
      with ("-"%char :: chars (i ++ "." ++ f)).
    rewrite !chars_app. change (chars ".") with ["."%char]. cbn [app].
    change ("-"%char :: (chars i ++ "."%char :: chars f))%list
      with (("-"%char :: chars i) ++ "."%char :: chars f)%list.
    rewrite split_chars_at_sep.
    - rewrite split_chars_no_sep by now apply digits_no_dot.
      cbn [map rev app].
      change (str ("-"%char :: chars i)) with (String "-" (str (chars i))).
      now rewrite !str_chars.
    - intros [E|E]; [discriminate | now apply (digits_no_dot _ Hi)]. }
  unfold parseUnits. rewrite Hsplit. cbn [nth].
  replace (("-" ++ i) ++ slice0 (padEnd f d "0") d)
    with (str ("-"%char :: (chars i ++ fraction))).
  - now rewrite (StringToBigInt_negative _ Hdigits Hnonempty).
  - apply chars_inj. rewrite chars_str.
    change (chars (("-" ++ i) ++ slice0 (padEnd f d "0") d))
      with ("-"%char :: chars (i ++ slice0 (padEnd f d "0") d)).
    now rewrite chars_app, padded_fraction.
Qed.

(** C10.  With more fractional digits than [decimals], [parseUnits] keeps
    the first [decimals] of them and drops the rest: it returns, without an
    error, the number written by the integer digits followed by the kept
    digits (with the sign of the input), which is the exact scaled value
    rounded towards zero; inputs that agree on the kept digits give the
    same integer. *)
Theorem parseUnits_truncates (negative : bool) (i f f' : string)
    (decimals : Z) :
  i <> "" -> all_digits (chars i) ->
  all_digits (chars f) -> all_digits (chars f') ->
  0 <= decimals -> decimals < strlen f -> decimals < strlen f' ->
  firstn (Z.to_nat decimals) (chars f') = firstn (Z.to_nat decimals) (chars f) ->
  let sign := if negative then "-" else "" in
  let kept := firstn (Z.to_nat decimals) (chars f) in
  let magnitude := dec_value (chars i ++ kept) in
  parseUnits (sign ++ i ++ "." ++ f) decimals =
    Ok (if negative then - magnitude else magnitude) /\
  magnitude = dec_value (chars i ++ chars f) / 10 ^ (strlen f - decimals) /\
  parseUnits (sign ++ i ++ "." ++ f') decimals =
    parseUnits (sign ++ i ++ "." ++ f) decimals.
Proof.
  intros Hne Hi Hf Hf' Hd Hlen Hlen' Hagree sign kept magnitude.
  unfold strlen in *.
  assert (Hcut : forall g : string,
            decimals < Z.of_nat (String.length g) ->
            firstn (Z.to_nat decimals)
              (chars g ++ repeat "0"%char
                            (Z.to_nat decimals - List.length (chars g))) =
            firstn (Z.to_nat decimals) (chars g)).
  { intros g Hg. rewrite firstn_app.
    replace (Z.to_nat decimals - List.length (chars g))%nat with 0%nat
      by (rewrite length_chars; lia).
    cbn. now rewrite app_nil_r. }
  assert (Hparse : forall g : string,
            all_digits (chars g) -> decimals < Z.of_nat (String.length g) ->
            parseUnits (sign ++ i ++ "." ++ g) decimals =
            Ok (if negative
                then - dec_value (chars i ++ firstn (Z.to_nat decimals) (chars g))
                else dec_value (chars i ++ firstn (Z.to_nat decimals) (chars g)))).
  { intros g Hg Hglen. subst sign. destruct negative.
    - rewrite (parseUnits_negative_parts i g decimals Hi Hne Hg Hd).
      now rewrite Hcut.
    - destruct (parseUnits_parts i g decimals Hi Hne Hg Hd) as [Hp _].
      change ("" ++ i ++ "." ++ g) with (i ++ "." ++ g).
      rewrite Hp. now rewrite Hcut. }
  split; [now apply Hparse|]. split.
  - subst magnitude kept.
    rewrite <- (firstn_skipn (Z.to_nat decimals) (chars f)) at 2.
    rewrite app_assoc.
    rewrite (dec_value_app (chars i ++ firstn (Z.to_nat decimals) (chars f))
                           (skipn (Z.to_nat decimals) (chars f))).
    assert (Hskip : List.length (skipn (Z.to_nat decimals) (chars f)) =
                    Z.to_nat (Z.of_nat (String.length f) - decimals)).
    { rewrite length_skipn, length_chars. lia. }
    rewrite Hskip, Z2Nat.id by lia.
    pose proof (dec_value_bounds (skipn (Z.to_nat decimals) (chars f))
                  (proj2 (all_digits_cut _ _ Hf))) as Hb.
    rewrite Hskip, Z2Nat.id in Hb by lia.
    rewrite Z.div_add_l by (apply Z.pow_nonzero; lia).
    rewrite Z.div_small by exact Hb. lia.
  - rewrite (Hparse f Hf Hlen), (Hparse f' Hf' Hlen'), Hagree. reflexivity.
Qed.

Lemma parseUnits_truncates_witness :
  parseUnits "-1.2399" 2 = Ok (-123) /\
  123 = 12399 / 10 ^ 2 /\
  parseUnits "-1.2301" 2 = parseUnits "-1.2399" 2.
Proof.
  apply (parseUnits_truncates true "1" "2399" "2301" 2).
  - discriminate.
  - repeat constructor.
  - repeat constructor.
  - repeat constructor.
  - lia.
  - reflexivity.
  - reflexivity.
  - reflexivity.
Defined.

(** Up to 22 the power of ten is a double, and the divisor is exact. *)
Lemma BigInt_pow10_exact (d : Z) :
  0 <= d <= 22 -> BigInt_pow10 d = Some (10 ^ d).
Proof.
  intro Hd. rewrite <- (Z2Nat.id d) by lia.
  assert (Hn : (Z.to_nat d <= 22)%nat) by lia.
  revert Hn. generalize (Z.to_nat d). intros n Hn.
  do 23 (destruct n as [|n]; [vm_compute; reflexivity|]). lia.
Qed.

Lemma dec_value_cons (c : ascii) (l : list ascii) :
  dec_value (c :: l) =
  (code c - 48) * 10 ^ Z.of_nat (List.length l) + dec_value l.
Proof.
  change (c :: l) with ([c] ++ l)%list. rewrite dec_value_app.
  replace (dec_value [c]) with (code c - 48) by (cbn; lia). reflexivity.
Qed.

Lemma dec_value_zero_zeros (l : list ascii) :
  all_digits l -> dec_value l = 0 -> l = repeat "0"%char (List.length l).
Proof.
  induction 1 as [|c l Hc Hl IH]; intro Hz; [reflexivity|].
  rewrite dec_value_cons in Hz.
  destruct (is_digit_facts c Hc) as [_ [Hr [_ [_ [_ [_ [_ [_ [_ [_ Hzero]]]]]]]]]].
  pose proof (dec_value_bounds l Hl) as Hb.
  assert (Hpow : 0 < 10 ^ Z.of_nat (List.length l))
    by (apply Z.pow_pos_nonneg; lia).
  assert (Hc0 : code c - 48 = 0) by nia.
  assert (Hl0 : dec_value l = 0) by nia.
  cbn. f_equal; [now apply Hzero | now apply IH].
Qed.

(** A numeral with a value other than zero is a run of zeros followed by
    the canonical numeral of that value. *)
Lemma leading_zeros (l : list ascii) :
  all_digits l -> dec_value l <> 0 ->
  exists (k : nat) (x : list ascii),
    l = (repeat "0"%char k ++ x)%list /\ canonical x /\
    dec_value x = dec_value l.
Proof.
  induction 1 as [|c l Hc Hl IH]; intro Hnz; [contradiction|].
  destruct (ascii_dec c "0") as [->|Hc0].
  - rewrite dec_value_cons in Hnz. change (code "0" - 48) with 0 in Hnz.
    destruct IH as [k [x [-> [Hx Hv]]]]; [lia|].
    exists (S k), x. split; [reflexivity|]. split; [exact Hx|].
    rewrite Hv. rewrite (dec_value_cons "0"). change (code "0" - 48) with 0.
    lia.
  - exists 0%nat, (c :: l). split; [reflexivity|]. split; [|reflexivity].
    split; [now constructor|]. right. now exists c, l.
Qed.

Lemma padStart_numeral (l : list ascii) (d : Z) :
  all_digits l -> dec_value l <> 0 -> Z.of_nat (List.length l) = d ->
  padStart (bigint_toString (dec_value l)) d "0" = str l.
Proof.
  intros Hl Hnz Hlen.
  destruct (leading_zeros l Hl Hnz) as [k [x [-> [Hx Hv]]]].
  rewrite <- Hv, bigint_toString_canonical by exact Hx.
  unfold padStart. rewrite chars_str. f_equal. f_equal.
  rewrite length_app, repeat_length in Hlen. f_equal. lia.
Qed.

Lemma drop_zeros_app (k : nat) (l : list ascii) :
  drop_while zero_char (repeat "0"%char k ++ l) = drop_while zero_char l.
Proof. induction k as [|k IH]; [reflexivity | exact IH]. Qed.

Lemma rev_repeat (c : ascii) (k : nat) : rev (repeat c k) = repeat c k.
Proof.
  induction k as [|k IH]; [reflexivity|]. cbn. rewrite IH.
  clear IH. induction k as [|k IH]; [reflexivity|]. cbn. now rewrite IH.
Qed.

Lemma trim_trailing_zeros_padded (l : list ascii) (k : nat) :
  trim_trailing_zeros (str (l ++ repeat "0"%char k)) =
  trim_trailing_zeros (str l).
Proof.
  unfold trim_trailing_zeros. rewrite !chars_str, rev_app_distr, rev_repeat.
  fold zero_char. now rewrite drop_zeros_app.
Qed.

Lemma drop_zeros_nil (m : list ascii) :
  drop_while zero_char m = [] <-> m = repeat "0"%char (List.length m).
Proof.
  induction m as [|c m IH]; [split; reflexivity|].
  cbn [drop_while List.length repeat]. unfold zero_char at 1.
  destruct (Ascii.eqb "0" c) eqn:E.
  - apply Ascii.eqb_eq in E. subst c. rewrite IH. split.
    + intro H. now f_equal.
    + intro H. now injection H.
  - apply Ascii.eqb_neq in E. split; [discriminate|].
    intro H. injection H as H _. now symmetry in H.
Qed.

Lemma trim_trailing_zeros_empty (l : list ascii) :
  trim_trailing_zeros (str l) = "" <-> l = repeat "0"%char (List.length l).
Proof.
  unfold trim_trailing_zeros. rewrite chars_str. fold zero_char.
  rewrite <- chars_nil_iff, chars_str. split.
  - intro H. apply (f_equal (@rev ascii)) in H.
    rewrite rev_involutive in H. cbn in H.
    apply drop_zeros_nil in H. rewrite length_rev in H.
    apply (f_equal (@rev ascii)) in H.
    now rewrite rev_involutive, rev_repeat in H.
  - intro H. replace (drop_while zero_char (rev l)) with (@nil ascii);
      [reflexivity|].
    symmetry. apply drop_zeros_nil. rewrite length_rev.
    rewrite H at 1. apply rev_repeat.
Qed.

(** The round trip of a numeral given by its integer digits [i] and its
    padded fraction digits: [formatUnits] gives back the integer part and
    the fraction without its trailing zeros. *)
Lemma formatUnits_scaled (i f : list ascii) (d : Z) :
  canonical i -> all_digits f -> Z.of_nat (List.length f) <= d <= 22 ->
  let padded := (f ++ repeat "0"%char (Z.to_nat d - List.length f))%list in
  formatUnits (OfBigInt (dec_value (i ++ padded))) d =
  Ok (if (trim_trailing_zeros (str f) =? "")%string then str i
      else str i ++ "." ++ trim_trailing_zeros (str f)).
Proof.
  intros Hi Hf Hd padded.
  assert (Hpd : all_digits padded).
  { apply Forall_app. split; [exact Hf | apply all_digits_zeros]. }
  assert (Hplen : Z.of_nat (List.length padded) = d).
  { unfold padded. rewrite length_app, repeat_length. lia. }
  pose proof (dec_value_bounds padded Hpd) as Hpb. rewrite Hplen in Hpb.
  destruct Hi as [Hid Hishape].
  pose proof (dec_value_bounds i Hid) as Hib.
  assert (Hpow : 0 < 10 ^ d) by (apply Z.pow_pos_nonneg; lia).
  unfold formatUnits. rewrite BigInt_pow10_exact by lia.
  rewrite dec_value_app, Hplen.
  rewrite Z.quot_div_nonneg, Z.rem_mod_nonneg by nia.
  rewrite Z.div_add_l, Z.div_small, Z.add_0_r by lia.
  rewrite Z.add_comm, Z.mod_add, Z.mod_small by lia.
  rewrite (bigint_toString_canonical i) by (split; assumption).
  assert (Htrim : trim_trailing_zeros (str padded) = trim_trailing_zeros (str f)).
  { apply trim_trailing_zeros_padded. }
  destruct (dec_value padded =? 0) eqn:Ez.
  - apply Z.eqb_eq in Ez.
    apply (dec_value_zero_zeros padded Hpd) in Ez.
    apply trim_trailing_zeros_empty in Ez. rewrite Htrim in Ez.
    now rewrite Ez.
  - apply Z.eqb_neq in Ez.
    rewrite padStart_numeral by assumption. rewrite Htrim.
    destruct (trim_trailing_zeros (str f) =? "")%string eqn:Et; [|reflexivity].
    exfalso. apply String.eqb_eq in Et. rewrite <- Htrim in Et.
    apply trim_trailing_zeros_empty in Et. apply Ez.
    rewrite Et. apply dec_value_zeros.
Qed.

(** C2, as amended.  For a numeral without sign whose integer part [i] is
    canonical and whose fraction [f] has at most [d <= 22] digits,
    [parseUnits] returns the exact scaled integer and [formatUnits] of that
    integer is the numeral with the trailing zeros of its fraction
    trimmed. *)
Theorem units_roundtrip (i f s : string) (d : Z) :
  canonical (chars i) -> all_digits (chars f) ->
  strlen f <= d -> d <= 22 ->
  s = i ++ "." ++ f \/ (s = i /\ f = "") ->
  let n := dec_value (chars i) * 10 ^ d
           + dec_value (chars f) * 10 ^ (d - strlen f) in
  parseUnits s d = Ok n /\
  formatUnits (OfBigInt n) d = Ok (normalize_decimal s).
Proof.
  intros Hi Hf Hlen Hd Hs n. unfold strlen in *.
  assert (Hd0 : 0 <= d) by lia.
  assert (Hne : i <> "").
  { intros ->. destruct Hi as [_ [H|[c [r [H _]]]]]; discriminate. }
  set (padded := (chars f ++
                  repeat "0"%char (Z.to_nat d - List.length (chars f)))%list).
  assert (Hplen : List.length padded = Z.to_nat d).
  { unfold padded. rewrite length_app, repeat_length, length_chars. lia. }
  assert (Hcut : firstn (Z.to_nat d) padded = padded).
  { apply firstn_all2. lia. }
  assert (Hn : dec_value (chars i ++ padded) = n).
  { unfold n, padded. rewrite !dec_value_app, dec_value_zeros.
    rewrite length_app, !repeat_length, length_chars.
    replace (Z.of_nat (String.length f + (Z.to_nat d - String.length f)))
      with d by lia.
    replace (Z.of_nat (Z.to_nat d - String.length f))
      with (d - Z.of_nat (String.length f)) by lia.
    lia. }
  destruct (parseUnits_parts i f d (proj1 Hi) Hne Hf Hd0) as [Hdot Hplain].
  fold padded in Hdot, Hplain. rewrite Hcut, Hn in Hdot, Hplain.
  pose proof (formatUnits_scaled (chars i) (chars f) d Hi Hf) as Hfmt.
  rewrite length_chars in Hfmt. specialize (Hfmt ltac:(lia)).
  cbv zeta in Hfmt. rewrite <- length_chars in Hfmt. fold padded in Hfmt.
  rewrite Hn, !str_chars in Hfmt.
  destruct Hs as [->|[-> ->]].
  - split; [exact Hdot|]. rewrite Hfmt. unfold normalize_decimal.
    rewrite split_integer_fraction by (exact Hf || exact (proj1 Hi)).
    reflexivity.
  - split; [now apply Hplain|]. rewrite Hfmt. unfold normalize_decimal.
    rewrite split_integer_only by exact (proj1 Hi). reflexivity.
Qed.

Lemma units_roundtrip_witness :
  parseUnits "12.50" 9 = Ok 12500000000 /\
  formatUnits (OfBigInt 12500000000) 9 = Ok "12.5".
Proof.
  apply (units_roundtrip "12" "50" "12.50" 9).
  - split; [repeat constructor|]. right. exists "1"%char, ["2"%char].
    split; [reflexivity | discriminate].
  - repeat constructor.
  - vm_compute. discriminate.
  - lia.
  - left. reflexivity.
Defined.

(** C2, as stated, fails: a sign comes back twice, a leading zero is lost,
    and beyond 22 decimals the divisor [BigInt(10 ** d)] is no power of
    ten. *)
Lemma units_roundtrip_counterexample :
  (parseUnits "-1.5" 1 = Ok (-15) /\
   formatUnits (OfBigInt (-15)) 1 = Ok "-1.-5" /\
   formatUnits (OfBigInt (-15)) 1 <> Ok (normalize_decimal "-1.5")) /\
  (parseUnits "01.5" 1 = Ok 15 /\
   formatUnits (OfBigInt 15) 1 = Ok "1.5" /\
   formatUnits (OfBigInt 15) 1 <> Ok (normalize_decimal "01.5")) /\
  (parseUnits "1" 24 = Ok (10 ^ 24) /\
   BigInt_pow10 24 = Some (10 ^ 24 - 16777216) /\
   formatUnits (OfBigInt (10 ^ 24)) 24 = Ok "1.000000000000000016777216" /\
   formatUnits (OfBigInt (10 ^ 24)) 24 <> Ok (normalize_decimal "1")).
Proof. vm_compute. repeat split; discriminate. Qed.

(** ** Validation comes before the request *)

Lemma formatPublicKey_invalid (key : value) :
  validatePublicKey key = false ->
  formatPublicKey key =
  Throw (SolanaValidationError "Invalid public key format" NoDetails).
Proof. intro H. unfold formatPublicKey. now rewrite H. Qed.

Lemma formatPublicKey_valid (key : value) :
  validatePublicKey key = true -> formatPublicKey key = Ok key.
Proof. intro H. unfold formatPublicKey. now rewrite H. Qed.

Lemma falsy_invalid (v : value) : falsy v = true -> validatePublicKey v = false.
Proof. intro H. unfold validatePublicKey. now rewrite H. Qed.

(** A valid public key is a string, so a template prints it as it is. *)
Lemma validatePublicKey_string (v : value) :
  validatePublicKey v = true -> exists s, v = VString s.
Proof.
  destruct v as [| |b|n|s|b|xs|fields];
    try (intros _; now exists s); unfold validatePublicKey; cbn;
    try discriminate.
  - now destruct b.
  - now destruct (falsy (VNumber n)).
Qed.

Lemma to_string_valid (v : value) :
  validatePublicKey v = true -> exists s, to_string v = Ok s.
Proof.
  intro H. destruct (validatePublicKey_string v H) as [s ->]. now exists s.
Qed.

(** A failed check of a manager ends the operation with the
    ValidationError of that check and an empty log. *)
Ltac validation_failure :=
  unfold run_op, try_catch;
  repeat match goal with
         | |- context [falsy ?x] => destruct (falsy x) eqn:?
         end;
  repeat match goal with
         | |- context [validatePublicKey ?x] =>
             destruct (validatePublicKey x) eqn:?
         end;
  cbn in *; try discriminate; eexists; reflexivity.
Section NFTValidation.
Variable this : SolanaNFTManager.t.
Variable w : world.

Lemma NFT_createNFT_validates (metadata owner : value) :
  validatePublicKey owner = false ->
  exists message,
    run_op (SolanaNFTManager.createNFT this metadata owner) w =
    ([], Throw (SolanaValidationError message NoDetails)).
Proof.
  intro H. unfold SolanaNFTManager.createNFT. validation_failure.
Qed.

Lemma NFT_getNFT_validates (mint : value) :
  validatePublicKey mint = false ->
  exists message,
    run_op (SolanaNFTManager.getNFT this mint) w =
    ([], Throw (SolanaValidationError message NoDetails)).
Proof.
  intro H. unfold SolanaNFTManager.getNFT. validation_failure.
Qed.

Lemma NFT_transferNFT_validates (mint from to : value) :
  validatePublicKey mint && validatePublicKey from && validatePublicKey to = false ->
  exists message,
    run_op (SolanaNFTManager.transferNFT this mint from to) w =
    ([], Throw (SolanaValidationError message NoDetails)).
Proof.
  intro H. unfold SolanaNFTManager.transferNFT. validation_failure.
Qed.

Lemma NFT_getOwnerNFTs_validates (owner : value) :
  validatePublicKey owner = false ->
  exists message,
    run_op (SolanaNFTManager.getOwnerNFTs this owner) w =
    ([], Throw (SolanaValidationError message NoDetails)).
Proof.
  intro H. unfold SolanaNFTManager.getOwnerNFTs. validation_failure.
Qed.

Lemma NFT_getCollectionNFTs_validates (collection : value) :
  validatePublicKey collection = false ->
  exists message,
    run_op (SolanaNFTManager.getCollectionNFTs this collection) w =
    ([], Throw (SolanaValidationError message NoDetails)).
Proof.
  intro H. unfold SolanaNFTManager.getCollectionNFTs. validation_failure.
Qed.

Lemma NFT_updateNFTMetadata_validates (mint metadata : value) :
  validatePublicKey mint = false ->
  exists message,
    run_op (SolanaNFTManager.updateNFTMetadata this mint metadata) w =
    ([], Throw (SolanaValidationError message NoDetails)).
Proof.
  intro H. unfold SolanaNFTManager.updateNFTMetadata. validation_failure.
Qed.

Lemma NFT_burnNFT_validates (mint owner : value) :
  validatePublicKey mint && validatePublicKey owner = false ->
  exists message,
    run_op (SolanaNFTManager.burnNFT this mint owner) w =
    ([], Throw (SolanaValidationError message NoDetails)).
Proof.
  intro H. unfold SolanaNFTManager.burnNFT. validation_failure.
Qed.

Lemma NFT_createCollection_validates (collection creator : value) :
  validatePublicKey creator = false ->
  exists message,
    run_op (SolanaNFTManager.createCollection this collection creator) w =
    ([], Throw (SolanaValidationError message NoDetails)).
Proof.
  intro H. unfold SolanaNFTManager.createCollection. validation_failure.
Qed.

Lemma NFT_listNFT_validates (mint price seller marketplace : value) :
  validatePublicKey mint && validatePublicKey seller = false ->
  exists message,
    run_op (SolanaNFTManager.listNFT this mint price seller marketplace) w =
    ([], Throw (SolanaValidationError message NoDetails)).
Proof.
  intro H. unfold SolanaNFTManager.listNFT. validation_failure.
Qed.

Lemma NFT_unlistNFT_validates (mint seller : value) :
  validatePublicKey mint && validatePublicKey seller = false ->
  exists message,
    run_op (SolanaNFTManager.unlistNFT this mint seller) w =
    ([], Throw (SolanaValidationError message NoDetails)).
Proof.
  intro H. unfold SolanaNFTManager.unlistNFT. validation_failure.
Qed.

Lemma NFT_buyNFT_validates (mint buyer price : value) :
  validatePublicKey mint && validatePublicKey buyer = false ->
  exists message,
    run_op (SolanaNFTManager.buyNFT this mint buyer price) w =
    ([], Throw (SolanaValidationError message NoDetails)).
Proof.
  intro H. unfold SolanaNFTManager.buyNFT. validation_failure.
Qed.

End NFTValidation.

Section DeFiValidation.
Variable this : SolanaDeFiManager.t.
Variable w : world.

Lemma DeFi_getPositions_validates (owner : value) :
  validatePublicKey owner = false ->
  exists message,
    run_op (SolanaDeFiManager.getPositions this owner) w =
    ([], Throw (SolanaValidationError message NoDetails)).
Proof.
  intro H. unfold SolanaDeFiManager.getPositions. validation_failure.
Qed.

Lemma DeFi_addLiquidity_validates (poolAddress amountA amountB owner
    : value) :
  validatePublicKey poolAddress && validatePublicKey owner = false ->
  exists message,
    run_op (SolanaDeFiManager.addLiquidity this poolAddress amountA amountB
              owner) w =
    ([], Throw (SolanaValidationError message NoDetails)).
Proof.
  intro H. unfold SolanaDeFiManager.addLiquidity. validation_failure.
Qed.

Lemma DeFi_removeLiquidity_validates (poolAddress lpTokens owner : value) :
  validatePublicKey poolAddress && validatePublicKey owner = false ->
  exists message,
    run_op (SolanaDeFiManager.removeLiquidity this poolAddress lpTokens owner) w =
    ([], Throw (SolanaValidationError message NoDetails)).
Proof.
  intro H. unfold SolanaDeFiManager.removeLiquidity. validation_failure.
Qed.

Lemma DeFi_swapTokens_validates (inputMint outputMint amountIn minAmountOut
    owner : value) :
  validatePublicKey inputMint && validatePublicKey outputMint &&
  validatePublicKey owner = false ->
  exists message,
    run_op (SolanaDeFiManager.swapTokens this inputMint outputMint amountIn
              minAmountOut owner) w =
    ([], Throw (SolanaValidationError message NoDetails)).
Proof.
  intro H. unfold SolanaDeFiManager.swapTokens. validation_failure.
Qed.

Lemma DeFi_supplyLiquidity_validates (poolAddress amount owner : value) :
  validatePublicKey poolAddress && validatePublicKey owner = false ->
  exists message,
    run_op (SolanaDeFiManager.supplyLiquidity this poolAddress amount owner) w =
    ([], Throw (SolanaValidationError message NoDetails)).
Proof.
  intro H. unfold SolanaDeFiManager.supplyLiquidity. validation_failure.
Qed.

Lemma DeFi_borrowLiquidity_validates (poolAddress amount owner : value) :
  validatePublicKey poolAddress && validatePublicKey owner = false ->
  exists message,
    run_op (SolanaDeFiManager.borrowLiquidity this poolAddress amount owner) w =
    ([], Throw (SolanaValidationError message NoDetails)).
Proof.
  intro H. unfold SolanaDeFiManager.borrowLiquidity. validation_failure.
Qed.

Lemma DeFi_repayLiquidity_validates (poolAddress amount owner : value) :
  validatePublicKey poolAddress && validatePublicKey owner = false ->
  exists message,
    run_op (SolanaDeFiManager.repayLiquidity this poolAddress amount owner) w =
    ([], Throw (SolanaValidationError message NoDetails)).
Proof.
  intro H. unfold SolanaDeFiManager.repayLiquidity. validation_failure.
Qed.

Lemma DeFi_stakeTokens_validates (poolAddress amount owner : value) :
  validatePublicKey poolAddress && validatePublicKey owner = false ->
  exists message,
    run_op (SolanaDeFiManager.stakeTokens this poolAddress amount owner) w =
    ([], Throw (SolanaValidationError message NoDetails)).
Proof.
  intro H. unfold SolanaDeFiManager.stakeTokens. validation_failure.
Qed.

Lemma DeFi_unstakeTokens_validates (poolAddress amount owner : value) :
  validatePublicKey poolAddress && validatePublicKey owner = false ->
  exists message,
    run_op (SolanaDeFiManager.unstakeTokens this poolAddress amount owner) w =
    ([], Throw (SolanaValidationError message NoDetails)).
Proof.
  intro H. unfold SolanaDeFiManager.unstakeTokens. validation_failure.
Qed.

Lemma DeFi_claimRewards_validates (poolAddress owner : value) :
  validatePublicKey poolAddress && validatePublicKey owner = false ->
  exists message,
    run_op (SolanaDeFiManager.claimRewards this poolAddress owner) w =
    ([], Throw (SolanaValidationError message NoDetails)).
Proof.
  intro H. unfold SolanaDeFiManager.claimRewards. validation_failure.
Qed.

Lemma DeFi_farmYield_validates (farmAddress amount owner : value) :
  validatePublicKey farmAddress && validatePublicKey owner = false ->
  exists message,
    run_op (SolanaDeFiManager.farmYield this farmAddress amount owner) w =
    ([], Throw (SolanaValidationError message NoDetails)).
Proof.
  intro H. unfold SolanaDeFiManager.farmYield. validation_failure.
Qed.

Lemma DeFi_harvestYield_validates (farmAddress owner : value) :
  validatePublicKey farmAddress && validatePublicKey owner = false ->
  exists message,
    run_op (SolanaDeFiManager.harvestYield this farmAddress owner) w =
    ([], Throw (SolanaValidationError message NoDetails)).
Proof.
  intro H. unfold SolanaDeFiManager.harvestYield. validation_failure.
Qed.

End DeFiValidation.

(** ** The facade: what happens to a typed error *)

Section Facade.
Variable this : LicenseChainSolana.t.
Variable w : world.

(** [getAccount] hands the ValidationError on as it is. *)
Lemma getAccount_invalid (key : value) :
  validatePublicKey key = false ->
  run_op (LicenseChainSolana.getAccount this key) w =
  ([], Throw invalid_key_error).
Proof.
  intro H. unfold LicenseChainSolana.getAccount, run_op, try_catch, bind, lift.
  now rewrite (formatPublicKey_invalid key H).
Qed.

(** The other passthroughs that take an address catch it and throw the
    error of their own kind, with the ValidationError as [details]. *)
Lemma getBalance_invalid (key : value) :
  validatePublicKey key = false ->
  run_op (LicenseChainSolana.getBalance this key) w =
  ([], Throw (SolanaAccountError "Failed to get balance" key
                                 (Cause invalid_key_error))).
Proof.
  intro H. unfold LicenseChainSolana.getBalance, run_op, try_catch, bind, lift.
  now rewrite (formatPublicKey_invalid key H).
Qed.

Lemma getTokenAccounts_invalid (owner mint : value) :
  validatePublicKey owner = false \/
  (truthy mint = true /\ validatePublicKey mint = false) ->
  run_op (LicenseChainSolana.getTokenAccounts this owner mint) w =
  ([], Throw (SolanaAccountError "Failed to get token accounts" owner
                                 (Cause invalid_key_error))).
Proof.
  intro H.
  unfold LicenseChainSolana.getTokenAccounts, run_op, try_catch, bind, lift.
  destruct (validatePublicKey owner) eqn:Eo.
  - destruct H as [H|[Ht Hm]]; [discriminate|].
    rewrite (formatPublicKey_valid owner Eo), Ht. unfold bind, lift.
    now rewrite (formatPublicKey_invalid mint Hm).
  - now rewrite (formatPublicKey_invalid owner Eo).
Qed.

Lemma getProgram_invalid (programId : value) :
  validatePublicKey programId = false ->
  run_op (LicenseChainSolana.getProgram this programId) w =
  ([], Throw (SolanaAccountError "Failed to get program" programId
                                 (Cause invalid_key_error))).
Proof.
  intro H. unfold LicenseChainSolana.getProgram, run_op, try_catch, bind, lift.
  now rewrite (formatPublicKey_invalid programId H).
Qed.

Lemma getStakeAccounts_invalid (owner : value) :
  validatePublicKey owner = false ->
  run_op (LicenseChainSolana.getStakeAccounts this owner) w =
  ([], Throw (SolanaError "Failed to get stake accounts" "STAKE_ERROR"
                          (Cause invalid_key_error))).
Proof.
  intro H.
  unfold LicenseChainSolana.getStakeAccounts, run_op, try_catch, bind, lift.
  now rewrite (formatPublicKey_invalid owner H).
Qed.
End Facade.

(** The same on a typed error from further inside: the NetworkError that
    the request helper raises for a response that is not ok reaches the
    caller of a manager as it is, and the caller of [getBalance] as the
    [details] of an AccountError. *)
Section HttpFailure.
Variable w : world.
Variable ms : Z.
Variable answer : response.
Variable key : value.

Hypothesis valid_key : validatePublicKey key = true.
Hypothesis answered : forall req, w [] req = Ok answer.
Hypothesis not_ok : ok answer = false.

Lemma getPositions_http_failure (this : SolanaDeFiManager.t) :
  AbortSignal_timeout (timeout (SolanaDeFiManager.config this)) = Ok ms ->
  result_of (SolanaDeFiManager.getPositions this key) w = Throw (http_error answer).
Proof.
  intro signal.
  assert (Hf : falsy key = false).
  { destruct (falsy key) eqn:E; [|reflexivity].
    apply falsy_invalid in E. congruence. }
  destruct (to_string_valid key valid_key) as [s Hs].
  unfold result_of, SolanaDeFiManager.getPositions, run_op, try_catch.
  rewrite Hf, valid_key. cbn [negb].
  unfold bind, SolanaDeFiManager.makeRequest, bind, lift.
  rewrite Hs, signal.
  unfold try_catch, bind, fetch, transmit. cbn [req_body truthy].
  rewrite answered, not_ok. reflexivity.
Qed.

Lemma getBalance_http_failure (this : LicenseChainSolana.t) :
  AbortSignal_timeout (timeout (LicenseChainSolana.config this)) = Ok ms ->
  result_of (LicenseChainSolana.getBalance this key) w =
  Throw (SolanaAccountError "Failed to get balance" key (Cause (http_error answer))).
Proof.
  intro signal.
  unfold result_of, LicenseChainSolana.getBalance, run_op, try_catch, bind, lift.
  rewrite (formatPublicKey_valid key valid_key).
  unfold LicenseChainSolana.makeRPCRequest, bind, lift. rewrite signal.
  unfold try_catch, bind, fetch, transmit. cbn [req_body req_method].
  cbn [String.eqb Ascii.eqb Bool.eqb orb]. rewrite answered, not_ok.
  reflexivity.
Qed.
End HttpFailure.

(** C1.  [getBalance] does not re-throw a typed error unchanged: for the key
    "bad" the ValidationError of the local check comes out as an
    AccountError with code ACCOUNT_ERROR and the ValidationError in
    [details], where [getAccount] and the managers ([getPositions]) hand the
    ValidationError itself to the caller. *)
Theorem getBalance_rewraps_typed_error (this : LicenseChainSolana.t)
    (manager : SolanaDeFiManager.t) (w : world) :
  let bad := VString "bad" in
  (exists error,
     result_of (LicenseChainSolana.getBalance this bad) w = Throw error /\
     kind_of error = Some KAccount /\
     code_of error = Some "ACCOUNT_ERROR" /\
     details_of error = Cause invalid_key_error /\
     error <> invalid_key_error) /\
  kind_of invalid_key_error = Some KValidation /\
  code_of invalid_key_error = Some "VALIDATION_ERROR" /\
  result_of (LicenseChainSolana.getAccount this bad) w =
    Throw invalid_key_error /\
  (exists error,
     result_of (SolanaDeFiManager.getPositions manager bad) w = Throw error /\
     kind_of error = Some KValidation /\
     code_of error = Some "VALIDATION_ERROR").
Proof.
  intro bad. split.
  - eexists. unfold result_of.
    rewrite (getBalance_invalid this w bad eq_refl). cbn.
    repeat split. discriminate.
  - split; [reflexivity|]. split; [reflexivity|]. split.
    + unfold result_of. now rewrite (getAccount_invalid this w bad eq_refl).
    + eexists. unfold result_of. cbn. repeat split.
Qed.

(** C4.  [getTokenAccounts] checks the owner before anything is sent, but
    what it raises for a malformed owner is an AccountError that holds the
    ValidationError, not a ValidationError; no request is issued.  The
    managers do what the claim says: [transferNFT] with the mint "bad-mint"
    raises the ValidationError and issues no request. *)
Theorem getTokenAccounts_hides_validation_error
    (this : LicenseChainSolana.t) (nft : SolanaNFTManager.t) (w : world)
    (validFrom validTo : value) :
  let owner := VString "bad-owner" in
  run_op (LicenseChainSolana.getTokenAccounts this owner VUndefined) w =
    ([], Throw (SolanaAccountError "Failed to get token accounts" owner
                                   (Cause invalid_key_error))) /\
  kind_of (SolanaAccountError "Failed to get token accounts" owner
                              (Cause invalid_key_error)) <> Some KValidation /\
  exists message,
    run_op (SolanaNFTManager.transferNFT nft (VString "bad-mint")
                                         validFrom validTo) w =
    ([], Throw (SolanaValidationError message NoDetails)).
Proof.
  intro owner. split.
  - apply getTokenAccounts_invalid. now left.
  - split; [discriminate|].
    apply NFT_transferNFT_validates. reflexivity.
Qed.

(** ** getAccount against an answering endpoint *)

Lemma get_truthy (v : value) (k : string) :
  truthy v = true -> get v k = Ok (field v k).
Proof. unfold field. destruct v; cbn; intro H; try discriminate; reflexivity. Qed.

Section GetAccount.
Variable this : LicenseChainSolana.t.
Variable w : world.
Variable key : value.
Variable ms : Z.
Variable answer : response.
Variables data error v : value.

Hypothesis valid_key : validatePublicKey key = true.
Hypothesis signal :
  AbortSignal_timeout (timeout (LicenseChainSolana.config this)) = Ok ms.
Hypothesis answered : forall req, w [] req = Ok answer.
Hypothesis answer_ok : ok answer = true.
Hypothesis answer_json : json answer = Ok data.
Hypothesis error_field : get data "error" = Ok error.
Hypothesis no_error : truthy error = false.
Hypothesis value_field : get data "value" = Ok v.

Lemma makeRPCRequest_answered (method : string) (params : list value) :
  exists req,
    run_op (LicenseChainSolana.makeRPCRequest this method params) w =
    ([req], Ok data) /\
    req_method req = "POST" /\
    req_body req =
      Some (object_literal
              [("jsonrpc", VString "2.0"); ("id", VNumber 1);
               ("method", VString method); ("params", VArray params)]).
Proof.
  eexists. unfold LicenseChainSolana.makeRPCRequest, run_op, bind, lift.
  rewrite signal. unfold try_catch, bind, fetch, transmit.
  cbn [req_body req_method].
  cbn [String.eqb Ascii.eqb Bool.eqb orb]. rewrite answered, answer_ok.
  cbn [negb]. unfold lift. rewrite answer_json, error_field, no_error.
  unfold ret. cbn [app]. split; [reflexivity|]. split; reflexivity.
Qed.

Lemma getAccount_answered :
  run_op (LicenseChainSolana.getAccount this key) w =
  (fst (run_op (LicenseChainSolana.makeRPCRequest this "getAccountInfo"
                  [key]) w),
   if falsy v then Throw (account_not_found key) else Ok (account_of key v)).
Proof.
  destruct (makeRPCRequest_answered "getAccountInfo" [key])
    as [req [Hrun _]].
  rewrite Hrun. unfold run_op in Hrun.
  unfold LicenseChainSolana.getAccount, run_op, try_catch, bind, lift.
  rewrite (formatPublicKey_valid key valid_key), Hrun, value_field.
  unfold falsy. destruct (truthy v) eqn:Ev; cbn [negb].
  - unfold account_of. rewrite !(get_truthy v) by exact Ev. reflexivity.
  - reflexivity.
Qed.

End GetAccount.

Lemma to_string_throws (v : value) :
  forall e, to_string v = Throw e -> e = NativeError "TypeError".
Proof.
  induction v as [| |b|n|s|b|xs IH|fields _] using value_nested_ind;
    intros e H; try discriminate H.
  - destruct b; discriminate H.
  - cbn [to_string] in H.
    match type of H with
    | match ?elements xs with _ => _ end = _ =>
        assert (Hparts : forall e', elements xs = Throw e' ->
                                    e' = NativeError "TypeError")
    end.
    { clear H. induction IH as [|x r Hx _ IHr]; intros e' H;
        [discriminate H|].
      destruct x; cbn in H;
        try (match type of H with
             | match ?rest with _ => _ end = _ =>
                 destruct rest eqn:Er; [discriminate H|];
                 injection H as <-; now apply IHr
             end).
      - destruct b;
          match type of H with
          | match ?rest with _ => _ end = _ =>
              destruct rest eqn:Er; [discriminate H|];
              injection H as <-; now apply IHr
          end.
      - match type of H with
        | match ?first with _ => _ end = _ =>
            destruct first eqn:Ef
        end.
        + match type of H with
          | match ?rest with _ => _ end = _ =>
              destruct rest eqn:Er; [discriminate H|];
              injection H as <-; now apply IHr
          end.
        + injection H as <-. now apply Hx.
      - match type of H with
        | match ?first with _ => _ end = _ =>
            destruct first eqn:Ef
        end.
        + match type of H with
          | match ?rest with _ => _ end = _ =>
              destruct rest eqn:Er; [discriminate H|];
              injection H as <-; now apply IHr
          end.
        + injection H as <-. now apply Hx. }
    match type of H with
    | match ?elements xs with _ => _ end = _ =>
        destruct (elements xs) eqn:E; [discriminate H|]
    end.
    injection H as <-. now apply Hparts.
  - cbn in H. destruct (lookup "toString" fields); [|discriminate H].
    now injection H as <-.
Qed.

Lemma error_message_throws (v : value) (e : exn) :
  error_message v = Throw e -> instanceof_SolanaError e = false.
Proof.
  intro H.
  assert (He : e = NativeError "TypeError").
  { destruct v; try discriminate H; now apply (to_string_throws _ _ H). }
  now subst.
Qed.

Lemma get_defined (v : value) (k : string) :
  v <> VNull -> v <> VUndefined -> get v k = Ok (field v k).
Proof.
  intros Hn Hu. unfold field. destruct v; try reflexivity; contradiction.
Qed.

(** C6, as amended.  For a valid key and an endpoint that answers with a
    JSON body, [getAccount] sends one JSON-RPC request for
    [getAccountInfo].  A body that is [null] ends in the NetworkError "RPC
    request failed", since nothing can be read from it.  Of any other body
    the [error] is looked at first: one that counts as true ends in the
    RPCError made from it (or, when its [message] cannot be turned into a
    string, in the NetworkError).  Without such an [error], when the
    [value] of the body is missing, [null] or anything else that counts as
    false (0, [false], the empty string) the AccountError "Account not
    found" is raised for that key, whose code is ACCOUNT_ERROR; otherwise
    the account read off the [value] is returned. *)
Theorem getAccount_value_protocol (this : LicenseChainSolana.t) (w : world)
    (key : value) (ms : Z) (answer : response) (data : value) :
  validatePublicKey key = true ->
  AbortSignal_timeout (timeout (LicenseChainSolana.config this)) = Ok ms ->
  (forall req, w [] req = Ok answer) ->
  ok answer = true ->
  json answer = Ok data ->
  (exists req,
     requests_of (LicenseChainSolana.getAccount this key) w = [req] /\
     req_body req =
       Some (object_literal
               [("jsonrpc", VString "2.0"); ("id", VNumber 1);
                ("method", VString "getAccountInfo");
                ("params", VArray [key])])) /\
  (data = VNull \/ data = VUndefined ->
   result_of (LicenseChainSolana.getAccount this key) w =
     Throw (SolanaNetworkError "RPC request failed"
                               (Cause (NativeError "TypeError")))) /\
  (data <> VNull -> data <> VUndefined ->
   let error := field data "error" in
   let v := field data "value" in
   (truthy error = true ->
    result_of (LicenseChainSolana.getAccount this key) w =
      match error_message (field error "message") with
      | Ok text =>
          Throw (SolanaRPCError text (field error "code") (Payload error))
      | Throw e =>
          Throw (SolanaNetworkError "RPC request failed" (Cause e))
      end) /\
   (truthy error = false -> truthy v = false ->
    result_of (LicenseChainSolana.getAccount this key) w =
      Throw (account_not_found key)) /\
   (truthy error = false -> truthy v = true ->
    result_of (LicenseChainSolana.getAccount this key) w =
      Ok (account_of key v))) /\
  kind_of (account_not_found key) = Some KAccount /\
  code_of (account_not_found key) = Some "ACCOUNT_ERROR".
Proof.
  intros valid_key signal answered answer_ok answer_json.
  pose (req :=
          mkRequest
            (template (fun s => s) (rpcUrl (LicenseChainSolana.config this)))
            "POST"
            [("Content-Type", "application/json");
             ("Authorization",
              "Bearer " ++ apiKey (LicenseChainSolana.config this));
             ("X-API-Version", "1.0")]
            (Some (object_literal
                     [("jsonrpc", VString "2.0"); ("id", VNumber 1);
                      ("method", VString "getAccountInfo");
                      ("params", VArray [key])]))
            ms).
  assert (Hrun : forall rest : value -> M value,
            bind (LicenseChainSolana.makeRPCRequest this "getAccountInfo"
                    [key]) rest w [] =
            match get data "error" with
            | Throw e =>
                ([req],
                 Throw (if instanceof_SolanaError e then e
                        else SolanaNetworkError "RPC request failed"
                                                (Cause e)))
            | Ok error =>
                if truthy error
                then
                  ([req],
                   match error_message (field error "message") with
                   | Ok text =>
                       Throw (SolanaRPCError text (field error "code")
                                             (Payload error))
                   | Throw e =>
                       Throw (if instanceof_SolanaError e then e
                              else SolanaNetworkError "RPC request failed"
                                                      (Cause e))
                   end)
                else rest data w [req]
            end).
  { intro rest. unfold LicenseChainSolana.makeRPCRequest, bind, lift.
    rewrite signal. unfold try_catch, bind, fetch, transmit.
    cbn [req_body req_method String.eqb Ascii.eqb Bool.eqb orb].
    rewrite answered, answer_ok. cbn [negb]. unfold lift.
    rewrite answer_json. cbn [app].
    destruct (get data "error") as [error|e];
      [|now destruct (instanceof_SolanaError e)].
    destruct (truthy error) eqn:Et; [|reflexivity].
    rewrite !(get_truthy error) by exact Et.
    destruct (error_message (field error "message")) as [text|e];
      [reflexivity | now destruct (instanceof_SolanaError e)]. }
  assert (Hop : run_op (LicenseChainSolana.getAccount this key) w =
                try_catch
                  (bind (LicenseChainSolana.makeRPCRequest this
                           "getAccountInfo" [key])
                     (fun response =>
                        bind (lift (get response "value"))
                          (fun value =>
                             if falsy value
                             then throw (SolanaAccountError
                                           "Account not found" key NoDetails)
                             else
                               lift (build_object
                                       [("publicKey", Ok key);
                                        ("balance", get value "lamports");
                                        ("isExecutable",
                                         get value "executable");
                                        ("owner", get value "owner");
                                        ("lamports", get value "lamports")]
                                       []))))
                  (fun error =>
                     if instanceof_SolanaError error then throw error
                     else throw (SolanaAccountError "Failed to get account"
                                                    key (Cause error)))
                  w []).
  { unfold run_op, LicenseChainSolana.getAccount, try_catch.
    unfold bind at 1. unfold lift at 1.
    now rewrite (formatPublicKey_valid key valid_key). }
  unfold requests_of, result_of. rewrite Hop. unfold try_catch.
  rewrite Hrun. clear Hrun Hop.
  split; [|split; [|split; [|split; reflexivity]]].
  - exists req. split; [|reflexivity].
    assert (Hcaught : forall e,
              fst (let (log', r) :=
                     ([req],
                      @Throw value
                        (if instanceof_SolanaError e then e
                         else SolanaNetworkError "RPC request failed"
                                                 (Cause e))) in
                   match r with
                   | Ok a => (log', Ok a)
                   | Throw e' =>
                       (if instanceof_SolanaError e' then throw e'
                        else throw (SolanaAccountError
                                      "Failed to get account" key
                                      (Cause e'))) w log'
                   end) = [req]).
    { intro e. destruct (instanceof_SolanaError e) eqn:E; cbn;
        rewrite ?E; reflexivity. }
    destruct (get data "error") as [error|e]; [|apply Hcaught].
    destruct (truthy error).
    + destruct (error_message (field error "message")) as [text|e];
        [reflexivity | apply Hcaught].
    + unfold bind, lift.
      destruct (get data "value") as [v|e].
      * destruct (falsy v) eqn:Ef; [reflexivity|].
        unfold falsy in Ef. apply negb_false_iff in Ef.
        now rewrite !(get_truthy v) by exact Ef.
      * destruct (instanceof_SolanaError e) eqn:E; cbn; rewrite ?E;
          reflexivity.
  - intros [->| ->]; reflexivity.
  - intros Hnull Hundef. cbv zeta.
    set (error := field data "error"). set (v := field data "value").
    rewrite (get_defined data "error" Hnull Hundef). fold error.
    split; [|split].
    + intros Et. rewrite Et.
      destruct (error_message (field error "message")) as [text|e] eqn:Em;
        [reflexivity|].
      now rewrite (error_message_throws _ _ Em).
    + intros Et Ev. rewrite Et. unfold bind, lift.
      rewrite (get_defined data "value" Hnull Hundef). fold v.
      unfold falsy. now rewrite Ev.
    + intros Et Ev. rewrite Et. unfold bind, lift.
      rewrite (get_defined data "value" Hnull Hundef). fold v.
      unfold falsy. rewrite Ev. cbn [negb].
      unfold account_of. rewrite !(get_truthy v) by exact Ev. reflexivity.
Qed.

Lemma getAccount_value_protocol_witness :
  let data := VObject [("value", VNull)] in
  result_of (LicenseChainSolana.getAccount default_sdk token_program)
            (mock_rpc data) =
    Throw (account_not_found token_program) /\
  code_of (account_not_found token_program) = Some "ACCOUNT_ERROR".
Proof.
  intro data.
  pose proof (getAccount_value_protocol default_sdk (mock_rpc data)
                token_program 30000
                (mkResponse true 200 "OK" (Ok data)) data
                eq_refl eq_refl (fun _ => eq_refl) eq_refl eq_refl) as H.
  destruct H as [_ [_ [Hbody [_ Hcode]]]].
  split; [|exact Hcode].
  destruct (Hbody ltac:(discriminate) ltac:(discriminate))
    as [_ [Hmissing _]].
  now apply Hmissing.
Defined.

(** C6, as stated, fails: a [value] of 0 is neither missing nor [null], and
    no account is returned for it. *)
Lemma getAccount_value_counterexample :
  let data := VObject [("value", VNumber 0)] in
  get data "value" = Ok (VNumber 0) /\
  VNumber 0 <> VUndefined /\ VNumber 0 <> VNull /\
  result_of (LicenseChainSolana.getAccount default_sdk token_program)
            (mock_rpc data) =
    Throw (account_not_found token_program).
Proof. vm_compute. repeat split; discriminate. Qed.

(** ** Delegation *)

(** C7.  The facade built for a configuration holds one manager of each
    kind, built on the completed configuration, and each delegated
    operation is the operation of that manager on the arguments as they
    were given: the same requests and the same result against every
    network.  [addLiquidity] passes its three arguments in the order given,
    so the manager's fourth parameter is [undefined]. *)
Theorem facade_delegates (config : SolanaConfig) (w : world) (a b c : value) :
  let this := LicenseChainSolana.new config in
  let shared := LicenseChainSolana.merged config in
  let license := SolanaLicenseManager.new shared in
  let nft := SolanaNFTManager.new shared in
  let defi := SolanaDeFiManager.new shared in
  run_op (LicenseChainSolana.createLicense this a b c) w =
    run_op (SolanaLicenseManager.createLicense license a b c) w /\
  run_op (LicenseChainSolana.validateLicense this a) w =
    run_op (SolanaLicenseManager.validateLicense license a) w /\
  run_op (LicenseChainSolana.getLicense this a) w =
    run_op (SolanaLicenseManager.getLicense license a) w /\
  run_op (LicenseChainSolana.updateLicense this a b) w =
    run_op (SolanaLicenseManager.updateLicense license a b) w /\
  run_op (LicenseChainSolana.revokeLicense this a) w =
    run_op (SolanaLicenseManager.revokeLicense license a) w /\
  run_op (LicenseChainSolana.createNFT this a b) w =
    run_op (SolanaNFTManager.createNFT nft a b) w /\
  run_op (LicenseChainSolana.getNFT this a) w =
    run_op (SolanaNFTManager.getNFT nft a) w /\
  run_op (LicenseChainSolana.transferNFT this a b c) w =
    run_op (SolanaNFTManager.transferNFT nft a b c) w /\
  run_op (LicenseChainSolana.getDeFiPositions this a) w =
    run_op (SolanaDeFiManager.getPositions defi a) w /\
  run_op (LicenseChainSolana.addLiquidity this a b c) w =
    run_op (SolanaDeFiManager.addLiquidity defi a b c VUndefined) w /\
  run_op (LicenseChainSolana.removeLiquidity this a b c) w =
    run_op (SolanaDeFiManager.removeLiquidity defi a b c) w.
Proof. repeat split. Qed.

(** What the missing fourth argument does: the manager finds no owner, so
    [addLiquidity] of the facade ends in its ValidationError whatever it is
    given, and sends nothing. *)
Lemma facade_addLiquidity_never_sends (this : LicenseChainSolana.t)
    (w : world) (poolAddress amount owner : value) :
  run_op (LicenseChainSolana.addLiquidity this poolAddress amount owner) w =
  ([], Throw (SolanaValidationError
                "Pool address, amounts, and owner are required" NoDetails)).
Proof.
  unfold LicenseChainSolana.addLiquidity, SolanaDeFiManager.addLiquidity,
    run_op, try_catch.
  replace (falsy poolAddress || falsy amount || falsy owner || falsy VUndefined)
    with true by (cbn; now rewrite !orb_true_r).
  reflexivity.
Qed.


(** * Further properties *)

(** ** Writing numbers *)

Lemma digits_fuel_radix (fuel : nat) :
  forall n acc, digits_fuel fuel n acc = radix_digits_fuel 10 fuel n acc.
Proof.
  induction fuel as [|fuel IH]; intros n acc; cbn; [reflexivity|].
  now rewrite IH.
Qed.

Lemma digits_of_radix (n : Z) : digits_of n = radix_digits 10 n.
Proof. apply digits_fuel_radix. Qed.

Lemma radix_digits_fuel_step (radix : Z) (fuel : nat) (n : Z)
    (acc : list ascii) :
  radix_digits_fuel radix (S fuel) n acc =
  if n <? radix then digit_char (n mod radix) :: acc
  else radix_digits_fuel radix fuel (n / radix)
                         (digit_char (n mod radix) :: acc).
Proof. reflexivity. Qed.

Lemma radix_digits_fuel_repr (radix : Z) (fuel : nat) :
  2 <= radix ->
  forall n acc,
    0 <= n < 2 ^ Z.of_nat (S fuel) ->
    exists ds, radix_repr radix n ds /\
               radix_digits_fuel radix (S fuel) n acc = (ds ++ acc)%list.
Proof.
  intro Hr. induction fuel as [|fuel IH]; intros n acc Hn;
    rewrite radix_digits_fuel_step;
    destruct (n <? radix) eqn:E;
    try (apply Z.ltb_lt in E; exists [digit_char n]; split;
         [constructor; lia | rewrite Z.mod_small by lia; reflexivity]).
  - apply Z.ltb_ge in E. change (2 ^ Z.of_nat 1) with 2 in Hn. lia.
  - apply Z.ltb_ge in E.
    assert (Hq : 0 <= n / radix < 2 ^ Z.of_nat (S fuel)).
    { split; [apply Z.div_pos; lia|].
      apply Z.div_lt_upper_bound; [lia|].
      rewrite (Nat2Z.inj_succ (S fuel)), Z.pow_succ_r in Hn by lia.
      assert (0 < 2 ^ Z.of_nat (S fuel)) by (apply Z.pow_pos_nonneg; lia).
      nia. }
    destruct (IH (n / radix) (digit_char (n mod radix) :: acc) Hq)
      as [ds [Hrepr Heq]].
    exists (ds ++ [digit_char (n mod radix)])%list. split.
    + now constructor.
    + rewrite Heq, <- app_assoc. reflexivity.
Qed.

Lemma radix_digits_repr (radix n : Z) :
  2 <= radix -> 0 <= n -> radix_repr radix n (radix_digits radix n).
Proof.
  intros Hr Hn. unfold radix_digits.
  destruct (radix_digits_fuel_repr radix (Z.to_nat (Z.log2 n)) Hr n [])
    as [ds [Hrepr Heq]].
  - split; [exact Hn|].
    rewrite Nat2Z.inj_succ, Z2Nat.id by apply Z.log2_nonneg.
    destruct (Z.eq_dec n 0) as [->|Hnz]; [cbn; lia|].
    apply Z.log2_spec. lia.
  - rewrite Heq, app_nil_r. exact Hrepr.
Qed.

Lemma digit_value_digit_char (radix d : Z) :
  0 <= d < radix -> radix <= 36 ->
  digit_value radix (digit_char d) = Some d.
Proof.
  intros Hd Hr.
  assert (Hk : exists k : nat, d = Z.of_nat k /\ (k < 36)%nat).
  { exists (Z.to_nat d). lia. }
  destruct Hk as [k [-> Hk]].
  assert (Hv : forall r, digit_value r (digit_char (Z.of_nat k)) =
                         if Z.of_nat k <? r then Some (Z.of_nat k) else None).
  { intro r.
    do 36 (destruct k as [|k]; [reflexivity|]). lia. }
  rewrite Hv. now replace (Z.of_nat k <? radix) with true
    by (symmetry; apply Z.ltb_lt; lia).
Qed.

Lemma digits_value_app (radix : Z) (x y : list ascii) :
  forall a,
    digits_value radix a (x ++ y) =
    match digits_value radix a x with
    | Some v => digits_value radix v y
    | None => None
    end.
Proof.
  induction x as [|c x IH]; intro a; cbn; [reflexivity|].
  destruct (digit_value radix c); [apply IH | reflexivity].
Qed.

(** What the notation of a number is like: it reads back as the number,
    has no more digits than the number needs, and starts with a digit
    other than zero unless the number is zero. *)
Lemma radix_repr_facts (radix n : Z) (ds : list ascii) :
  2 <= radix <= 36 -> radix_repr radix n ds ->
  0 <= n /\
  (forall a, digits_value radix a ds =
             Some (a * radix ^ Z.of_nat (List.length ds) + n)) /\
  n < radix ^ Z.of_nat (List.length ds) /\
  (0 < n -> radix ^ (Z.of_nat (List.length ds) - 1) <= n) /\
  (exists d r, ds = digit_char d :: r /\ 0 <= d < radix /\
               (0 < n -> 0 < d) /\ (n = 0 -> r = [])) /\
  Forall (fun c => exists d, 0 <= d < radix /\ c = digit_char d) ds.
Proof.
  intros Hr H. induction H as [n Hn|n ds Hn Hq IH].
  - split; [lia|]. split.
    { intro a. cbn. rewrite digit_value_digit_char by lia.
      f_equal. lia. }
    split; [cbn; lia|]. split; [cbn; lia|]. split.
    { exists n, []. repeat split; lia. }
    constructor; [exists n; split; [lia|reflexivity] | constructor].
  - destruct IH as [Hq0 [Hval [Hub [Hlb [[d [r [-> [Hd [Hpos Hzero]]]]] Hall]]]]].
    assert (Hm : 0 <= n mod radix < radix) by (apply Z.mod_pos_bound; lia).
    assert (Hdm : n = radix * (n / radix) + n mod radix)
      by (apply Z.div_mod; lia).
    assert (Hqpos : 0 < n / radix) by (apply Z.div_str_pos; lia).
    rewrite length_app. cbn [List.length] in *.
    replace (Z.of_nat (S (List.length r) + 1))
      with (Z.succ (Z.of_nat (S (List.length r)))) by lia.
    replace (Z.succ (Z.of_nat (S (List.length r))) - 1)
      with (Z.succ (Z.of_nat (S (List.length r)) - 1)) by lia.
    rewrite !Z.pow_succ_r by lia.
    assert (Hp : 0 < radix ^ Z.of_nat (S (List.length r)))
      by (apply Z.pow_pos_nonneg; lia).
    specialize (Hlb Hqpos).
    set (P := radix ^ Z.of_nat (S (List.length r))) in *.
    set (Q := radix ^ (Z.of_nat (S (List.length r)) - 1)) in *.
    set (q := n / radix) in *. set (m := n mod radix) in *.
    split; [lia|]. split.
    { intro a. rewrite digits_value_app, Hval. cbn.
      rewrite digit_value_digit_char by lia. f_equal. nia. }
    split; [nia|]. split; [intros _; nia|].
    split.
    { exists d, (r ++ [digit_char m])%list.
      split; [reflexivity|]. split; [exact Hd|]. split.
      - intros _. now apply Hpos.
      - intro Hz. lia. }
    apply Forall_app. split; [exact Hall|].
    constructor; [|constructor]. exists m. now split.
Qed.

Lemma decimal_digit_char (d : Z) :
  0 <= d < 10 ->
  is_digit (digit_char d) = true /\ (0 < d -> digit_char d <> "0"%char).
Proof.
  intro Hd.
  assert (Hk : exists k : nat, d = Z.of_nat k /\ (k < 10)%nat).
  { exists (Z.to_nat d). lia. }
  destruct Hk as [k [-> Hk]].
  do 10 (destruct k as [|k];
         [split; [reflexivity | intro; (lia || discriminate)]|]).
  lia.
Qed.

(** [bigint.toString()] of a number that is not negative is its canonical
    numeral. *)
Lemma digits_of_value (n : Z) :
  0 <= n ->
  canonical (digits_of n) /\ dec_value (digits_of n) = n /\
  n < 10 ^ Z.of_nat (List.length (digits_of n)) /\
  (0 < n -> 10 ^ (Z.of_nat (List.length (digits_of n)) - 1) <= n).
Proof.
  intro Hn. rewrite digits_of_radix.
  pose proof (radix_digits_repr 10 n ltac:(lia) Hn) as Hrepr.
  destruct (radix_repr_facts 10 n _ ltac:(lia) Hrepr)
    as [_ [Hval [Hub [Hlb [[d [r [Heq [Hd [Hpos Hzero]]]]] Hall]]]]].
  assert (Hdigits : all_digits (radix_digits 10 n)).
  { eapply Forall_impl; [|exact Hall].
    intros c [d' [Hd' ->]]. now apply decimal_digit_char. }
  split.
  { split; [exact Hdigits|].
    destruct (Z.eq_dec n 0) as [Hz|Hnz].
    - left. rewrite Heq, (Hzero Hz).
      f_equal.
      assert (Hone : n < 10 ^ 1) by lia.
      rewrite Heq, (Hzero Hz) in Hval. specialize (Hval 0). cbn in Hval.
      rewrite digit_value_digit_char in Hval by lia.
      injection Hval as Hv. replace d with 0 by lia. reflexivity.
    - right. exists (digit_char d), r. split; [exact Heq|].
      apply decimal_digit_char; [lia|]. apply Hpos. lia. }
  split.
  { specialize (Hval 0). rewrite (digits_value_dec _ Hdigits) in Hval.
    injection Hval as Hv. unfold dec_value. lia. }
  split; assumption.
Qed.

(** ** formatUnits followed by parseUnits *)

Lemma fixed_width_numeral (k : nat) :
  forall r, 0 <= r < 10 ^ Z.of_nat k ->
  exists p, all_digits p /\ List.length p = k /\ dec_value p = r.
Proof.
  induction k as [|k IH]; intros r Hr.
  - exists []. cbn in *. repeat split; [constructor | lia].
  - rewrite Nat2Z.inj_succ, Z.pow_succ_r in Hr by lia.
    destruct (IH (r / 10)) as [p [Hp [Hlen Hv]]].
    { split; [apply Z.div_pos; lia|].
      apply Z.div_lt_upper_bound; lia. }
    assert (Hm : 0 <= r mod 10 < 10) by (apply Z.mod_pos_bound; lia).
    destruct (decimal_digit_char (r mod 10) Hm) as [Hdig _].
    exists (p ++ [digit_char (r mod 10)])%list. split; [|split].
    + apply Forall_app. split; [exact Hp|]. now constructor.
    + rewrite length_app. cbn. lia.
    + rewrite dec_value_app, Hv. cbn [List.length].
      change (10 ^ Z.of_nat 1) with 10.
      destruct (is_digit_facts _ Hdig) as [Hval _].
      rewrite digit_value_digit_char in Hval by lia.
      injection Hval as Hval.
      replace (dec_value [digit_char (r mod 10)]) with (r mod 10)
        by (cbn; lia).
      pose proof (Z.div_mod r 10). lia.
Qed.

Lemma drop_zeros_split (m : list ascii) :
  exists k, m = (repeat "0"%char k ++ drop_while zero_char m)%list.
Proof.
  induction m as [|c m [k IH]]; [now exists 0%nat|].
  cbn [drop_while]. unfold zero_char at 1.
  destruct (Ascii.eqb "0" c) eqn:E.
  - apply Ascii.eqb_eq in E. subst c. exists (S k). cbn. now f_equal.
  - now exists 0%nat.
Qed.

Lemma trim_trailing_zeros_split (l : list ascii) :
  exists k, l = (chars (trim_trailing_zeros (str l)) ++ repeat "0"%char k)%list.
Proof.
  unfold trim_trailing_zeros. rewrite !chars_str. fold zero_char.
  destruct (drop_zeros_split (rev l)) as [k Hk]. exists k.
  apply (f_equal (@rev ascii)) in Hk.
  now rewrite rev_involutive, rev_app_distr, rev_repeat in Hk.
Qed.

Lemma format_then_parse (n d : Z) :
  0 <= n -> 0 <= d <= 22 ->
  exists s, formatUnits (OfBigInt n) d = Ok s /\ parseUnits s d = Ok n.
Proof.
  intros Hn Hd.
  assert (Hpow : 0 < 10 ^ d) by (apply Z.pow_pos_nonneg; lia).
  assert (Hq : 0 <= n / 10 ^ d) by (apply Z.div_pos; lia).
  assert (Hr : 0 <= n mod 10 ^ d < 10 ^ d) by (apply Z.mod_pos_bound; lia).
  destruct (digits_of_value _ Hq) as [Hcan [Hqv _]].
  set (i := digits_of (n / 10 ^ d)) in *.
  destruct (fixed_width_numeral (Z.to_nat d) (n mod 10 ^ d)) as [p [Hp [Hlen Hpv]]].
  { now rewrite Z2Nat.id by lia. }
  destruct (trim_trailing_zeros_split p) as [k Hk].
  set (f := chars (trim_trailing_zeros (str p))) in *.
  assert (Hf : all_digits f).
  { rewrite Hk in Hp. now apply Forall_app in Hp. }
  assert (Hklen : (Z.to_nat d - List.length f)%nat = k).
  { rewrite <- Hlen. rewrite Hk at 1. rewrite length_app, repeat_length. lia. }
  assert (Hflen : Z.of_nat (List.length f) <= d).
  { apply (f_equal (@List.length ascii)) in Hk.
    rewrite length_app, repeat_length in Hk. lia. }
  assert (Hvalue : dec_value (i ++ p) = n).
  { rewrite dec_value_app, Hqv, Hpv, Hlen, Z2Nat.id by lia.
    pose proof (Z.div_mod n (10 ^ d)). lia. }
  assert (Htrim : trim_trailing_zeros (str f) = str f).
  { assert (E1 : str f = trim_trailing_zeros (str p))
      by (unfold f; apply str_chars).
    pose proof (trim_trailing_zeros_padded f k) as E2.
    rewrite <- Hk in E2. congruence. }
  pose proof (formatUnits_scaled i f d Hcan Hf ltac:(lia)) as Hfmt.
  cbv zeta in Hfmt. rewrite Hklen, <- Hk, Hvalue, Htrim in Hfmt.
  assert (Hi : str i <> "").
  { intro E. apply chars_nil_iff in E. rewrite chars_str in E.
    destruct Hcan as [_ [Hz|[c [r [Hz _]]]]]; rewrite Hz in E; discriminate. }
  destruct (parseUnits_parts (str i) (str f) d) as [Hdot Hplain];
    rewrite ?chars_str; try assumption; try lia; try apply Hcan.
  rewrite !chars_str, Hklen, <- Hk in Hdot, Hplain.
  rewrite firstn_all2, Hvalue in Hdot, Hplain by lia.
  destruct (str f =? "")%string eqn:E.
  - apply String.eqb_eq in E. exists (str i). split; [exact Hfmt|].
    now apply Hplain.
  - exists (str i ++ "." ++ str f). now split.
Qed.

(** X1.  For an amount that is not negative and at most 22 decimals,
    [formatUnits] returns a string, and [parseUnits] reads that string back
    as the amount. *)
Theorem parseUnits_formatUnits (n d : Z) :
  0 <= n -> 0 <= d <= 22 ->
  exists s, formatUnits (OfBigInt n) d = Ok s /\ parseUnits s d = Ok n.
Proof. apply format_then_parse. Qed.

Lemma parseUnits_formatUnits_witness :
  exists s, formatUnits (OfBigInt 1500000000) 9 = Ok s /\
            parseUnits s 9 = Ok 1500000000.
Proof. apply (parseUnits_formatUnits 1500000000 9); lia. Defined.

Lemma round_binary64_small (n : Z) : 0 <= n < 2 ^ 53 -> round_binary64 n = n.
Proof.
  intro Hn. unfold round_binary64.
  replace (Z.log2 n + 1 <=? 53) with true; [reflexivity|].
  symmetry. apply Z.leb_le.
  destruct (Z.eq_dec n 0) as [->|Hnz]; [cbn; lia|].
  assert (Z.log2 n < 53) by (apply Z.log2_lt_pow2; lia). lia.
Qed.

(** X2.  A number of lamports that is a safe integer and not negative
    survives [formatLamports] followed by [parseLamports]. *)
Theorem parseLamports_formatLamports (lamports : Z) :
  0 <= lamports < 2 ^ 53 ->
  exists sol, formatLamports lamports = Ok sol /\
              parseLamports sol = Ok (Finite lamports).
Proof.
  intro Hn.
  destruct (format_then_parse lamports 9 ltac:(lia) ltac:(lia))
    as [sol [Hfmt Hparse]].
  exists sol. split; [exact Hfmt|].
  unfold parseLamports. rewrite Hparse. f_equal.
  unfold Number_of_BigInt.
  rewrite Z.abs_eq, round_binary64_small by lia.
  replace (lamports <? 2 ^ 1024) with true.
  - now replace (lamports <? 0) with false by (symmetry; apply Z.ltb_ge; lia).
  - symmetry. apply Z.ltb_lt.
    assert (2 ^ 53 < 2 ^ 1024) by (apply Z.pow_lt_mono_r; lia). lia.
Qed.

Lemma parseLamports_formatLamports_witness :
  exists sol, formatLamports 2039280 = Ok sol /\
              parseLamports sol = Ok (Finite 2039280).
Proof. apply (parseLamports_formatLamports 2039280). lia. Defined.

(** X3.  [parseUnits] looks at the first two parts of the split only: what
    follows a second dot is ignored, whatever it is. *)
Theorem parseUnits_ignores_second_dot (i f rest : string) (d : Z) :
  ~ In "."%char (chars i) -> ~ In "."%char (chars f) ->
  parseUnits (i ++ "." ++ f ++ "." ++ rest) d = parseUnits (i ++ "." ++ f) d.
Proof.
  intros Hi Hf.
  assert (H2 : exists more, split (i ++ "." ++ f ++ "." ++ rest) "." =
                            i :: f :: more).
  { unfold split. rewrite !chars_app.
    change (chars ".") with ["."%char]. cbn [app].
    rewrite split_chars_at_sep by exact Hi.
    rewrite split_chars_at_sep by exact Hf.
    cbn [rev app map]. rewrite !str_chars. eauto. }
  assert (H1 : split (i ++ "." ++ f) "." = [i; f]).
  { unfold split. rewrite !chars_app.
    change (chars ".") with ["."%char]. cbn [app].
    rewrite split_chars_at_sep by exact Hi.
    rewrite split_chars_no_sep by exact Hf.
    cbn [rev app map]. now rewrite !str_chars. }
  destruct H2 as [more H2]. unfold parseUnits. now rewrite H1, H2.
Qed.

Lemma parseUnits_ignores_second_dot_witness :
  parseUnits ("1" ++ "." ++ "5" ++ "." ++ "x") 9 = parseUnits ("1" ++ "." ++ "5") 9.
Proof.
  apply (parseUnits_ignores_second_dot "1" "5" "x" 9);
    cbn; intros [H|[]]; discriminate H.
Defined.




(** ** hashMessage *)

Lemma ToInt32_range (z : Z) : - 2 ^ 31 <= ToInt32 z < 2 ^ 31.
Proof.
  unfold ToInt32.
  pose proof (Z.mod_pos_bound (z + 2 ^ 31) (2 ^ 32) ltac:(lia)). lia.
Qed.

Lemma ToInt32_periodic (z k : Z) : ToInt32 (z + 2 ^ 32 * k) = ToInt32 z.
Proof.
  unfold ToInt32.
  replace (z + 2 ^ 32 * k + 2 ^ 31) with (z + 2 ^ 31 + k * 2 ^ 32) by lia.
  now rewrite Z.mod_add by lia.
Qed.

Lemma ToInt32_offset (z : Z) : exists k, ToInt32 z = z + 2 ^ 32 * k.
Proof.
  exists (- ((z + 2 ^ 31) / 2 ^ 32)). unfold ToInt32.
  pose proof (Z.div_mod (z + 2 ^ 31) (2 ^ 32) ltac:(lia)). lia.
Qed.

Lemma hash_round_poly (hash : Z) (c : ascii) :
  forall p k, hash = p + 2 ^ 32 * k ->
  hash_round hash c = ToInt32 (p * 31 + code c).
Proof.
  intros p k ->. unfold hash_round. rewrite Z.land_diag.
  rewrite Z.shiftl_mul_pow2 by lia.
  destruct (ToInt32_offset (p + 2 ^ 32 * k)) as [k1 ->].
  destruct (ToInt32_offset ((p + 2 ^ 32 * k + 2 ^ 32 * k1) * 2 ^ 5))
    as [k2 ->].
  replace ((p + 2 ^ 32 * k + 2 ^ 32 * k1) * 2 ^ 5 + 2 ^ 32 * k2
           - (p + 2 ^ 32 * k) + code c)
    with (p * 31 + code c + 2 ^ 32 * (31 * k + 32 * k1 + k2)) by lia.
  apply ToInt32_periodic.
Qed.

Lemma hash_loop_poly (l : list ascii) :
  fold_left hash_round l 0 = ToInt32 (poly31 l).
Proof.
  unfold poly31. induction l as [|c l IH] using rev_ind; [reflexivity|].
  rewrite !fold_left_app. cbn [fold_left]. rewrite IH.
  destruct (ToInt32_offset (fold_left (fun a c0 => a * 31 + code c0) l 0))
    as [k Hk].
  now apply (hash_round_poly _ c _ k).
Qed.

(** X5.  [hashMessage] is the polynomial hash with multiplier 31 over the
    code units, wrapped to a signed 32-bit integer; the result is the
    absolute value of that integer in hexadecimal: one to eight digits
    that read back as a number between 0 and 2^31. *)
Theorem hashMessage_polynomial (message : string) :
  let h := Z.abs (ToInt32 (poly31 (chars message))) in
  hashMessage message = str (radix_digits 16 h) /\
  parse_digits 16 (chars (hashMessage message)) = Some h /\
  0 <= h <= 2 ^ 31 /\
  1 <= strlen (hashMessage message) <= 8.
Proof.
  intro h. unfold hashMessage. rewrite hash_loop_poly. fold h.
  pose proof (ToInt32_range (poly31 (chars message))) as Hrange.
  assert (Hh : 0 <= h <= 2 ^ 31) by (unfold h; lia).
  unfold Number_toString16.
  replace (h <? 0) with false by (symmetry; apply Z.ltb_ge; lia).
  pose proof (radix_digits_repr 16 h ltac:(lia) ltac:(lia)) as Hrepr.
  destruct (radix_repr_facts 16 h _ ltac:(lia) Hrepr)
    as [_ [Hval [Hub [Hlb [[d [r [Heq [_ [_ Hzero]]]]] _]]]]].
  split; [reflexivity|]. rewrite chars_str. split.
  { unfold parse_digits. rewrite Heq. rewrite <- Heq.
    rewrite Hval. f_equal; lia. }
  split; [exact Hh|].
  unfold strlen. rewrite <- length_chars, chars_str.
  split; [rewrite Heq; cbn [List.length]; lia|].
  destruct (Z.eq_dec h 0) as [Hz|Hnz].
  - rewrite Heq, (Hzero Hz). cbn. lia.
  - specialize (Hlb ltac:(lia)).
    destruct (Z.le_gt_cases (Z.of_nat (List.length (radix_digits 16 h))) 8)
      as [Hle|Hgt]; [exact Hle|].
    exfalso.
    assert (16 ^ 8 <= 16 ^ (Z.of_nat (List.length (radix_digits 16 h)) - 1))
      by (apply Z.pow_le_mono_r; lia).
    assert (2 ^ 31 < 16 ^ 8) by (vm_compute; reflexivity).
    lia.
Qed.

(** ** sanitizeInput *)

Lemma escape_char_inert (c : ascii) :
  forallb (fun x => negb (active x)) (escape_char c) = true.
Proof.
  unfold escape_char.
  destruct (Ascii.eqb c "<") eqn:E1; [reflexivity|].
  destruct (Ascii.eqb c ">") eqn:E2; [reflexivity|].
  destruct (Ascii.eqb c double_quote) eqn:E3; [reflexivity|].
  destruct (Ascii.eqb c "'") eqn:E4; [reflexivity|].
  destruct (Ascii.eqb c "&") eqn:E5; [reflexivity|].
  cbn. unfold active. now rewrite E1, E2, E3, E4.
Qed.

Lemma chars_escape (s : string) :
  chars (escape s) = flat_map escape_char (chars s).
Proof. apply chars_str. Qed.

Lemma escape_inert (s : string) :
  forallb (fun x => negb (active x)) (chars (escape s)) = true.
Proof.
  unfold escape. rewrite chars_str.
  induction (chars s) as [|c l IH]; [reflexivity|].
  cbn [flat_map]. rewrite forallb_app, IH, escape_char_inert. reflexivity.
Qed.

Lemma unescape_escape_char (c : ascii) (rest : list ascii) :
  unescape (escape_char c ++ rest) = c :: unescape rest.
Proof.
  unfold escape_char.
  destruct (Ascii.eqb c "<") eqn:E1;
    [apply Ascii.eqb_eq in E1; now subst|].
  destruct (Ascii.eqb c ">") eqn:E2;
    [apply Ascii.eqb_eq in E2; now subst|].
  destruct (Ascii.eqb c double_quote) eqn:E3;
    [apply Ascii.eqb_eq in E3; now subst|].
  destruct (Ascii.eqb c "'") eqn:E4;
    [apply Ascii.eqb_eq in E4; now subst|].
  destruct (Ascii.eqb c "&") eqn:E5;
    [apply Ascii.eqb_eq in E5; now subst|].
  cbn [app unescape]. now rewrite E5.
Qed.

Lemma unescape_escape (s : string) : str (unescape (chars (escape s))) = s.
Proof.
  unfold escape. rewrite chars_str. rewrite <- (str_chars s) at 2. f_equal.
  induction (chars s) as [|c l IH]; [reflexivity|].
  cbn [flat_map]. now rewrite unescape_escape_char, IH.
Qed.

Lemma escape_char_length (c : ascii) :
  (if special c then 4 <= List.length (escape_char c)
   else escape_char c = [c])%nat.
Proof.
  unfold special, active, escape_char.
  destruct (Ascii.eqb c "<"); [cbn; lia|].
  destruct (Ascii.eqb c ">"); [cbn; lia|].
  destruct (Ascii.eqb c double_quote); [cbn; lia|].
  destruct (Ascii.eqb c "'"); [cbn; lia|].
  destruct (Ascii.eqb c "&"); [cbn; lia|]. reflexivity.
Qed.

Lemma escape_length (l : list ascii) :
  (List.length l <= List.length (flat_map escape_char l))%nat /\
  (existsb special l = true ->
   List.length l < List.length (flat_map escape_char l))%nat /\
  (existsb special l = false -> flat_map escape_char l = l).
Proof.
  induction l as [|c l [IH1 [IH2 IH3]]];
    [repeat split; cbn; intros; try lia; try discriminate; reflexivity|].
  cbn [flat_map existsb List.length]. rewrite length_app.
  pose proof (escape_char_length c) as Hc.
  destruct (special c); cbn [orb].
  - split; [lia|]. split; [intros _; lia | discriminate].
  - rewrite Hc. cbn [List.length app]. split; [lia|]. split.
    + intro H. specialize (IH2 H). lia.
    + intro H. now rewrite (IH3 H).
Qed.

(** X6.  On a string, [sanitizeInput] leaves none of the characters
    less-than, greater-than, double quote and apostrophe, never shortens
    the string, and loses nothing: the input can be read back from the
    output, so two different strings never sanitize to the same one. *)
Theorem sanitizeInput_string (s : string) :
  exists out,
    sanitizeInput (VString s) = VString out /\
    Forall (fun c => active c = false) (chars out) /\
    str (unescape (chars out)) = s /\
    strlen s <= strlen out /\
    (forall t, sanitizeInput (VString t) = VString out -> t = s).
Proof.
  exists (escape s). split; [reflexivity|]. split.
  { apply Forall_forall. intros c Hc.
    pose proof (escape_inert s) as H. rewrite forallb_forall in H.
    specialize (H c Hc). now destruct (active c). }
  split; [apply unescape_escape|]. split.
  { unfold strlen. rewrite <- !length_chars. unfold escape.
    rewrite chars_str. pose proof (escape_length (chars s)). lia. }
  intros t H. cbn in H. injection H as H.
  rewrite <- (unescape_escape t), H. apply unescape_escape.
Qed.

(** X7.  Sanitizing is not idempotent: a string with one of the five
    replaced characters changes again, and grows again, when the result is
    sanitized a second time. *)
Theorem sanitizeInput_twice (s : string) :
  existsb special (chars s) = true ->
  exists once twice,
    sanitizeInput (VString s) = VString once /\
    sanitizeInput (VString once) = VString twice /\
    strlen s < strlen once /\ strlen once < strlen twice.
Proof.
  intro H. exists (escape s), (escape (escape s)).
  split; [reflexivity|]. split; [reflexivity|].
  assert (Hamp : existsb special (chars (escape s)) = true).
  { unfold escape. rewrite chars_str.
    induction (chars s) as [|c l IH]; [discriminate|].
    cbn [existsb flat_map] in *. rewrite existsb_app.
    destruct (special c) eqn:Ec; cbn [orb] in H.
    - replace (existsb special (escape_char c)) with true; [reflexivity|].
      unfold special, active, escape_char in *.
      destruct (Ascii.eqb c "<"); [reflexivity|].
      destruct (Ascii.eqb c ">"); [reflexivity|].
      destruct (Ascii.eqb c double_quote); [reflexivity|].
      destruct (Ascii.eqb c "'"); [reflexivity|].
      destruct (Ascii.eqb c "&"); [reflexivity|discriminate].
    - rewrite (IH H). apply orb_true_r. }
  destruct (escape_length (chars s)) as [_ [H1 _]].
  destruct (escape_length (chars (escape s))) as [_ [H2 _]].
  specialize (H1 H). specialize (H2 Hamp).
  unfold strlen. rewrite <- !length_chars, !chars_escape.
  rewrite chars_escape in H2. lia.
Qed.

Lemma sanitizeInput_twice_witness :
  exists once twice,
    sanitizeInput (VString "<b>") = VString once /\
    sanitizeInput (VString once) = VString twice /\
    strlen "<b>" < strlen once /\ strlen once < strlen twice.
Proof. apply (sanitizeInput_twice "<b>"). reflexivity. Defined.

Lemma set_prop_values (P : value -> bool) (k : string) (v : value) :
  P v = true ->
  forall fields,
    forallb (fun kv => P (snd kv)) fields = true ->
    forallb (fun kv => P (snd kv)) (set_prop fields k v) = true.
Proof.
  intros Hv fields. induction fields as [|[k' v'] r IH]; intro H; cbn.
  - now rewrite Hv.
  - cbn in H. apply andb_prop in H. destruct H as [H1 H2].
    destruct (k =? k')%string; cbn; [now rewrite Hv | now rewrite H1, IH].
Qed.

Lemma assign_all_values (P : value -> bool) (entries : list (string * value)) :
  forallb (fun kv => P (snd kv)) entries = true ->
  forall acc,
    forallb (fun kv => P (snd kv)) acc = true ->
    forallb (fun kv => P (snd kv))
      (fold_left (fun sanitized kv => assign sanitized (fst kv) (snd kv))
                 entries acc) = true.
Proof.
  induction entries as [|[k v] r IH]; intros H acc Hacc; [exact Hacc|].
  cbn in H. apply andb_prop in H. destruct H as [H1 H2].
  cbn [fold_left fst snd]. apply IH; [exact H2|].
  unfold assign. destruct (k =? "__proto__")%string; [exact Hacc|].
  now apply set_prop_values.
Qed.

Lemma indexed_numbers (b : list Z) :
  forallb (fun kv => inert (snd kv)) (indexed VNumber b) = true.
Proof.
  unfold indexed. generalize 0%nat.
  induction b as [|x b IH]; intro i; [reflexivity|]. cbn. apply IH.
Qed.

(** X8.  Whatever the input, the result of [sanitizeInput] holds none of
    the characters less-than, greater-than, double quote and apostrophe in
    any string value, at any depth of arrays and objects. *)
Theorem sanitizeInput_inert (input : value) :
  inert (sanitizeInput input) = true.
Proof.
  induction input as [| | | |s|b|xs IH|fields IH] using value_nested_ind;
    try reflexivity.
  - apply escape_inert.
  - cbn [sanitizeInput inert]. apply (assign_all_values inert);
      [apply indexed_numbers | reflexivity].
  - cbn [sanitizeInput inert]. apply forallb_forall. intros y Hy.
    apply in_map_iff in Hy. destruct Hy as [x [<- Hx]].
    rewrite Forall_forall in IH. now apply IH.
  - cbn [sanitizeInput inert]. apply (assign_all_values inert);
      [|reflexivity].
    apply forallb_forall. intros kv Hkv.
    apply in_map_iff in Hkv. destruct Hkv as [[k v] [<- Hx]].
    rewrite Forall_forall in IH. apply (IH _ Hx).
Qed.

Lemma lookup_set_prop (k k' : string) (v : value) (fields : list (string * value)) :
  lookup k (set_prop fields k' v) =
  if (k =? k')%string then Some v else lookup k fields.
Proof.
  induction fields as [|[k1 v1] r IH]; cbn.
  - reflexivity.
  - destruct (k' =? k1)%string eqn:E1; cbn.
    + apply String.eqb_eq in E1. subst k1.
      destruct (k =? k')%string; reflexivity.
    + rewrite IH. destruct (k =? k')%string eqn:E2; [|reflexivity].
      apply String.eqb_eq in E2. subst k'. now rewrite E1.
Qed.

Lemma lookup_not_in (k : string) (fields : list (string * value)) :
  ~ In k (map fst fields) -> lookup k fields = None.
Proof.
  induction fields as [|[k1 v1] r IH]; intro H; [reflexivity|]. cbn.
  destruct (k =? k1)%string eqn:E.
  - apply String.eqb_eq in E. subst. exfalso. apply H. now left.
  - apply IH. intro Hin. apply H. now right.
Qed.

Lemma lookup_assigned (k : string) (entries : list (string * value)) :
  k <> "__proto__" -> NoDup (map fst entries) ->
  forall acc,
    lookup k (fold_left (fun sanitized kv => assign sanitized (fst kv) (snd kv))
                        entries acc) =
    match lookup k entries with
    | Some v => Some v
    | None => lookup k acc
    end.
Proof.
  intro Hk. induction entries as [|[k1 v1] r IH]; intros Hnd acc;
    [reflexivity|].
  cbn [map fst] in Hnd. inversion Hnd as [|? ? Hnotin Hnd']; subst.
  cbn [fold_left fst snd lookup]. rewrite (IH Hnd').
  destruct (k =? k1)%string eqn:E.
  - apply String.eqb_eq in E. subst k1.
    rewrite (lookup_not_in _ _ Hnotin). unfold assign.
    replace (k =? "__proto__")%string with false
      by (symmetry; now apply String.eqb_neq).
    now rewrite lookup_set_prop, String.eqb_refl.
  - destruct (lookup k r); [reflexivity|]. unfold assign.
    destruct (k1 =? "__proto__")%string; [reflexivity|].
    now rewrite lookup_set_prop, E.
Qed.

Lemma lookup_map_values (f : value -> value) (k : string)
    (fields : list (string * value)) :
  lookup k (map (fun kv => (fst kv, f (snd kv))) fields) =
  option_map f (lookup k fields).
Proof.
  induction fields as [|[k1 v1] r IH]; [reflexivity|]. cbn.
  destruct (k =? k1)%string; [reflexivity | exact IH].
Qed.

(** X9.  [sanitizeInput] escapes the values of an object and never its
    keys: under every key of the input other than [__proto__] the result
    holds the sanitized value, and it has no other keys, so markup in a
    key comes through unchanged. *)
Theorem sanitizeInput_object (fields : list (string * value)) (k : string) :
  NoDup (map fst fields) -> k <> "__proto__" ->
  exists out,
    sanitizeInput (VObject fields) = VObject out /\
    lookup k out = option_map sanitizeInput (lookup k fields) /\
    (forall k', In k' (map fst out) -> In k' (map fst fields)).
Proof.
  intros Hnd Hk. eexists. split; [reflexivity|]. split.
  - rewrite lookup_assigned; [| exact Hk |].
    + rewrite lookup_map_values. now destruct (lookup k fields).
    + now rewrite map_map, (map_ext _ fst) by reflexivity.
  - intros k'.
    assert (Hkeys : forall entries acc,
              In k' (map fst (fold_left
                       (fun sanitized kv => assign sanitized (fst kv) (snd kv))
                       entries acc)) ->
              In k' (map fst acc) \/ In k' (map fst entries)).
    { induction entries as [|[k1 v1] r IH]; intros acc H; [now left|].
      cbn [fold_left fst snd] in H. apply IH in H.
      destruct H as [H|H]; [|right; now right].
      unfold assign in H. destruct (k1 =? "__proto__")%string; [now left|].
      clear IH. induction acc as [|[k2 v2] acc IHacc]; cbn in H.
      - destruct H as [H|[]]. right. now left.
      - destruct (k1 =? k2)%string eqn:E; cbn in H.
        + apply String.eqb_eq in E. subst k2. now left.
        + destruct H as [H|H]; [left; now left|].
          destruct (IHacc H) as [H'|H']; [left; now right | now right]. }
    intro H. apply Hkeys in H. destruct H as [[]|H].
    now rewrite map_map, (map_ext _ fst) in H by reflexivity.
Qed.

Lemma sanitizeInput_object_witness :
  exists out,
    sanitizeInput (VObject [("<k>"%string, VString "<v>")]) = VObject out /\
    lookup "<k>" out =
      option_map sanitizeInput (lookup "<k>" [("<k>"%string, VString "<v>")]) /\
    (forall k', In k' (map fst out) ->
                In k' (map fst [("<k>"%string, VString "<v>")])).
Proof.
  apply (sanitizeInput_object [("<k>"%string, VString "<v>")] "<k>").
  - repeat constructor. intros [].
  - discriminate.
Defined.

(** ** shortenAddress *)

(** X10.  For an address of more than [2 * n] characters, [shortenAddress]
    returns its first [n] characters, three dots and its last [n]
    characters, [2 * n + 3] characters in all, which is more than the
    address has when it is only one or two characters over [2 * n].  With
    [n = 0] the slice from [-0] is the whole address, which then follows
    the dots in full. *)
Theorem shortenAddress_shape (address : string) (n : Z) :
  0 <= n -> 2 * n < strlen address ->
  let l := chars address in
  let tail := if n =? 0 then l
              else skipn (List.length l - Z.to_nat n) l in
  shortenAddress address n =
    str (firstn (Z.to_nat n) l ++ chars "..." ++ tail) /\
  strlen (shortenAddress address n) =
    (if n =? 0 then strlen address + 3 else 2 * n + 3).
Proof.
  intros Hn Hlen l tail.
  assert (Hl : Z.of_nat (List.length l) = strlen address).
  { unfold l, strlen. now rewrite length_chars. }
  assert (Hshape : shortenAddress address n =
                   str (firstn (Z.to_nat n) l ++ chars "..." ++ tail)).
  { unfold shortenAddress.
    replace (strlen address <=? n * 2) with false
      by (symmetry; apply Z.leb_gt; lia).
    destruct (address =? "")%string eqn:E.
    { apply String.eqb_eq in E. rewrite E in Hlen.
      change (strlen ""%string) with 0 in Hlen. lia. }
    cbn [orb]. apply chars_inj. rewrite !chars_app, chars_str. f_equal.
    - unfold slice0. rewrite chars_str.
      replace (n <? 0) with false by (symmetry; apply Z.ltb_ge; lia).
      now rewrite Z.min_l by lia.
    - f_equal. unfold slice_from, tail. rewrite chars_str. fold l.
      destruct (n =? 0) eqn:E0.
      + apply Z.eqb_eq in E0. subst n. cbn. now rewrite Z.min_l by lia.
      + apply Z.eqb_neq in E0.
        replace (- n <? 0) with true by (symmetry; apply Z.ltb_lt; lia).
        rewrite Z.max_l by lia. f_equal. lia. }
  split; [exact Hshape|]. rewrite Hshape.
  unfold strlen at 1. rewrite <- length_chars, chars_str.
  rewrite !length_app, length_firstn. unfold tail.
  destruct (n =? 0) eqn:E0.
  - apply Z.eqb_eq in E0. subst n. cbn. lia.
  - apply Z.eqb_neq in E0. rewrite length_skipn.
    change (List.length (chars "...")) with 3%nat. lia.
Qed.

Lemma shortenAddress_shape_witness :
  let address := "abcde"%string in
  let l := chars address in
  let tail := if 2 =? 0 then l
              else skipn (List.length l - Z.to_nat 2) l in
  shortenAddress address 2 =
    str (firstn (Z.to_nat 2) l ++ chars "..." ++ tail) /\
  strlen (shortenAddress address 2) =
    (if 2 =? 0 then strlen address + 3 else 2 * 2 + 3).
Proof. apply (shortenAddress_shape "abcde" 2); cbn; lia. Defined.

(** ** validatePrivateKey on strings *)

Lemma match_dot_1_2_count (n : nat) :
  forall l, (List.length l <= n)%nat ->
  Forall (fun c => is_line_terminator c = false) l ->
  List.length (match_dot_1_2 l) = ((List.length l + 1) / 2)%nat.
Proof.
  induction n as [|n IH]; intros l Hn Hl.
  - destruct l; [reflexivity | cbn in Hn; lia].
  - destruct l as [|c [|d r]]; [reflexivity| |].
    + inversion Hl as [|? ? Hc _]; subst. cbn. now rewrite Hc.
    + inversion Hl as [|? ? Hc Hl']; subst.
      inversion Hl' as [|? ? Hd Hr]; subst.
      cbn [match_dot_1_2]. rewrite Hc, Hd. cbn [List.length].
      rewrite IH; [|cbn in Hn; lia|exact Hr].
      replace (S (S (List.length r)) + 1)%nat
        with (List.length r + 1 + 1 * 2)%nat by lia.
      rewrite Nat.div_add by lia. lia.
Qed.

(** X11.  Among the strings of code units below 256, where LF and CR are
    the only line terminators, a string that holds neither is accepted as a
    private key exactly when it has 127 or 128 characters: the check
    counts chunks of two characters and looks at nothing else. *)
Theorem validatePrivateKey_length (s : string) :
  Forall (fun c => is_line_terminator c = false) (chars s) ->
  (validatePrivateKey (VString s) = true <->
   strlen s = 127 \/ strlen s = 128).
Proof.
  intro H. rewrite validatePrivateKey_string.
  rewrite (match_dot_1_2_count _ _ (le_n _) H).
  unfold strlen. rewrite <- length_chars.
  set (n := List.length (chars s)).
  rewrite Z.eqb_eq. split.
  - intro E.
    assert (Hdiv : ((n + 1) / 2 = 64)%nat) by lia.
    pose proof (Nat.div_mod_eq (n + 1) 2) as Hdm.
    pose proof (Nat.mod_upper_bound (n + 1) 2 ltac:(lia)). lia.
  - intros [E|E].
    + replace n with 127%nat by lia. reflexivity.
    + replace n with 128%nat by lia. reflexivity.
Qed.

Lemma validatePrivateKey_length_witness :
  let s := str (repeat "g"%char 128) in
  validatePrivateKey (VString s) = true <->
  strlen s = 127 \/ strlen s = 128.
Proof.
  apply (validatePrivateKey_length (str (repeat "g"%char 128))).
  rewrite chars_str. apply Forall_forall. intros c Hc.
  apply repeat_spec in Hc. now subst.
Defined.

(** ** The webhook signature and its secret *)

Lemma mapi_from_ext {A B : Type} (f g : A -> nat -> B) (l : list A) :
  forall i,
    (forall x j, (i <= j < i + List.length l)%nat -> f x j = g x j) ->
    mapi_from i f l = mapi_from i g l.
Proof.
  induction l as [|x l IH]; intros i H; [reflexivity|].
  cbn [mapi_from]. f_equal.
  - apply H. cbn. lia.
  - apply IH. intros y j Hj. apply H. cbn. lia.
Qed.

Lemma key_operand_nonempty (key : list Z) (i : nat) :
  key <> [] -> key_operand key i = nth (i mod List.length key) key 0.
Proof. destruct key; [contradiction | reflexivity]. Qed.

Lemma key_operand_doubled (key : list Z) (i : nat) :
  key_operand (key ++ key) i = key_operand key i.
Proof.
  destruct key as [|k key]; [reflexivity|].
  rewrite !key_operand_nonempty by discriminate.
  assert (Hlen : (0 < List.length (k :: key))%nat) by (cbn; lia).
  revert Hlen. generalize (k :: key). clear k key. intros full Hlen.
  rewrite length_app.
  set (n := List.length full) in *.
  pose proof (Nat.mod_upper_bound i (n + n) ltac:(lia)) as Hr.
  pose proof (Nat.div_mod_eq i (n + n)) as Hdm.
  set (r := (i mod (n + n))%nat) in *. set (q := (i / (n + n))%nat) in *.
  destruct (Nat.lt_ge_cases r n) as [Hlt|Hge].
  - rewrite app_nth1 by exact Hlt. f_equal.
    apply (Nat.mod_unique i n (2 * q) r); lia.
  - rewrite app_nth2 by exact Hge. f_equal.
    apply (Nat.mod_unique i n (2 * q + 1) (r - n)); lia.
Qed.

(** X12.  A secret whose UTF-8 bytes are those of another secret written
    twice signs every payload as that secret does, so a signature made
    with one is verified with the other: the signature depends on the key
    stream only, and the key stream of a repeated key is the same. *)
Theorem webhook_secret_doubled (payload secret1 secret2 : string) :
  TextEncoder_encode secret2 =
    (TextEncoder_encode secret1 ++ TextEncoder_encode secret1)%list ->
  createWebhookSignature payload secret2 =
    createWebhookSignature payload secret1 /\
  verifyWebhookSignature payload (createWebhookSignature payload secret1)
                         secret2 = true.
Proof.
  intro Hbytes.
  assert (H : createWebhookSignature payload secret2 =
              createWebhookSignature payload secret1).
  { unfold createWebhookSignature. rewrite Hbytes.
    f_equal. f_equal. apply mapi_from_ext. intros x j _.
    now rewrite key_operand_doubled. }
  split; [exact H|].
  unfold verifyWebhookSignature. rewrite H. apply String.eqb_refl.
Qed.

Lemma webhook_secret_doubled_witness :
  createWebhookSignature "ping" "abab" = createWebhookSignature "ping" "ab" /\
  verifyWebhookSignature "ping" (createWebhookSignature "ping" "ab")
                         "abab" = true.
Proof.
  apply (webhook_secret_doubled "ping" "ab" "abab"). reflexivity.
Defined.

Lemma key_operand_prefix (key1 key2 : list Z) (n j : nat) :
  (n <= List.length key1)%nat -> (n <= List.length key2)%nat ->
  firstn n key1 = firstn n key2 -> (j < n)%nat ->
  key_operand key1 j = key_operand key2 j.
Proof.
  intros H1 H2 Hp Hj. unfold key_operand.
  destruct key1 as [|a key1]; [cbn in H1; lia|].
  destruct key2 as [|b key2]; [cbn in H2; lia|].
  rewrite !Nat.mod_small by lia.
  rewrite <- (firstn_skipn n (a :: key1)), <- (firstn_skipn n (b :: key2)).
  rewrite !app_nth1 by (rewrite length_firstn; lia).
  now rewrite Hp.
Qed.

(** X13.  Only as many bytes of the secret as the payload has bytes take
    part in the signature: two secrets that are at least as long as the
    payload and agree on that many leading bytes give the same signature,
    whatever follows in them. *)
Theorem webhook_secret_prefix (payload secret1 secret2 : string) :
  let n := List.length (TextEncoder_encode payload) in
  (n <= List.length (TextEncoder_encode secret1))%nat ->
  (n <= List.length (TextEncoder_encode secret2))%nat ->
  firstn n (TextEncoder_encode secret1) = firstn n (TextEncoder_encode secret2) ->
  createWebhookSignature payload secret1 =
    createWebhookSignature payload secret2 /\
  verifyWebhookSignature payload (createWebhookSignature payload secret1)
                         secret2 = true.
Proof.
  intros n H1 H2 Hp.
  assert (H : createWebhookSignature payload secret1 =
              createWebhookSignature payload secret2).
  { unfold createWebhookSignature. f_equal. f_equal.
    apply mapi_from_ext. intros x j Hj. f_equal. f_equal.
    apply (key_operand_prefix _ _ n); try assumption. fold n in Hj. lia. }
  split; [exact H|].
  unfold verifyWebhookSignature. rewrite H. apply String.eqb_refl.
Qed.

Lemma webhook_secret_prefix_witness :
  createWebhookSignature "ping" "secret-one" =
    createWebhookSignature "ping" "secret-two" /\
  verifyWebhookSignature "ping" (createWebhookSignature "ping" "secret-one")
                         "secret-two" = true.
Proof.
  apply (webhook_secret_prefix "ping" "secret-one" "secret-two");
    [vm_compute; lia | vm_compute; lia | reflexivity].
Defined.

(** X14.  An empty secret is not refused: the signature is then the
    base64 encoding of the payload's UTF-8 bytes, which anyone can
    compute. *)
Theorem webhook_empty_secret (payload : string) :
  createWebhookSignature payload "" =
    str (base64_encode (TextEncoder_encode payload)) /\
  verifyWebhookSignature payload
    (str (base64_encode (TextEncoder_encode payload))) "" = true.
Proof.
  assert (H : createWebhookSignature payload "" =
              str (base64_encode (TextEncoder_encode payload))).
  { rewrite createWebhookSignature_bytes.
    change (TextEncoder_encode "") with (@nil Z).
    now rewrite xor_repeating_no_key. }
  split; [exact H|].
  unfold verifyWebhookSignature. rewrite H. apply String.eqb_refl.
Qed.

(** ** retry: the first success *)

(** X15.  When the operation fails [n] times and then succeeds, with [n]
    below [maxRetries] (or [n = 0]), [retry] resolves with that success
    after [n + 1] invocations, having set the timers [delay * 1] to
    [delay * n]; what later invocations would have given is never looked
    at. *)
Theorem retry_first_success {T E : Type} (fn : nat -> T + E)
    (maxRetries delay : Z) (n : nat) (v : T) :
  (forall k, (k < n)%nat -> exists e, fn k = inr e) ->
  fn n = inl v ->
  Z.of_nat n < Z.max maxRetries 1 ->
  retry fn maxRetries delay = mkRun (Resolved v) (S n) (backoff delay 1 n).
Proof.
  intros Hfail Hok Hn.
  destruct (retry_run fn maxRetries delay) as [m [Hinv [Hbefore [Hslept Hout]]]].
  assert (Hm : m = n).
  { destruct (Nat.lt_trichotomy m n) as [Hlt|[Heq|Hgt]]; [|exact Heq|].
    - destruct (Hfail m Hlt) as [e He].
      destruct Hout as [[v' [Hv' _]]|[e' [_ [_ Hmax]]]]; [congruence|lia].
    - destruct (Hbefore n Hgt) as [[e He] _]. congruence. }
  subst m.
  destruct Hout as [[v' [Hv' Hres]]|[e' [He' _]]]; [|congruence].
  assert (v' = v) by congruence. subst v'.
  destruct (retry fn maxRetries delay) as [o i t]. cbn in *.
  now subst.
Qed.

Lemma retry_first_success_witness :
  retry (fun k => if (k <? 1)%nat then inr "busy"%string else inl 7) 3 1000 =
  mkRun (Resolved 7) 2 (backoff 1000 1 1).
Proof.
  apply (retry_first_success
           (fun k => if (k <? 1)%nat then inr "busy"%string else inl 7)
           3 1000 1 7).
  - intros k Hk. exists "busy"%string.
    destruct k as [|k]; [reflexivity | lia].
  - reflexivity.
  - lia.
Defined.

(** ** Operations that send nothing, and operations that send once *)

Lemma silent_ret {A : Type} (a : A) : silent (ret a).
Proof. intros w log. reflexivity. Qed.

Lemma silent_throw {A : Type} (e : exn) : silent (@throw A e).
Proof. intros w log. reflexivity. Qed.

Lemma silent_lift {A : Type} (r : result A) : silent (lift r).
Proof. intros w log. reflexivity. Qed.

Lemma silent_if {A : Type} (b : bool) (x y : M A) :
  silent x -> silent y -> silent (if b then x else y).
Proof. now destruct b. Qed.

Lemma silent_bind {A B : Type} (m : M A) (k : A -> M B) :
  silent m -> (forall a, silent (k a)) -> silent (bind m k).
Proof.
  intros Hm Hk w log. unfold bind. specialize (Hm w log).
  destruct (m w log) as [log' [a|e]]; cbn in Hm; subst log'.
  - apply Hk.
  - reflexivity.
Qed.

Lemma silent_try_catch {A : Type} (m : M A) (h : exn -> M A) :
  silent m -> (forall e, silent (h e)) -> silent (try_catch m h).
Proof.
  intros Hm Hh w log. unfold try_catch. specialize (Hm w log).
  destruct (m w log) as [log' [a|e]]; cbn in Hm; subst log'.
  - reflexivity.
  - apply Hh.
Qed.

(** The log of an operation is the log of its first step when nothing that
    follows sends. *)
Lemma log_bind {A B : Type} (m : M A) (k : A -> M B) (w : world)
    (log : list request) :
  (forall a, silent (k a)) -> fst (bind m k w log) = fst (m w log).
Proof.
  intro Hk. unfold bind.
  destruct (m w log) as [log' [a|e]]; [apply Hk | reflexivity].
Qed.

Lemma log_try_catch {A : Type} (m : M A) (h : exn -> M A) (w : world)
    (log : list request) :
  (forall e, silent (h e)) -> fst (try_catch m h w log) = fst (m w log).
Proof.
  intro Hh. unfold try_catch.
  destruct (m w log) as [log' [a|e]]; [reflexivity | apply Hh].
Qed.

Lemma AbortSignal_timeout_defined (ms : optional Z) (t : Z) :
  AbortSignal_timeout ms = Ok t -> ms = Defined t.
Proof.
  destruct ms as [| |x]; unfold AbortSignal_timeout; try discriminate.
  destruct ((0 <=? x) && (x <=? 2 ^ 53 - 1)); [|discriminate].
  intro H. injection H as H. now subst.
Qed.

Lemma typed_rethrow {A : Type} (m : M A) (message code : string) :
  typed (try_catch m (fun error =>
           if instanceof_SolanaError error then throw error
           else throw (SolanaError message code (Cause error)))).
Proof.
  intros w log e. unfold try_catch.
  destruct (m w log) as [log' [a|e']]; [discriminate|].
  destruct (instanceof_SolanaError e') eqn:E; cbn; intro H;
    injection H as <-; [exact E | reflexivity].
Qed.

Lemma refused_throw {A : Type} (e : exn) : refused (@throw A e).
Proof. intros w log. now exists e. Qed.

Lemma refused_if {A : Type} (b : bool) (x y : M A) :
  refused x -> refused y -> refused (if b then x else y).
Proof. now destruct b. Qed.

Lemma refused_bind {A B : Type} (m : M A) (k : A -> M B) :
  refused m -> refused (bind m k).
Proof.
  intros Hm w log. destruct (Hm w log) as [e He]. exists e.
  unfold bind. now rewrite He.
Qed.

Lemma refused_try_catch {A : Type} (m : M A) (h : exn -> M A) :
  refused m -> (forall e, refused (h e)) -> refused (try_catch m h).
Proof.
  intros Hm Hh w log. destruct (Hm w log) as [e He].
  unfold try_catch. rewrite He. apply Hh.
Qed.

Lemma refused_lift_throw {A : Type} (e : exn) : refused (@lift A (Throw e)).
Proof. intros w log. now exists e. Qed.

Lemma refused_bind_lift {A B : Type} (r : result A) (k : A -> M B) :
  (forall a, refused (k a)) -> refused (bind (lift r) k).
Proof.
  intros Hk w log. unfold bind, lift.
  destruct r as [a|e]; [apply Hk | now exists e].
Qed.

Lemma bind_lift_ok {A B : Type} (a : A) (k : A -> M B) :
  bind (lift (Ok a)) k = k a.
Proof. reflexivity. Qed.

(** A request that [fetch] has taken is added to the log when it goes out,
    and the call settles as the platform decides. *)
Lemma transmit_run (r : request) (w : world) (log : list request) :
  transmit r w log =
  ((if goes_out w log r then log ++ [r] else log)%list, w log r).
Proof.
  unfold transmit, goes_out. destruct (w log r); [reflexivity|].
  now destruct (unsent w log r).
Qed.

(** The request helper of the SolanaLicenseManager: with a timeout that
    [AbortSignal.timeout] takes and a request that [fetch] takes, it hands
    [fetch] one request, to the given endpoint of the API, which is logged
    if it goes out, and settles as the answer decides; without such a
    timeout it is refused with the TypeError before anything is sent. *)
Lemma License_makeRequest_run (this : SolanaLicenseManager.t) (method endpoint : string)
    (data : value) (ms : Z) :
  AbortSignal_timeout (timeout (SolanaLicenseManager.config this)) = Ok ms ->
  sendable method data = true ->
  exists r,
    req_url r =
      template (fun s => s) (baseUrl (SolanaLicenseManager.config this)) ++ endpoint /\
    req_method r = method /\
    authorized (SolanaLicenseManager.config this) r /\
    req_body r = (if truthy data then Some data else None) /\
    forall w log,
      SolanaLicenseManager.makeRequest this method endpoint data w log =
      ((if goes_out w log r then log ++ [r] else log)%list,
       settle "API request failed" (w log r)).
Proof.
  intros Hms Hsend.
  exists (mkRequest
            (template (fun s => s) (baseUrl (SolanaLicenseManager.config this)) ++ endpoint)
            method
            [("Content-Type", "application/json");
             ("Authorization", "Bearer " ++ apiKey (SolanaLicenseManager.config this));
             ("X-API-Version", "1.0");
             ("X-Platform", "solana")]
            (if truthy data then Some data else None) ms).
  split; [reflexivity|split; [reflexivity|split; [|split; [reflexivity|]]]].
  - split; [reflexivity|]. now apply AbortSignal_timeout_defined.
  - intros w log. unfold SolanaLicenseManager.makeRequest, bind, lift. rewrite Hms.
    unfold try_catch, bind, fetch. cbn [req_body req_method].
    unfold sendable in Hsend.
    destruct (truthy data); cbn [andb negb] in Hsend;
      [destruct ((method =? "GET")%string || (method =? "HEAD")%string);
       [discriminate|]|];
      (rewrite transmit_run;
       destruct (w log _) as [resp|e]; cbn [settle];
       [destruct (ok resp); cbn [negb];
        [unfold lift; destruct (json resp) as [v|e];
         [reflexivity | now destruct (instanceof_SolanaError e)]
        | reflexivity]
       | now destruct (instanceof_SolanaError e)]).
Qed.

Lemma License_makeRequest_refused (this : SolanaLicenseManager.t) (method endpoint : string)
    (data : value) (e : exn) :
  AbortSignal_timeout (timeout (SolanaLicenseManager.config this)) = Throw e ->
  refused (SolanaLicenseManager.makeRequest this method endpoint data).
Proof.
  intros H w log. exists e. unfold SolanaLicenseManager.makeRequest, bind, lift.
  now rewrite H.
Qed.

(** Whatever the timeout and the request, the helper logs nothing but a
    request of its own making. *)
Lemma License_makeRequest_log (this : SolanaLicenseManager.t) (method endpoint : string)
    (data : value) (w : world) (log : list request) (r : request) :
  In r (fst (SolanaLicenseManager.makeRequest this method endpoint data w log)) ->
  In r log \/
  (req_method r = method /\
   req_body r = (if truthy data then Some data else None)).
Proof.
  unfold SolanaLicenseManager.makeRequest, bind, lift.
  destruct (AbortSignal_timeout (timeout (SolanaLicenseManager.config this))) as [ms|e];
    [|now left].
  unfold try_catch, bind, fetch. cbn [req_body req_method].
  set (sent := mkRequest _ _ _ _ _).
  assert (Hsent : req_method sent = method /\
                  req_body sent = (if truthy data then Some data else None))
    by (split; reflexivity).
  clearbody sent.
  destruct (truthy data);
    [destruct ((method =? "GET")%string || (method =? "HEAD")%string);
     [intro H; now left|]|];
    (rewrite transmit_run;
     destruct (goes_out w log sent);
     (destruct (w log sent) as [resp|e];
      [destruct (ok resp); cbn [negb];
       [unfold lift; destruct (json resp) as [v|e];
        [|destruct (instanceof_SolanaError e)]
       |]
      |destruct (instanceof_SolanaError e)]);
     cbn [fst throw]; intro H;
     first [ now left
           | apply in_app_or in H; destruct H as [H|[H|[]]];
             [now left | right; now subst] ]).
Qed.

(** The request helper of the SolanaNFTManager: with a timeout that
    [AbortSignal.timeout] takes and a request that [fetch] takes, it hands
    [fetch] one request, to the given endpoint of the API, which is logged
    if it goes out, and settles as the answer decides; without such a
    timeout it is refused with the TypeError before anything is sent. *)
Lemma NFT_makeRequest_run (this : SolanaNFTManager.t) (method endpoint : string)
    (data : value) (ms : Z) :
  AbortSignal_timeout (timeout (SolanaNFTManager.config this)) = Ok ms ->
  sendable method data = true ->
  exists r,
    req_url r =
      template (fun s => s) (baseUrl (SolanaNFTManager.config this)) ++ endpoint /\
    req_method r = method /\
    authorized (SolanaNFTManager.config this) r /\
    req_body r = (if truthy data then Some data else None) /\
    forall w log,
      SolanaNFTManager.makeRequest this method endpoint data w log =
      ((if goes_out w log r then log ++ [r] else log)%list,
       settle "API request failed" (w log r)).
Proof.
  intros Hms Hsend.
  exists (mkRequest
            (template (fun s => s) (baseUrl (SolanaNFTManager.config this)) ++ endpoint)
            method
            [("Content-Type", "application/json");
             ("Authorization", "Bearer " ++ apiKey (SolanaNFTManager.config this));
             ("X-API-Version", "1.0");
             ("X-Platform", "solana")]
            (if truthy data then Some data else None) ms).
  split; [reflexivity|split; [reflexivity|split; [|split; [reflexivity|]]]].
  - split; [reflexivity|]. now apply AbortSignal_timeout_defined.
  - intros w log. unfold SolanaNFTManager.makeRequest, bind, lift. rewrite Hms.
    unfold try_catch, bind, fetch. cbn [req_body req_method].
    unfold sendable in Hsend.
    destruct (truthy data); cbn [andb negb] in Hsend;
      [destruct ((method =? "GET")%string || (method =? "HEAD")%string);
       [discriminate|]|];
      (rewrite transmit_run;
       destruct (w log _) as [resp|e]; cbn [settle];
       [destruct (ok resp); cbn [negb];
        [unfold lift; destruct (json resp) as [v|e];
         [reflexivity | now destruct (instanceof_SolanaError e)]
        | reflexivity]
       | now destruct (instanceof_SolanaError e)]).
Qed.

Lemma NFT_makeRequest_refused (this : SolanaNFTManager.t) (method endpoint : string)
    (data : value) (e : exn) :
  AbortSignal_timeout (timeout (SolanaNFTManager.config this)) = Throw e ->
  refused (SolanaNFTManager.makeRequest this method endpoint data).
Proof.
  intros H w log. exists e. unfold SolanaNFTManager.makeRequest, bind, lift.
  now rewrite H.
Qed.

(** The request helper of the SolanaDeFiManager: with a timeout that
    [AbortSignal.timeout] takes and a request that [fetch] takes, it hands
    [fetch] one request, to the given endpoint of the API, which is logged
    if it goes out, and settles as the answer decides; without such a
    timeout it is refused with the TypeError before anything is sent. *)
Lemma DeFi_makeRequest_run (this : SolanaDeFiManager.t) (method endpoint : string)
    (data : value) (ms : Z) :
  AbortSignal_timeout (timeout (SolanaDeFiManager.config this)) = Ok ms ->
  sendable method data = true ->
  exists r,
    req_url r =
      template (fun s => s) (baseUrl (SolanaDeFiManager.config this)) ++ endpoint /\
    req_method r = method /\
    authorized (SolanaDeFiManager.config this) r /\
    req_body r = (if truthy data then Some data else None) /\
    forall w log,
      SolanaDeFiManager.makeRequest this method endpoint data w log =
      ((if goes_out w log r then log ++ [r] else log)%list,
       settle "API request failed" (w log r)).
Proof.
  intros Hms Hsend.
  exists (mkRequest
            (template (fun s => s) (baseUrl (SolanaDeFiManager.config this)) ++ endpoint)
            method
            [("Content-Type", "application/json");
             ("Authorization", "Bearer " ++ apiKey (SolanaDeFiManager.config this));
             ("X-API-Version", "1.0");
             ("X-Platform", "solana")]
            (if truthy data then Some data else None) ms).
  split; [reflexivity|split; [reflexivity|split; [|split; [reflexivity|]]]].
  - split; [reflexivity|]. now apply AbortSignal_timeout_defined.
  - intros w log. unfold SolanaDeFiManager.makeRequest, bind, lift. rewrite Hms.
    unfold try_catch, bind, fetch. cbn [req_body req_method].
    unfold sendable in Hsend.
    destruct (truthy data); cbn [andb negb] in Hsend;
      [destruct ((method =? "GET")%string || (method =? "HEAD")%string);
       [discriminate|]|];
      (rewrite transmit_run;
       destruct (w log _) as [resp|e]; cbn [settle];
       [destruct (ok resp); cbn [negb];
        [unfold lift; destruct (json resp) as [v|e];
         [reflexivity | now destruct (instanceof_SolanaError e)]
        | reflexivity]
       | now destruct (instanceof_SolanaError e)]).
Qed.

Lemma DeFi_makeRequest_refused (this : SolanaDeFiManager.t) (method endpoint : string)
    (data : value) (e : exn) :
  AbortSignal_timeout (timeout (SolanaDeFiManager.config this)) = Throw e ->
  refused (SolanaDeFiManager.makeRequest this method endpoint data).
Proof.
  intros H w log. exists e. unfold SolanaDeFiManager.makeRequest, bind, lift.
  now rewrite H.
Qed.

(** ** The checks of the managers *)

Ltac silence :=
  repeat (intros; cbv beta;
          first [apply silent_bind | apply silent_if | apply silent_lift
                | apply silent_throw | apply silent_ret]).

Ltac decide_checks :=
  repeat match goal with
         | |- context [truthy ?x] => destruct (truthy x) eqn:?
         end;
  repeat match goal with
         | |- context [validatePublicKey ?x] =>
             destruct (validatePublicKey x) eqn:?
         end;
  repeat match goal with
         | |- context [?d <=? 0] => destruct (d <=? 0) eqn:?
         end;
  cbn [negb orb andb].

Ltac unfold_license :=
  unfold license_accepts, license_required, license_op,
    license_path, license_method, interpolate,
    SolanaLicenseManager.createLicense,
    SolanaLicenseManager.validateLicense, SolanaLicenseManager.getLicense,
    SolanaLicenseManager.updateLicense, SolanaLicenseManager.revokeLicense,
    SolanaLicenseManager.getUserLicenses,
    SolanaLicenseManager.getProductLicenses,
    SolanaLicenseManager.extendLicense, SolanaLicenseManager.suspendLicense,
    SolanaLicenseManager.unsuspendLicense,
    SolanaLicenseManager.getLicenseStats,
    falsy;
  cbn [forallb].

Ltac unfold_nft :=
  unfold nft_accepts, nft_required, nft_addresses, nft_op,
    nft_path, nft_method, interpolate,
    SolanaNFTManager.createNFT, SolanaNFTManager.getNFT,
    SolanaNFTManager.transferNFT, SolanaNFTManager.getOwnerNFTs,
    SolanaNFTManager.getCollectionNFTs, SolanaNFTManager.updateNFTMetadata,
    SolanaNFTManager.burnNFT, SolanaNFTManager.createCollection,
    SolanaNFTManager.getCollection, SolanaNFTManager.listNFT,
    SolanaNFTManager.unlistNFT, SolanaNFTManager.buyNFT,
    SolanaNFTManager.getMarketplaceListings, SolanaNFTManager.getNFTStats,
    falsy;
  cbn [forallb].

Ltac unfold_defi :=
  unfold defi_accepts, defi_required, defi_addresses, defi_op,
    defi_path, defi_method, interpolate,
    SolanaDeFiManager.getPositions, SolanaDeFiManager.getLiquidityPools,
    SolanaDeFiManager.addLiquidity, SolanaDeFiManager.removeLiquidity,
    SolanaDeFiManager.swapTokens, SolanaDeFiManager.getLendingPools,
    SolanaDeFiManager.supplyLiquidity, SolanaDeFiManager.borrowLiquidity,
    SolanaDeFiManager.repayLiquidity, SolanaDeFiManager.getStakingPools,
    SolanaDeFiManager.stakeTokens, SolanaDeFiManager.unstakeTokens,
    SolanaDeFiManager.claimRewards, SolanaDeFiManager.getYieldFarms,
    SolanaDeFiManager.farmYield, SolanaDeFiManager.harvestYield,
    SolanaDeFiManager.getDeFiStats,
    falsy;
  cbn [forallb].

Ltac check_fails :=
  unfold run_op, try_catch; decide_checks;
  let H := fresh "H" in
  intro H; try discriminate H; eexists; reflexivity.

(** The value printed into the path, if there is one, is settled first. *)
Ltac decide_path :=
  try match goal with
      | |- context [to_string ?x] =>
          let Hs := fresh "Hs" in destruct (to_string x) eqn:Hs
      end.


Ltac sends_one run ms Hms :=
  decide_checks; decide_path;
  let H := fresh "H" in
  let Hp := fresh "Hp" in
  let r := fresh "r" in
  let Hurl := fresh "Hurl" in
  let Hmethod := fresh "Hmethod" in
  let Hauth := fresh "Hauth" in
  let Hrun := fresh "Hrun" in
  intros H Hp;
  first
    [ discriminate H
    | discriminate Hp
    | injection Hp as <-;
      rewrite ?bind_lift_ok; cbv beta;
      match goal with
      | |- context [bind (?makeRequest ?t ?m ?e ?d) _] =>
          destruct (run t m e d ms Hms eq_refl)
            as [r [Hurl [Hmethod [Hauth [_ Hrun]]]]]
      end;
      exists r;
      split; [exact Hurl|split; [exact Hmethod|split; [exact Hauth|]]];
      unfold requests_of, run_op;
      rewrite log_try_catch by silence;
      rewrite log_bind by silence;
      rewrite Hrun; reflexivity ].




(** The path of an accepted operation of the DeFi manager is always
    there: what is printed into it has passed the check of an address. *)
Lemma defi_path_accepted (c : defi_call) :
  defi_accepts c = true -> exists endpoint, defi_path c = Ok endpoint.
Proof.
  destruct c; unfold defi_accepts, defi_required, defi_addresses, defi_path,
    interpolate; cbn [forallb];
    try (intros _; eexists; reflexivity);
    decide_checks; intro H; try discriminate H;
    match goal with
    | Hv : validatePublicKey ?x = true |- context [to_string ?x] =>
        destruct (to_string_valid x Hv) as [s ->]
    end;
    eexists; reflexivity.
Qed.

(** X18.  Every operation of the DeFi manager checks its arguments before
    anything else.  When a required argument counts as false (an amount of
    0 is one, and so is a minimum output of 0 for a swap) or an address is
    malformed it rejects with a ValidationError and no request is made.
    Otherwise the path of the operation is there (what is printed into it
    is a checked address) and, with a usable timeout, the operation hands
    [fetch] exactly one request: to that path under the base URL, with
    the operation's method, the key as bearer token and the configured
    timeout; that request is the only one made, and it is made unless the
    platform turns it down. *)
Theorem defi_manager_checks (this : SolanaDeFiManager.t) (c : defi_call)
    (w : world) :
  (defi_accepts c = false ->
   exists message,
     run_op (defi_op this c) w =
     ([], Throw (SolanaValidationError message NoDetails))) /\
  (defi_accepts c = true ->
   exists endpoint,
     defi_path c = Ok endpoint /\
     forall ms,
       AbortSignal_timeout (timeout (SolanaDeFiManager.config this)) = Ok ms ->
       exists r,
         req_url r =
           template (fun s => s) (baseUrl (SolanaDeFiManager.config this))
           ++ endpoint /\
         req_method r = defi_method c /\
         authorized (SolanaDeFiManager.config this) r /\
         requests_of (defi_op this c) w =
           if goes_out w [] r then [r] else []).
Proof.
  split.
  - destruct c; unfold_defi; check_fails.
  - intro Hacc. destruct (defi_path_accepted c Hacc) as [endpoint Hpath].
    exists endpoint. split; [exact Hpath|]. intros ms Hms.
    revert Hacc Hpath.
    destruct c; unfold_defi; sends_one DeFi_makeRequest_run ms Hms.
Qed.



Lemma defi_manager_checks_witness :
  (exists message,
     run_op (defi_op (LicenseChainSolana.defiManager default_sdk)
                     (D_swapTokens token_program token_program (VNumber 5)
                                   (VNumber 0) token_program))
            (mock_rpc VNull) =
     ([], Throw (SolanaValidationError message NoDetails))) /\
  (exists r,
     req_url r =
       "https://api.licensechain.com/defi/positions/TokenkegQfeZyiNwAJbNbGKPFXCWuBvf9Ss623VQ5DA" /\
     req_method r = "GET" /\
     authorized (LicenseChainSolana.config default_sdk) r /\
     requests_of (defi_op (LicenseChainSolana.defiManager default_sdk)
                          (D_getPositions token_program))
                 (mock_rpc VNull) = [r]).
Proof.
  split.
  - exact (proj1 (defi_manager_checks
                    (LicenseChainSolana.defiManager default_sdk)
                    (D_swapTokens token_program token_program (VNumber 5)
                                  (VNumber 0) token_program)
                    (mock_rpc VNull))
                 eq_refl).
  - destruct (proj2 (defi_manager_checks
                       (LicenseChainSolana.defiManager default_sdk)
                       (D_getPositions token_program) (mock_rpc VNull))
                    eq_refl) as [endpoint [Hpath Hsend]].
    injection Hpath as <-. exact (Hsend 30000 eq_refl).
Defined.

(** ** What the managers reject with *)

(** X19.  Whatever the arguments and whatever the network does, an
    operation of a manager rejects only with an instance of [SolanaError]:
    no error of the platform reaches the caller as it is. *)
Theorem managers_reject_typed :
  (forall this c, typed (license_op this c)) /\
  (forall this c, typed (nft_op this c)) /\
  (forall this c, typed (defi_op this c)).
Proof.
  split; [|split]; intros this c; destruct c; apply typed_rethrow.
Qed.

Lemma license_op_typed (this : SolanaLicenseManager.t) (c : license_call) :
  typed (license_op this c).
Proof. destruct c; apply typed_rethrow. Qed.

Lemma nft_op_typed (this : SolanaNFTManager.t) (c : nft_call) :
  typed (nft_op this c).
Proof. destruct c; apply typed_rethrow. Qed.

Lemma defi_op_typed (this : SolanaDeFiManager.t) (c : defi_call) :
  typed (defi_op this c).
Proof. destruct c; apply typed_rethrow. Qed.

Ltac refuse lemma H :=
  repeat (intros; cbv beta zeta;
          first [ apply refused_try_catch | apply refused_if
                | apply refused_throw
                | eapply lemma; exact H
                | apply refused_bind_lift
                | apply refused_bind ]).

Lemma license_op_refused (this : SolanaLicenseManager.t) (c : license_call)
    (e : exn) :
  AbortSignal_timeout (timeout (SolanaLicenseManager.config this)) = Throw e ->
  refused (license_op this c).
Proof.
  intro H. destruct c; unfold_license; refuse License_makeRequest_refused H.
Qed.

Lemma nft_op_refused (this : SolanaNFTManager.t) (c : nft_call) (e : exn) :
  AbortSignal_timeout (timeout (SolanaNFTManager.config this)) = Throw e ->
  refused (nft_op this c).
Proof.
  intro H. destruct c; unfold_nft; refuse NFT_makeRequest_refused H.
Qed.

Lemma defi_op_refused (this : SolanaDeFiManager.t) (c : defi_call) (e : exn) :
  AbortSignal_timeout (timeout (SolanaDeFiManager.config this)) = Throw e ->
  refused (defi_op this c).
Proof.
  intro H. destruct c; unfold_defi; refuse DeFi_makeRequest_refused H.
Qed.

Lemma refused_typed_run {A : Type} (m : M A) (w : world) :
  refused m -> typed m ->
  exists e, run_op m w = ([], Throw e) /\ instanceof_SolanaError e = true.
Proof.
  intros Hr Ht. destruct (Hr w []) as [e He]. exists e.
  split; [exact He|]. apply (Ht w [] e). unfold run_op in *. now rewrite He.
Qed.

(** X20.  A manager built on a configuration without a usable timeout (the
    property is missing, [undefined], negative or too large) never sends
    anything: every operation, even one without arguments, rejects with an
    instance of [SolanaError] before a request is made. *)
Theorem managers_without_timeout (config : SolanaConfig) (e0 : exn)
    (w : world) :
  AbortSignal_timeout (timeout config) = Throw e0 ->
  (forall c, exists e,
     run_op (license_op (SolanaLicenseManager.new config) c) w =
       ([], Throw e) /\ instanceof_SolanaError e = true) /\
  (forall c, exists e,
     run_op (nft_op (SolanaNFTManager.new config) c) w = ([], Throw e) /\
     instanceof_SolanaError e = true) /\
  (forall c, exists e,
     run_op (defi_op (SolanaDeFiManager.new config) c) w = ([], Throw e) /\
     instanceof_SolanaError e = true).
Proof.
  intro H. split; [|split]; intro c; apply refused_typed_run.
  - now apply (license_op_refused _ _ e0).
  - apply license_op_typed.
  - now apply (nft_op_refused _ _ e0).
  - apply nft_op_typed.
  - now apply (defi_op_refused _ _ e0).
  - apply defi_op_typed.
Qed.

Lemma managers_without_timeout_witness :
  exists e,
    run_op (license_op (SolanaLicenseManager.new
                          (mkConfig "key" (Defined "https://api.example")
                                    Absent Absent Absent))
                       L_getLicenseStats)
           (mock_rpc VNull) = ([], Throw e) /\
    instanceof_SolanaError e = true.
Proof.
  destruct (managers_without_timeout
              (mkConfig "key" (Defined "https://api.example")
                        Absent Absent Absent)
              (NativeError "TypeError") (mock_rpc VNull) eq_refl)
    as [H _].
  exact (H L_getLicenseStats).
Defined.

(** X21.  [getMarketplaceListings] never reaches the network: it always
    hands [fetch] a GET request with a body, which [fetch] refuses, so
    with a usable timeout the result is always the NetworkError "API
    request failed" holding the TypeError, and no request is made. *)
Theorem getMarketplaceListings_never_sends (this : SolanaNFTManager.t)
    (filters : value) (w : world) :
  requests_of (SolanaNFTManager.getMarketplaceListings this filters) w = [] /\
  (exists e,
     result_of (SolanaNFTManager.getMarketplaceListings this filters) w =
       Throw e /\ instanceof_SolanaError e = true) /\
  (forall ms,
     AbortSignal_timeout (timeout (SolanaNFTManager.config this)) = Ok ms ->
     result_of (SolanaNFTManager.getMarketplaceListings this filters) w =
       Throw (SolanaNetworkError "API request failed"
                                 (Cause (NativeError "TypeError")))).
Proof.
  unfold requests_of, result_of, run_op,
    SolanaNFTManager.getMarketplaceListings, SolanaNFTManager.makeRequest,
    try_catch, bind, lift, fetch.
  destruct (AbortSignal_timeout (timeout (SolanaNFTManager.config this)))
    as [ms|e]; cbn.
  - split; [reflexivity|]. split; [eexists; split; reflexivity|].
    intros ms' _. reflexivity.
  - destruct (instanceof_SolanaError e) eqn:E; cbn;
      (split; [reflexivity|]);
      (split; [eexists; split; [reflexivity|] | intros ms' H; discriminate H]);
      [exact E | reflexivity].
Qed.

(** ** Transport failures *)

Ltac surfaces run ms Hms Hw Hsettle Htyped :=
  decide_checks; decide_path;
  let H := fresh "H" in
  let Hp := fresh "Hp" in
  let r := fresh "r" in
  let Hrun := fresh "Hrun" in
  intros H Hp;
  first
    [ discriminate H
    | discriminate Hp
    | clear Hp; rewrite ?bind_lift_ok; cbv beta;
      match goal with
      | |- context [bind (?makeRequest ?t ?m ?e ?d) _] =>
          destruct (run t m e d ms Hms eq_refl)
            as [r [_ [_ [_ [_ Hrun]]]]]
      end;
      unfold result_of, run_op, try_catch, bind;
      rewrite Hrun, Hw, Hsettle; cbn [snd]; rewrite Htyped; reflexivity ].

(** X22.  A failure of the transport reaches the caller of a manager
    operation as the NetworkError of the request helper, unchanged: for an
    answer that is not ok, "HTTP <status>: <statusText>"; for a [fetch]
    that rejects, "API request failed" with the cause in [details].  This
    holds for every operation whose arguments pass the checks and whose
    path can be written, which for the DeFi manager is every operation
    whose arguments pass the checks.  ([getMarketplaceListings] never gets
    that far.) *)
Theorem managers_surface_transport_errors (config : SolanaConfig)
    (w : world) (ms : Z) (outcome : result response) (e : exn) :
  AbortSignal_timeout (timeout config) = Ok ms ->
  (forall req, w [] req = outcome) ->
  (exists answer,
     outcome = Ok answer /\ ok answer = false /\ e = http_error answer) \/
  (exists failure,
     outcome = Throw failure /\ instanceof_SolanaError failure = false /\
     e = SolanaNetworkError "API request failed" (Cause failure)) ->
  (forall c endpoint,
     license_accepts c = true -> license_path c = Ok endpoint ->
     result_of (license_op (SolanaLicenseManager.new config) c) w = Throw e) /\
  (forall c endpoint,
     nft_accepts c = true -> nft_path c = Ok endpoint ->
     (forall filters, c <> N_getMarketplaceListings filters) ->
     result_of (nft_op (SolanaNFTManager.new config) c) w = Throw e) /\
  (forall c, defi_accepts c = true ->
     result_of (defi_op (SolanaDeFiManager.new config) c) w = Throw e).
Proof.
  intros Hms Hw Hcase.
  assert (Hsettle : settle "API request failed" outcome = Throw e).
  { destruct Hcase as [[answer [-> [Hok ->]]]|[failure [-> [Hf ->]]]];
      cbn [settle]; [now rewrite Hok | now rewrite Hf]. }
  assert (Htyped : instanceof_SolanaError e = true).
  { destruct Hcase as [[answer [_ [_ ->]]]|[failure [_ [_ ->]]]];
      reflexivity. }
  clear Hcase. split; [|split].
  - intros c endpoint. destruct c; unfold_license;
      surfaces License_makeRequest_run ms Hms Hw Hsettle Htyped.
  - intros c endpoint Hacc Hpath Hother. revert Hacc Hpath.
    destruct c; try (exfalso; eapply Hother; reflexivity); clear Hother;
      unfold_nft; cbv zeta;
      surfaces NFT_makeRequest_run ms Hms Hw Hsettle Htyped.
  - intros c Hacc. destruct (defi_path_accepted c Hacc) as [endpoint Hpath].
    revert Hacc Hpath. destruct c; unfold_defi;
      surfaces DeFi_makeRequest_run ms Hms Hw Hsettle Htyped.
Qed.

Lemma managers_surface_transport_errors_witness :
  result_of
    (license_op (LicenseChainSolana.licenseManager default_sdk)
                (L_getLicense (VString "lic-1")))
    (mkWorld (fun _ _ => Ok (mkResponse false 503 "Service Unavailable"
                                        (Ok VNull)))
             (fun _ _ => false)) =
  Throw (SolanaNetworkError "HTTP 503: Service Unavailable" NoDetails).
Proof.
  destruct (managers_surface_transport_errors
              (LicenseChainSolana.config default_sdk)
              (mkWorld (fun _ _ => Ok (mkResponse false 503
                                         "Service Unavailable" (Ok VNull)))
                       (fun _ _ => false))
              30000
              (Ok (mkResponse false 503 "Service Unavailable" (Ok VNull)))
              (SolanaNetworkError "HTTP 503: Service Unavailable" NoDetails)
              eq_refl (fun _ => eq_refl)
              (or_introl
                 (ex_intro _ (mkResponse false 503 "Service Unavailable"
                                         (Ok VNull))
                    (conj eq_refl (conj eq_refl eq_refl)))))
    as [H _].
  exact (H (L_getLicense (VString "lic-1")) "/licenses/lic-1"
           eq_refl eq_refl).
Defined.

(** ** Objects that are spread into a request *)

Lemma lookup_app (k : string) (a b : list (string * value)) :
  lookup k (a ++ b) =
  match lookup k a with
  | Some v => Some v
  | None => lookup k b
  end.
Proof.
  induction a as [|[k1 v1] a IH]; [reflexivity|]. cbn.
  destruct (k =? k1)%string; [reflexivity | exact IH].
Qed.

(** In an object literal the last entry for a key is the one that
    counts. *)
Lemma lookup_object_entries (k : string) (entries : list (string * value)) :
  forall acc,
    lookup k (fold_left (fun o kv => set_prop o (fst kv) (snd kv)) entries acc) =
    match lookup k (rev entries) with
    | Some v => Some v
    | None => lookup k acc
    end.
Proof.
  induction entries as [|[k1 v1] r IH]; intro acc; [reflexivity|].
  cbn [fold_left rev fst snd]. rewrite IH, lookup_app, lookup_set_prop.
  destruct (lookup k (rev r)); [reflexivity|]. cbn [lookup].
  now destruct (k =? k1)%string.
Qed.

Lemma get_object_literal (k : string) (entries : list (string * value)) :
  get (object_literal entries) k =
  Ok (match lookup k (rev entries) with
      | Some v => v
      | None => VUndefined
      end).
Proof.
  unfold object_literal, get. rewrite lookup_object_entries.
  now destruct (lookup k (rev entries)).
Qed.

Lemma requests_of_guarded {A : Type} (m : M value) (k : value -> M A)
    (h : exn -> M A) (w : world) :
  (forall a, silent (k a)) -> (forall e, silent (h e)) ->
  requests_of (try_catch (bind m k) h) w = fst (m w []).
Proof.
  intros Hk Hh. unfold requests_of, run_op.
  rewrite log_try_catch by exact Hh. now rewrite log_bind by exact Hk.
Qed.

(** X23.  What the caller passes in [metadata] or [updates] cannot replace
    the marks of the SDK in the object that is serialised into the body.
    Every request that [createLicense] makes is a POST whose body is built
    from an object with [metadata.platform] "solana" and
    [metadata.createdVia] "sdk", and every request that [updateLicense]
    makes is a PUT whose body is built from an object with [platform]
    "solana", whatever the spread object holds under those names.  (The
    properties of a value are data; none of them is a function that
    [JSON.stringify] would call.) *)
Theorem license_marks_override (this : SolanaLicenseManager.t)
    (id productId spreadObject : value) (w : world) (r : request) :
  (In r (requests_of (SolanaLicenseManager.createLicense this id productId
                        spreadObject) w) ->
   exists body metadata,
     req_method r = "POST" /\
     req_body r = Some body /\
     get body "metadata" = Ok metadata /\
     get metadata "platform" = Ok (VString "solana") /\
     get metadata "createdVia" = Ok (VString "sdk")) /\
  (In r (requests_of (SolanaLicenseManager.updateLicense this id
                        spreadObject) w) ->
   exists body,
     req_method r = "PUT" /\
     req_body r = Some body /\
     get body "platform" = Ok (VString "solana")).
Proof.
  split.
  - unfold SolanaLicenseManager.createLicense.
    destruct (falsy id || falsy productId); [intros []|].
    rewrite requests_of_guarded by silence. intro H.
    apply License_makeRequest_log in H. destruct H as [[]|[Hmethod Hbody]].
    eexists. eexists. split; [exact Hmethod|]. split; [exact Hbody|].
    split; [apply get_object_literal|].
    cbn [rev app lookup String.eqb Ascii.eqb Bool.eqb].
    rewrite !get_object_literal, !rev_app_distr. split; reflexivity.
  - unfold SolanaLicenseManager.updateLicense.
    destruct (falsy id); [intros []|].
    destruct (to_string id) as [segment|e].
    2: { unfold requests_of, run_op, try_catch, bind, lift.
         now destruct (instanceof_SolanaError e). }
    rewrite bind_lift_ok, requests_of_guarded by silence. intro H.
    apply License_makeRequest_log in H. destruct H as [[]|[Hmethod Hbody]].
    eexists. split; [exact Hmethod|]. split; [exact Hbody|].
    rewrite get_object_literal, rev_app_distr. reflexivity.
Qed.

Lemma license_marks_override_witness :
  let r :=
    mkRequest "https://api.licensechain.com/licenses/lic-1" "PUT"
      [("Content-Type", "application/json");
       ("Authorization", "Bearer api-key");
       ("X-API-Version", "1.0");
       ("X-Platform", "solana")]
      (Some (object_literal [("platform", VString "solana")]))
      30000 in
  let sent :=
    requests_of
      (SolanaLicenseManager.updateLicense
         (LicenseChainSolana.licenseManager default_sdk)
         (VString "lic-1")
         (VObject [("platform"%string, VString "other")]))
      (mock_rpc VNull) in
  In r sent /\
  exists body,
    req_method r = "PUT" /\
    req_body r = Some body /\
    get body "platform" = Ok (VString "solana").
Proof.
  intros r sent. split; [left; reflexivity|].
  apply (proj2 (license_marks_override
                  (LicenseChainSolana.licenseManager default_sdk)
                  (VString "lic-1") (VString "product")
                  (VObject [("platform"%string, VString "other")])
                  (mock_rpc VNull) r)).
  left. reflexivity.
Defined.

(** ** The JSON-RPC operations of the facade *)

Lemma at_most_once_silent {A : Type} (P : request -> Prop) (m : M A) :
  silent m -> at_most_once P m.
Proof. intros H w log. left. apply H. Qed.

Lemma at_most_once_bind_first {A B : Type} (P : request -> Prop) (m : M A)
    (k : A -> M B) :
  at_most_once P m -> (forall a, silent (k a)) -> at_most_once P (bind m k).
Proof. intros Hm Hk w log. rewrite log_bind by exact Hk. apply Hm. Qed.

Lemma at_most_once_bind_later {A B : Type} (P : request -> Prop) (m : M A)
    (k : A -> M B) :
  silent m -> (forall a, at_most_once P (k a)) -> at_most_once P (bind m k).
Proof.
  intros Hm Hk w log. unfold bind. specialize (Hm w log).
  destruct (m w log) as [log' [a|e]]; cbn in Hm; subst log'.
  - apply Hk.
  - now left.
Qed.

Lemma at_most_once_try_catch {A : Type} (P : request -> Prop) (m : M A)
    (h : exn -> M A) :
  at_most_once P m -> (forall e, silent (h e)) ->
  at_most_once P (try_catch m h).
Proof. intros Hm Hh w log. rewrite log_try_catch by exact Hh. apply Hm. Qed.

Lemma silent_match_optional {A B : Type} (p : optional A) (x : M B)
    (f : A -> M B) :
  silent x -> (forall a, silent (f a)) ->
  silent (match p with Defined a => f a | _ => x end).
Proof. intros Hx Hf. destruct p; [exact Hx | exact Hx | apply Hf]. Qed.

Lemma makeRPCRequest_at_most_once (this : LicenseChainSolana.t)
    (method : string) (params : list value) :
  at_most_once (rpc_request (LicenseChainSolana.config this))
               (LicenseChainSolana.makeRPCRequest this method params).
Proof.
  intros w log. unfold LicenseChainSolana.makeRPCRequest.
  destruct (AbortSignal_timeout (timeout (LicenseChainSolana.config this)))
    as [ms|e] eqn:Hms; [|left; reflexivity].
  match goal with
  | |- fst ?run = _ \/ _ =>
      assert (H : exists r,
                fst run = (if goes_out w log r then log ++ [r] else log)%list
                /\ rpc_request (LicenseChainSolana.config this) r)
  end.
  { eexists. split.
    - unfold bind at 1. unfold lift at 1. cbn iota beta.
      rewrite log_try_catch by silence.
      rewrite log_bind.
      + unfold fetch. cbn [req_body req_method String.eqb Ascii.eqb
                             Bool.eqb orb].
        rewrite transmit_run. reflexivity.
      + intro response. apply silent_if; [apply silent_throw|].
        apply silent_bind; [apply silent_lift|]. intro data.
        apply silent_bind; [apply silent_lift|]. intro error.
        apply silent_if; [|apply silent_ret].
        apply silent_bind; [apply silent_lift|]. intro message.
        apply silent_bind; [apply silent_lift|]. intro rpcCode.
        apply silent_bind; [apply silent_lift|]. intro text.
        apply silent_throw.
    - unfold rpc_request. cbn [req_url req_method req_headers req_body].
      split; [reflexivity|]. split; [reflexivity|].
      split; [right; now left|]. now exists method, params. }
  destruct H as [r [Hlog Hr]]. rewrite Hlog.
  destruct (goes_out w log r); [right; now exists r | now left].
Qed.

Ltac quiet :=
  solve [ repeat (intros; cbv beta;
                  first [ apply silent_bind | apply silent_if
                        | apply silent_lift | apply silent_throw
                        | apply silent_ret
                        | apply silent_match_optional ]) ].

Ltac one_request :=
  cbv zeta;
  apply at_most_once_try_catch; [|quiet];
  repeat first
    [ apply at_most_once_bind_first;
      [apply makeRPCRequest_at_most_once | quiet]
    | apply at_most_once_bind_later; [quiet | intro] ].

(** X24.  No JSON-RPC operation of the facade sends more than one request,
    whatever [retries] is set to, and a request it sends is a POST to the
    RPC endpoint that carries the API key as bearer token. *)
Theorem facade_rpc_requests (this : LicenseChainSolana.t) (c : rpc_call)
    (w : world) :
  requests_of (rpc_op this c) w = [] \/
  exists r, requests_of (rpc_op this c) w = [r] /\
            rpc_request (LicenseChainSolana.config this) r.
Proof.
  assert (H : at_most_once (rpc_request (LicenseChainSolana.config this))
                           (rpc_op this c)).
  { destruct c; cbn [rpc_op];
      unfold LicenseChainSolana.getAccount, LicenseChainSolana.getBalance,
        LicenseChainSolana.getTokenAccounts,
        LicenseChainSolana.sendTransaction,
        LicenseChainSolana.confirmTransaction,
        LicenseChainSolana.getTransaction, LicenseChainSolana.getProgram,
        LicenseChainSolana.getBlock, LicenseChainSolana.getLatestBlockhash,
        LicenseChainSolana.getClusterInfo, LicenseChainSolana.getValidators,
        LicenseChainSolana.getStakeAccounts;
      one_request. }
  exact (H w []).
Qed.

Lemma catch_all {A : Type} (m : M A) (wrap : exn -> exn) (w : world)
    (log : list request) (e : exn) :
  snd (try_catch m (fun error => throw (wrap error)) w log) = Throw e ->
  exists inner, e = wrap inner.
Proof.
  unfold try_catch. destruct (m w log) as [log' [a|inner]]; cbn; intro H;
    [discriminate|].
  injection H as <-. now exists inner.
Qed.

(** X25.  Every JSON-RPC operation of the facade other than [getAccount]
    catches everything: whatever went wrong, a malformed address, a
    rejection of the node, an answer that lacks what is read from it, or
    the "not found" error the operation raised itself, the caller gets the
    one error of that operation, with its fixed code, and finds the actual
    error in [details]. *)
Theorem facade_catches_everything (this : LicenseChainSolana.t)
    (c : rpc_call) (w : world) (e : exn) :
  (forall publicKey, c <> R_getAccount publicKey) ->
  result_of (rpc_op this c) w = Throw e ->
  code_of e = Some (rpc_failure_code c) /\
  exists inner, details_of e = Cause inner.
Proof.
  intros Hother H. unfold result_of, run_op in H.
  destruct c; try (exfalso; eapply Hother; reflexivity);
    apply catch_all in H; destruct H as [inner ->];
    (split; [reflexivity | now exists inner]).
Qed.

Lemma facade_catches_everything_witness :
  let e := SolanaError "Failed to get block" "BLOCK_ERROR"
             (Cause (SolanaError "Block not found" "BLOCK_NOT_FOUND"
                                 NoDetails)) in
  code_of e = Some (rpc_failure_code (R_getBlock (VNumber 7))) /\
  exists inner, details_of e = Cause inner.
Proof.
  intro e.
  apply (facade_catches_everything default_sdk (R_getBlock (VNumber 7))
           (mock_rpc (VObject [("value"%string, VNull)])) e).
  - discriminate.
  - reflexivity.
Defined.

(** ** confirmTransaction and getClusterInfo against an answering endpoint *)

Section Answered.
Variable this : LicenseChainSolana.t.
Variable w : world.
Variable ms : Z.
Variable answer : response.
Variables data error : value.

Hypothesis signal :
  AbortSignal_timeout (timeout (LicenseChainSolana.config this)) = Ok ms.
Hypothesis answered : forall req, w [] req = Ok answer.
Hypothesis answer_ok : ok answer = true.
Hypothesis answer_json : json answer = Ok data.
Hypothesis error_field : get data "error" = Ok error.
Hypothesis no_error : truthy error = false.

(** X26.  [confirmTransaction] reports the commitment it was asked for,
    ["confirmed"] when none was given, as the status of any transaction
    the node knows: the commitment is not part of the request, and what
    the node says about the status is not read. *)
Theorem confirmTransaction_echoes_commitment
    (signature commitment v status : value) :
  get data "value" = Ok v -> get_first v = Ok status ->
  truthy status = true ->
  exists confirmation,
    result_of (LicenseChainSolana.confirmTransaction this signature
                 commitment) w = Ok confirmation /\
    get confirmation "confirmationStatus" =
      Ok (match commitment with
          | VUndefined => VString "confirmed"
          | _ => commitment
          end) /\
    get confirmation "signature" = Ok signature /\
    requests_of (LicenseChainSolana.confirmTransaction this signature
                   commitment) w =
    requests_of (LicenseChainSolana.confirmTransaction this signature
                   VUndefined) w.
Proof.
  intros value_field first_status found.
  destruct (makeRPCRequest_answered this w ms answer data error signal
              answered answer_ok answer_json error_field no_error
              "getSignatureStatuses"
              [VArray [signature];
               object_literal [("searchTransactionHistory", VBool true)]])
    as [req [Hrun _]].
  unfold run_op in Hrun.
  assert (Hresult : forall c,
            LicenseChainSolana.confirmTransaction this signature c w [] =
            ([req],
             Ok (object_literal
                   [("signature", signature);
                    ("slot", or_else (field status "slot") (VNumber 0));
                    ("blockTime",
                     or_else (field status "blockTime") (VNumber 0));
                    ("confirmationStatus",
                     match c with
                     | VUndefined => VString "confirmed"
                     | _ => c
                     end);
                    ("err", field status "err")]))).
  { intro c. unfold LicenseChainSolana.confirmTransaction, try_catch, bind,
      lift. rewrite Hrun, value_field, first_status. unfold falsy.
    rewrite found. cbn [negb]. rewrite !(get_truthy status) by exact found.
    reflexivity. }
  eexists. unfold result_of, requests_of, run_op. rewrite !Hresult.
  split; [reflexivity|]. split; [|split; [|reflexivity]];
    rewrite get_object_literal; reflexivity.
Qed.

(** X27.  [getClusterInfo] asks the node for its cluster nodes and ignores
    the answer: for every answer without error the result names the
    cluster "Mainnet Beta", whichever endpoint is configured, gives the
    configured URL back and derives the websocket URL from it by replacing
    a leading [https://] with [wss://]. *)
Theorem getClusterInfo_ignores_answer (url rest : string) :
  rpcUrl (LicenseChainSolana.config this) = Defined url ->
  url = "https://" ++ rest ->
  exists info,
    result_of (LicenseChainSolana.getClusterInfo this) w = Ok info /\
    get info "name" = Ok (VString "Mainnet Beta") /\
    get info "rpcUrl" = Ok (VString url) /\
    get info "wsUrl" = Ok (VString ("wss://" ++ rest)).
Proof.
  intros Hurl Hrest.
  destruct (makeRPCRequest_answered this w ms answer data error signal
              answered answer_ok answer_json error_field no_error
              "getClusterNodes" [])
    as [req [Hrun _]].
  unfold run_op in Hrun.
  eexists. unfold result_of, run_op, LicenseChainSolana.getClusterInfo,
    try_catch, bind. rewrite Hrun, Hurl. unfold ret. cbn [snd].
  split; [reflexivity|].
  rewrite !get_object_literal. cbn [rev app lookup String.eqb Ascii.eqb
    Bool.eqb]. split; [reflexivity|]. split; [reflexivity|].
  do 2 f_equal. subst url. unfold String_replace.
  change (chars ("https://" ++ rest))
    with (chars "https://" ++ chars rest)%list.
  cbn. now rewrite str_chars.
Qed.
End Answered.

Lemma confirmTransaction_echoes_commitment_witness :
  let status :=
    VObject [("slot"%string, VNumber 5);
             ("confirmationStatus"%string, VString "processed")] in
  let data := VObject [("value"%string, VArray [status])] in
  exists confirmation,
    result_of (LicenseChainSolana.confirmTransaction default_sdk
                 (VString "sig") (VString "finalized"))
              (mock_rpc data) = Ok confirmation /\
    get confirmation "confirmationStatus" = Ok (VString "finalized") /\
    get confirmation "signature" = Ok (VString "sig") /\
    requests_of (LicenseChainSolana.confirmTransaction default_sdk
                   (VString "sig") (VString "finalized"))
                (mock_rpc data) =
    requests_of (LicenseChainSolana.confirmTransaction default_sdk
                   (VString "sig") VUndefined)
                (mock_rpc data).
Proof.
  intros status data.
  apply (confirmTransaction_echoes_commitment default_sdk (mock_rpc data)
           30000 (mkResponse true 200 "OK" (Ok data)) data VUndefined
           eq_refl (fun _ => eq_refl) eq_refl eq_refl eq_refl eq_refl
           (VString "sig") (VString "finalized") (VArray [status]) status);
    reflexivity.
Defined.

Lemma getClusterInfo_ignores_answer_witness :
  let sdk :=
    LicenseChainSolana.new
      (mkConfig "key" Absent (Defined "https://api.devnet.solana.com")
                Absent Absent) in
  exists info,
    result_of (LicenseChainSolana.getClusterInfo sdk) (mock_rpc (VObject []))
      = Ok info /\
    get info "name" = Ok (VString "Mainnet Beta") /\
    get info "rpcUrl" = Ok (VString "https://api.devnet.solana.com") /\
    get info "wsUrl" = Ok (VString ("wss://" ++ "api.devnet.solana.com")).
Proof.
  intro sdk.
  apply (getClusterInfo_ignores_answer sdk (mock_rpc (VObject [])) 30000
           (mkResponse true 200 "OK" (Ok (VObject []))) (VObject [])
           VUndefined eq_refl (fun _ => eq_refl) eq_refl eq_refl eq_refl
           eq_refl "https://api.devnet.solana.com" "api.devnet.solana.com");
    reflexivity.
Defined.

(** ** A configuration that names [timeout] without a value *)

Lemma refused_bind_silent {A B : Type} (m : M A) (k : A -> M B) :
  silent m -> (forall a, refused (k a)) -> refused (bind m k).
Proof.
  intros Hm Hk w log. unfold bind. specialize (Hm w log).
  destruct (m w log) as [log' [a|e]]; cbn in Hm; subst log'.
  - apply Hk.
  - now exists e.
Qed.

Lemma makeRPCRequest_refused (this : LicenseChainSolana.t) (method : string)
    (params : list value) (e : exn) :
  AbortSignal_timeout (timeout (LicenseChainSolana.config this)) = Throw e ->
  refused (LicenseChainSolana.makeRPCRequest this method params).
Proof.
  intros H w log. exists e.
  unfold LicenseChainSolana.makeRPCRequest, bind, lift. now rewrite H.
Qed.

Lemma typed_wrap {A : Type} (m : M A) (wrap : exn -> exn) :
  (forall e, instanceof_SolanaError (wrap e) = true) ->
  typed (try_catch m (fun error => throw (wrap error))).
Proof.
  intros Hwrap w log e H. apply catch_all in H. destruct H as [inner ->].
  apply Hwrap.
Qed.

Lemma typed_rethrow_wrap {A : Type} (m : M A) (wrap : exn -> exn) :
  (forall e, instanceof_SolanaError (wrap e) = true) ->
  typed (try_catch m (fun error =>
           if instanceof_SolanaError error then throw error
           else throw (wrap error))).
Proof.
  intros Hwrap w log e. unfold try_catch.
  destruct (m w log) as [log' [a|e']]; [discriminate|].
  destruct (instanceof_SolanaError e') eqn:E; cbn; intro H;
    injection H as <-; [exact E | apply Hwrap].
Qed.

Lemma rpc_op_typed (this : LicenseChainSolana.t) (c : rpc_call) :
  typed (rpc_op this c).
Proof.
  destruct c; cbn [rpc_op];
    first [ apply typed_rethrow_wrap; reflexivity
          | apply typed_wrap; reflexivity ].
Qed.

Ltac refuse_rpc H :=
  cbv zeta;
  apply refused_try_catch;
  [ repeat first
      [ apply refused_bind_silent; [quiet | intro]
      | apply refused_bind; eapply makeRPCRequest_refused; exact H ]
  | intro; first [apply refused_throw | apply refused_if; apply refused_throw] ].

Lemma rpc_op_refused (this : LicenseChainSolana.t) (c : rpc_call) (e : exn) :
  AbortSignal_timeout (timeout (LicenseChainSolana.config this)) = Throw e ->
  refused (rpc_op this c).
Proof.
  intro H. destruct c; cbn [rpc_op];
    unfold LicenseChainSolana.getAccount, LicenseChainSolana.getBalance,
      LicenseChainSolana.getTokenAccounts,
      LicenseChainSolana.sendTransaction,
      LicenseChainSolana.confirmTransaction,
      LicenseChainSolana.getTransaction, LicenseChainSolana.getProgram,
      LicenseChainSolana.getBlock, LicenseChainSolana.getLatestBlockhash,
      LicenseChainSolana.getClusterInfo, LicenseChainSolana.getValidators,
      LicenseChainSolana.getStakeAccounts;
    refuse_rpc H.
Qed.

(** X28.  The constructor of the facade lets a property of the given
    configuration replace the default even when its value is [undefined].
    A configuration that names [timeout] without a value therefore leaves
    the client without a timeout, and then nothing is ever sent: every
    JSON-RPC operation and every operation of the three managers of that
    client rejects with an instance of [SolanaError] before a request is
    made.  A configuration that does not name [timeout] gets 30000. *)
Theorem facade_timeout_undefined (config : SolanaConfig) (w : world) :
  timeout config = Undefined ->
  let sdk := LicenseChainSolana.new config in
  (forall c, exists e,
     run_op (rpc_op sdk c) w = ([], Throw e) /\
     instanceof_SolanaError e = true) /\
  (forall c, exists e,
     run_op (license_op (LicenseChainSolana.licenseManager sdk) c) w =
       ([], Throw e) /\ instanceof_SolanaError e = true) /\
  (forall c, exists e,
     run_op (nft_op (LicenseChainSolana.nftManager sdk) c) w =
       ([], Throw e) /\ instanceof_SolanaError e = true) /\
  (forall c, exists e,
     run_op (defi_op (LicenseChainSolana.defiManager sdk) c) w =
       ([], Throw e) /\ instanceof_SolanaError e = true) /\
  (forall other,
     timeout other = Absent ->
     timeout (LicenseChainSolana.config (LicenseChainSolana.new other)) =
       Defined 30000).
Proof.
  intros Hundefined sdk.
  assert (H : AbortSignal_timeout
                (timeout (LicenseChainSolana.config sdk)) =
              Throw (NativeError "TypeError")).
  { unfold sdk. cbn. now rewrite Hundefined. }
  split; [|split; [|split; [|split]]].
  - intro c. apply refused_typed_run;
      [now apply (rpc_op_refused _ _ (NativeError "TypeError"))
      | apply rpc_op_typed].
  - intro c. apply refused_typed_run;
      [now apply (license_op_refused _ _ (NativeError "TypeError"))
      | apply license_op_typed].
  - intro c. apply refused_typed_run;
      [now apply (nft_op_refused _ _ (NativeError "TypeError"))
      | apply nft_op_typed].
  - intro c. apply refused_typed_run;
      [now apply (defi_op_refused _ _ (NativeError "TypeError"))
      | apply defi_op_typed].
  - intros other Habsent. cbn. now rewrite Habsent.
Qed.

Lemma facade_timeout_undefined_witness :
  exists e,
    run_op (rpc_op (LicenseChainSolana.new
                      (mkConfig "key" Absent Absent Undefined Absent))
                   R_getLatestBlockhash)
           (mock_rpc (VObject [])) = ([], Throw e) /\
    instanceof_SolanaError e = true.
Proof.
  destruct (facade_timeout_undefined
              (mkConfig "key" Absent Absent Undefined Absent)
              (mock_rpc (VObject [])) eq_refl) as [H _].
  exact (H R_getLatestBlockhash).
Defined.

(** ** formatUnits on a negative amount *)

Lemma drop_while_app_stop (p : ascii -> bool) (c : ascii)
    (a b : list ascii) :
  p c = false ->
  drop_while p (a ++ c :: b) = (drop_while p a ++ c :: b)%list.
Proof.
  intro Hc. induction a as [|x a IH]; cbn.
  - now rewrite Hc.
  - destruct (p x); [exact IH | reflexivity].
Qed.

Lemma drop_while_digits (p : ascii -> bool) (l : list ascii) :
  all_digits l -> all_digits (drop_while p l).
Proof.
  induction 1 as [|c l Hc Hl IH]; cbn; [constructor|].
  destruct (p c); [exact IH | now constructor].
Qed.

Lemma digits_value_minus (l : list ascii) :
  In "-"%char l -> forall acc, digits_value 10 acc l = None.
Proof.
  induction l as [|c l IH]; intros Hin acc; [contradiction|]. cbn.
  destruct Hin as [->|Hin]; [reflexivity|].
  destruct (digit_value 10 c); [now apply IH | reflexivity].
Qed.

(** A numeral with a minus sign anywhere but in front is no bigint. *)
Lemma StringToBigInt_inner_minus (c : ascii) (r : list ascii) :
  is_digit c = true \/ c = "-"%char ->
  Forall (fun x => is_digit x = true \/ x = "-"%char) r ->
  In "-"%char r ->
  StringToBigInt (str (c :: r)) = None.
Proof.
  intros Hc Hr Hin.
  assert (Hws : forall x, is_digit x = true \/ x = "-"%char ->
                          is_whitespace x = false).
  { intros x [Hx| ->]; [|reflexivity].
    now destruct (is_digit_facts x Hx) as [_ [_ [_ [H _]]]]. }
  assert (Htrim : trim_chars (c :: r) = c :: r).
  { unfold trim_chars. rewrite drop_while_head by now apply Hws.
    assert (Hlast : forall l,
              Forall (fun x => is_digit x = true \/ x = "-"%char) l ->
              drop_while is_whitespace l = l).
    { intros [|x l] Hl; [reflexivity|]. apply drop_while_head.
      inversion Hl; subst. now apply Hws. }
    rewrite Hlast, rev_involutive; [reflexivity|].
    apply Forall_rev. now constructor. }
  assert (Hall : parse_digits 10 (c :: r) = None).
  { unfold parse_digits. apply digits_value_minus. now right. }
  assert (Hrest : parse_digits 10 r = None).
  { destruct r; [contradiction|]. unfold parse_digits.
    now apply digits_value_minus. }
  unfold StringToBigInt. rewrite chars_str, Htrim.
  destruct Hc as [Hc| ->].
  - destruct r as [|x r']; [contradiction|].
    assert (Hx : Ascii.eqb x "x" || Ascii.eqb x "X" = false /\
                 Ascii.eqb x "o" || Ascii.eqb x "O" = false /\
                 Ascii.eqb x "b" || Ascii.eqb x "B" = false).
    { inversion Hr as [|? ? [Hx| ->] _]; subst; [|repeat split].
      now destruct (is_digit_facts x Hx)
        as [_ [_ [_ [_ [_ [_ [_ [E1 [E2 [E3 _]]]]]]]]]]. }
    destruct Hx as [E1 [E2 E3]].
    destruct c as [[] [] [] [] [] [] [] []]; try discriminate Hc;
      try exact Hall.
    rewrite E1, E2, E3. exact Hall.
  - now rewrite Hrest.
Qed.

(** X29.  [formatUnits] is wrong for a negative amount that is no whole
    number of units: the remainder keeps its minus sign, which lands
    behind the decimal point (and is the only sign when the integer part
    is 0), and [parseUnits] refuses the result with a SyntaxError. *)
Theorem formatUnits_negative (n d : Z) :
  0 < n -> 0 <= d <= 22 -> n mod 10 ^ d <> 0 ->
  exists f,
    formatUnits (OfBigInt (- n)) d =
      Ok (bigint_toString (- (n / 10 ^ d)) ++ "." ++ f) /\
    In "-"%char (chars f) /\
    parseUnits (bigint_toString (- (n / 10 ^ d)) ++ "." ++ f) d =
      Throw (NativeError "SyntaxError").
Proof.
  intros Hn Hd Hrem.
  assert (Hpow : 0 < 10 ^ d) by (apply Z.pow_pos_nonneg; lia).
  assert (Hr : 0 <= n mod 10 ^ d < 10 ^ d) by (apply Z.mod_pos_bound; lia).
  assert (Hq : 0 <= n / 10 ^ d) by (apply Z.div_pos; lia).
  assert (Hd1 : 1 <= d).
  { destruct (Z.eq_dec d 0) as [->|]; [|lia].
    change (10 ^ 0) with 1 in Hrem. rewrite Z.mod_1_r in Hrem. lia. }
  destruct (digits_of_value (n mod 10 ^ d) ltac:(lia))
    as [[Hrd _] _].
  destruct (digits_of_value (n / 10 ^ d) Hq) as [[Hqd Hqshape] _].
  set (R := digits_of (n mod 10 ^ d)) in *.
  set (Q := digits_of (n / 10 ^ d)) in *.
  set (zs := repeat "0"%char (Z.to_nat d - List.length ("-"%char :: R))).
  set (R' := rev (drop_while zero_char (rev R))).
  set (f := str (zs ++ "-"%char :: R')).
  assert (HR' : all_digits R').
  { unfold R'. apply Forall_rev, drop_while_digits. now apply Forall_rev. }
  assert (Hfmt : formatUnits (OfBigInt (- n)) d =
                 Ok (bigint_toString (- (n / 10 ^ d)) ++ "." ++ f)).
  { unfold formatUnits. rewrite BigInt_pow10_exact by lia.
    rewrite Z.quot_opp_l, Z.rem_opp_l by lia.
    rewrite Z.quot_div_nonneg, Z.rem_mod_nonneg by lia.
    replace (- (n mod 10 ^ d) =? 0) with false
      by (symmetry; apply Z.eqb_neq; lia).
    assert (Htrim : trim_trailing_zeros
                      (padStart (bigint_toString (- (n mod 10 ^ d))) d "0")
                    = f).
    { unfold bigint_toString.
      replace (- (n mod 10 ^ d) <? 0) with true
        by (symmetry; apply Z.ltb_lt; lia).
      rewrite Z.opp_involutive. fold R.
      unfold padStart, trim_trailing_zeros. rewrite !chars_str. fold zs.
      fold zero_char. unfold f. f_equal.
      rewrite rev_app_distr. cbn [rev]. rewrite <- app_assoc. cbn [app].
      rewrite drop_while_app_stop by reflexivity.
      rewrite rev_app_distr. cbn [rev]. rewrite <- app_assoc. cbn [app].
      now rewrite rev_involutive. }
    rewrite Htrim.
    replace (f =? "")%string with false; [reflexivity|].
    symmetry. apply String.eqb_neq. intro E.
    apply (f_equal chars) in E. unfold f in E. rewrite chars_str in E.
    destruct zs; discriminate E. }
  exists f. split; [exact Hfmt|].
  assert (Hin : In "-"%char (chars f)).
  { unfold f. rewrite chars_str. apply in_or_app. right. now left. }
  split; [exact Hin|].
  set (i := bigint_toString (- (n / 10 ^ d))).
  assert (Hclass : forall l, all_digits l ->
            Forall (fun x => is_digit x = true \/ x = "-"%char) l).
  { intros l Hl. eapply Forall_impl; [|exact Hl]. intros x Hx. now left. }
  assert (Hi : exists c r, chars i = c :: r /\
                 (is_digit c = true \/ c = "-"%char) /\
                 Forall (fun x => is_digit x = true \/ x = "-"%char) r /\
                 ~ In "."%char (chars i)).
  { unfold i, bigint_toString.
    destruct (- (n / 10 ^ d) <? 0) eqn:E.
    - rewrite Z.opp_involutive. fold Q. rewrite chars_str.
      exists "-"%char, Q. split; [reflexivity|]. split; [now right|].
      split; [now apply Hclass|].
      intros [H|H]; [discriminate H|]. now apply (digits_no_dot Q).
    - apply Z.ltb_ge in E. assert (Hz : n / 10 ^ d = 0) by lia.
      rewrite Hz. cbn. exists "0"%char, []. split; [reflexivity|].
      split; [now left|]. split; [constructor|].
      intros [H|[]]. discriminate H. }
  destruct Hi as [c [r [Hichars [Hc [Hr' Hidot]]]]].
  assert (Hfdot : ~ In "."%char (chars f)).
  { unfold f. rewrite chars_str. intro H. apply in_app_or in H.
    destruct H as [H|[H|H]].
    - unfold zs in H. apply repeat_spec in H. discriminate H.
    - discriminate H.
    - now apply (digits_no_dot R'). }
  unfold parseUnits.
  replace (split (i ++ "." ++ f) ".") with [i; f].
  2: { unfold split. rewrite !chars_app. change (chars ".") with ["."%char].
       cbn [app]. rewrite split_chars_at_sep by exact Hidot.
       rewrite split_chars_no_sep by exact Hfdot.
       cbn. now rewrite !str_chars. }
  cbn [nth].
  set (padded := slice0 (padEnd f d "0") d).
  assert (Hpadded : chars padded =
                    firstn (Z.to_nat d)
                      (chars f ++
                       repeat "0"%char (Z.to_nat d - List.length (chars f))))
    by (apply padded_fraction; lia).
  assert (Hzs : (List.length zs < Z.to_nat d)%nat).
  { unfold zs. rewrite repeat_length. cbn [List.length]. lia. }
  assert (Hpin : In "-"%char (chars padded)).
  { rewrite Hpadded. unfold f. rewrite chars_str, <- app_assoc.
    rewrite firstn_app. apply in_or_app. right.
    replace (Z.to_nat d - List.length zs)%nat
      with (S (Z.to_nat d - List.length zs - 1)) by lia.
    cbn. now left. }
  assert (Hpclass : Forall (fun x => is_digit x = true \/ x = "-"%char)
                           (chars padded)).
  { rewrite Hpadded.
    match goal with
    | |- Forall ?P (firstn ?k ?l) =>
        assert (Hwhole : Forall P l);
        [| rewrite <- (firstn_skipn k l) in Hwhole;
           now apply Forall_app in Hwhole ]
    end.
    apply Forall_app. split.
    - unfold f. rewrite chars_str. apply Forall_app. split.
      + apply Hclass, all_digits_zeros.
      + constructor; [now right | now apply Hclass].
    - apply Hclass, all_digits_zeros. }
  replace (i ++ padded) with (str (c :: (r ++ chars padded)))
    by (apply chars_inj; rewrite chars_str, chars_app, Hichars; reflexivity).
  rewrite StringToBigInt_inner_minus; [reflexivity | exact Hc | |].
  - apply Forall_app. now split.
  - apply in_or_app. now right.
Qed.

Lemma formatUnits_negative_witness :
  exists f,
    formatUnits (OfBigInt (- 1500000000)) 9 =
      Ok (bigint_toString (- (1500000000 / 10 ^ 9)) ++ "." ++ f) /\
    In "-"%char (chars f) /\
    parseUnits (bigint_toString (- (1500000000 / 10 ^ 9)) ++ "." ++ f) 9 =
      Throw (NativeError "SyntaxError").
Proof.
  apply (formatUnits_negative 1500000000 9); [lia | lia |].
  vm_compute. discriminate.
Defined.
